(** * Baseline ranking methods for argument retrieval (arclus)

    A shallow embedding of [src/arclus/get_similar.py] and
    [src/arclus/models/baselines.py], of the training loop of
    [src/arclus/n_end_model.py] and of the ranking step of
    [executables/evaluation/baseline_1.py].

    Modelling conventions.
    - For the properties that depend on the structure of the code and on
      comparisons alone, a representation (a row of a
      [torch.FloatTensor]) is a list of rationals.  What depends on the
      rounding of 32-bit floats is stated over [Float32], the binary32
      numbers with rounding to nearest, and [FloatTensor].
    - A 2-D tensor of shape [(r, c)] is a list of [r] rows of length [c].
    - Python exceptions are values of [exn]; a computation that can raise
      returns a [result].
    - The representation stores and the table of precomputed similarities
      are Python dicts, modelled as [gmap]s.
    - [torch.cdist], [functional.normalize] and scikit-learn's [KMeans] are
      collaborators from outside the repository: they are the methods of
      classes.  [KMeans] reads the global NumPy random state, an explicit
      argument, and advances it; [run] threads it through a sequence of
      calls.
    - Validation losses and accuracies are rationals as well; the
      [ValueError] of [max] on an empty sequence, the one exception of the
      training loop, is [None]. *)

From Stdlib Require Import ZArith QArith Qround Qabs Qpower Lia Lqa.
From Stdlib Require Floats.SpecFloat.
From stdpp Require Import base gmap strings list sorting.

Local Open Scope Z_scope.

(** ** Exceptions and the error monad *)

Inductive key : Type :=
  | ClaimKey (claim_id : Z)
  | PremiseKey (premise_id : string).

Inductive exn : Type :=
  | KeyError (k : key)
  | IndexError
  | TypeError
  | RuntimeError
  | NotImplementedError (arg : string)
  | ClusteringError.

Inductive result (A : Type) : Type :=
  | Ok (a : A)
  | Raise (e : exn).

Arguments Ok {A} a.
Arguments Raise {A} e.

#[export] Instance result_ret : MRet result := λ A a, Ok a.

#[export] Instance result_bind : MBind result := λ A B f c,
  match c with
  | Ok a => f a
  | Raise e => Raise e
  end.

(** A list comprehension whose body may raise: the first failure wins. *)
Fixpoint for_each {A B : Type} (f : A → result B) (l : list A) : result (list B) :=
  match l with
  | [] => Ok []
  | x :: l' => y ← f x; ys ← for_each f l'; Ok (y :: ys)
  end.

(** A [for] loop threading an accumulator, aborting on the first raise. *)
Fixpoint for_loop {A S : Type} (body : S → A → result S) (l : list A) (s : S) : result S :=
  match l with
  | [] => Ok s
  | x :: l' => s' ← body s x; for_loop body l' s'
  end.

(** ** Sequences *)

(** [l[i]] for an index known to be non-negative. *)
Definition index {A : Type} (l : list A) (i : nat) : result A :=
  match l !! i with
  | Some x => Ok x
  | None => Raise IndexError
  end.

(** [d[k]] on a dict. *)
Definition getitem `{Countable K} {V : Type} (mk : K → key) (d : gmap K V) (k : K) : result V :=
  match d !! k with
  | Some v => Ok v
  | None => Raise (KeyError (mk k))
  end.

(** [l[:k]] *)
Definition slice_to {A : Type} (k : Z) (l : list A) : list A :=
  if k <? 0 then take (length l - Z.to_nat (- k)) l else take (Z.to_nat k) l.

(** [enumerate(l)] *)
Definition enumerate {A : Type} (l : list A) : list (nat * A) :=
  zip (seq 0 (length l)) l.

(** ** Sorting by decreasing key

    [sorted(l, key=f, reverse=True)] is stable: elements with equal keys
    keep their relative order.  [x], which precedes every element of the
    already sorted tail in the input, is placed in front of the first
    element whose key is not larger. *)

Fixpoint insert_desc {A : Type} (f : A → Q) (x : A) (l : list A) : list A :=
  match l with
  | [] => [x]
  | y :: l' => if Qle_bool (f y) (f x) then x :: y :: l' else y :: insert_desc f x l'
  end.

Definition sorted_desc {A : Type} (f : A → Q) (l : list A) : list A :=
  foldr (insert_desc f) [] l.

(** ** Tensor operations *)

Definition Representation : Type := list Q.
Definition Matrix : Type := list (list Q).

(** [torch.stack(rows, dim=0)]: raises on an empty list and on rows of
    different sizes. *)
Definition stack (rows : list Representation) : result (list Representation) :=
  match rows with
  | [] => Raise RuntimeError
  | r :: rs =>
      if forallb (λ r', Nat.eqb (length r') (length r)) rs then Ok rows
      else Raise RuntimeError
  end.

(** [row.topk(k, largest=True, sorted=True)] on a 1-D tensor: pairs of
    index and value, by decreasing value; raises when [k] is out of range.
    Ties are resolved towards the smaller index. *)
Definition topk (k : Z) (row : list Q) : result (list (nat * Q)) :=
  if (k <? 0) || (Z.of_nat (length row) <? k) then Raise RuntimeError
  else Ok (take (Z.to_nat k) (sorted_desc snd (enumerate row))).

(** [m.topk(k).indices] along the last dimension of a 2-D tensor. *)
Definition topk_indices (k : Z) (m : Matrix) : result (list (list nat)) :=
  for_each (λ row, t ← topk k row; Ok (map fst t)) m.

(** [t.squeeze(dim=0).tolist()] used as a list of indices: the first
    dimension is dropped only when it has size one; otherwise the entries
    of the list are lists themselves and cannot be used as indices. *)
Definition squeeze0_tolist (t : list (list nat)) : result (list nat) :=
  match t with
  | [] => Ok []
  | [r] => Ok r
  | _ => Raise TypeError
  end.

(** [t[mask]] for a boolean mask over the first dimension. *)
Definition mask_select {A : Type} (mask : list bool) (t : list A) : result (list A) :=
  if Nat.eqb (length mask) (length t)
  then Ok (map snd (filter (λ p, fst p = true) (zip mask t)))
  else Raise IndexError.

(** [t[idx]] for a tensor [idx] of non-negative indices. *)
Definition index_select {A : Type} (t : list A) (idx : list Z) : result (list A) :=
  for_each (λ i, index t (Z.to_nat i)) idx.

(** Position of the first maximum of a non-empty row. *)
Fixpoint argmax_from (best : nat) (bv : Q) (i : nat) (row : list Q) : nat :=
  match row with
  | [] => best
  | x :: row' =>
      if Qle_bool x bv then argmax_from best bv (S i) row'
      else argmax_from i x (S i) row'
  end.

(** [m.argmax(dim=1)] *)
Definition argmax_dim1 (m : Matrix) : result (list nat) :=
  for_each (λ row, match row with
                   | [] => Raise IndexError
                   | x :: row' => Ok (argmax_from 0%nat x 1%nat row')
                   end) m.

(** ** Number of clusters *)

(** Python's [round] on a number: to the nearest integer, ties to even. *)
Definition py_round (x : Q) : Z :=
  let f := Qfloor x in
  match (x - inject_Z f ?= 1 # 2)%Q with
  | Lt => f
  | Gt => f + 1
  | Eq => if Z.even f then f else f + 1
  end.

Definition _num_clusters (ratio : Q) (num_premises : Z) (k : Z) : Z :=
  let n_clusters := py_round (ratio * inject_Z num_premises) in
  let n_clusters := Z.max n_clusters k in
  let n_clusters := Z.min n_clusters num_premises in
  n_clusters.

(** The clamp of the specification: [x] limited below by [lo], then above
    by [hi]. *)
Definition clamp (x lo hi : Z) : Z := Z.min (Z.max x lo) hi.

(** ** Similarities ([get_similar.py]) *)

(** The interface [Similarity]: [sim(claims, premises)] takes two 2-D
    tensors of representations and returns the matrix of pairwise
    similarities, or raises. *)
Record Similarity : Type := { sim : list Representation → list Representation → result Matrix }.

(** [torch.cdist(x1, x2, p)], the matrix of pairwise Lp distances. *)
Class Cdist : Type := { cdist : list Representation → list Representation → Z → result Matrix }.

(** [c + m] and [c / m] for a Python number [c] and a tensor [m]. *)
Definition scalar_add (c : Q) (m : Matrix) : Matrix := map (map (λ x, c + x)%Q) m.
Definition scalar_div (c : Q) (m : Matrix) : Matrix := map (map (λ x, c / x)%Q) m.
Definition scalar_mul (c : Q) (m : Matrix) : Matrix := map (map (λ x, c * x)%Q) m.

Definition LpSimilarity `{Cdist} (p : Z) : Similarity :=
  {| sim claims premises :=
       d ← cdist claims premises p;
       (* change distance to similarity *)
       Ok (scalar_div 1 (scalar_add 1 d)) |}.

(** The 1-D slices of a 2-D tensor along a dimension: its columns for
    [dim = 0], its rows for [dim = 1]. *)
Definition ncols (m : Matrix) : nat :=
  match m with
  | [] => 0%nat
  | row :: _ => length row
  end.

Definition column (j : nat) (m : Matrix) : list Q := omap (λ row : list Q, row !! j) m.

Definition slices (dim : nat) (m : Matrix) : list (list Q) :=
  match dim with
  | O => map (λ j, column j m) (seq 0 (ncols m))
  | _ => m
  end.

(** [v.unsqueeze(dim)] of a 1-D tensor. *)
Definition unsqueeze (dim : nat) (v : list Q) : Matrix :=
  match dim with
  | O => [v]
  | _ => map (λ x, [x]) v
  end.

Definition sum (l : list Q) : Q := foldr Qplus 0%Q l.

Definition mean (l : list Q) : Q := (sum l / inject_Z (Z.of_nat (length l)))%Q.

(** Compute the mean similarity of the top-k matches along an axis:
    [sim.topk(k, dim, largest=True, sorted=False)[0].mean(dim).unsqueeze(dim)].
    The values of the top-k are kept slice by slice. *)
Definition _mean_top_sim (sim : Matrix) (k : Z) (dim : nat) : result Matrix :=
  top ← for_each (λ s, t ← topk k s; Ok (map snd t)) (slices dim sim);
  Ok (unsqueeze dim (map mean top)).

(** Broadcasting of two sizes along one dimension. *)
Definition broadcast_size (a b : nat) : result nat :=
  if Nat.eqb a b then Ok a
  else if Nat.eqb a 1 then Ok b
  else if Nat.eqb b 1 then Ok a
  else Raise RuntimeError.

Definition expand {A : Type} (d : A) (n : nat) (l : list A) : list A :=
  if Nat.eqb (length l) n then l else replicate n (hd d l).

Definition broadcast2 {A B : Type} (d : A) (f : A → A → result B) (a b : list A) : result (list B) :=
  n ← broadcast_size (length a) (length b);
  for_each (λ p, f (fst p) (snd p)) (zip (expand d n a) (expand d n b)).

(** [a - b] on 2-D tensors, with broadcasting. *)
Definition tensor_sub (a b : Matrix) : result Matrix :=
  broadcast2 [] (broadcast2 0%Q (λ x y, Ok (x - y)%Q)) a b.

(** CSLS normalisation of a base similarity; [k] is the number of nearest
    neighbours averaged over. *)
Definition CSLSSimilarity (base : Similarity) (k : nat) : Similarity :=
  {| sim claims premises :=
       (* compute base similarity *)
       s ← sim base claims premises;
       (* normalize similarity *)
       m0 ← _mean_top_sim s (Z.of_nat k) 0;
       m1 ← _mean_top_sim s (Z.of_nat k) 1;
       d ← tensor_sub (scalar_mul 2 s) m0;
       tensor_sub d m1 |}.

(** The k largest values of a sequence, as the specification has them. *)
Definition top_k (k : nat) (l : list Q) : list Q := take k (sorted_desc id l).

Definition entry (m : Matrix) (i j : nat) : option Q := row ← m !! i; row !! j.

Definition shape (m : Matrix) (r c : nat) : Prop :=
  length m = r ∧ Forall (λ row, length row = c) m.

(** The shape that every similarity of the repository gives its result:
    one row per claim, one column per premise. *)
Definition well_shaped (S : Similarity) : Prop :=
  ∀ claims premises s, sim S claims premises = Ok s →
    shape s (length claims) (length premises).

(** ** Ranking methods ([models/baselines.py]) *)

(** scikit-learn's [KMeans(n_clusters=n)]: [fit_predict(x)] together with
    [cluster_centers_].  No [random_state] is passed by the callers, so the
    initialisation draws from the global NumPy random state, of type
    [rng], and leaves it advanced: [advance g n x] is the state after the
    fit.  [np_random_seed] is [np.random.seed], which resets the state. *)
Class Clusterer : Type := {
  rng : Type;
  KMeans : rng → Z → list Representation → result (list Z * list Representation);
  advance : rng → Z → list Representation → rng;
  np_random_seed : Z → rng
}.

(** [self.claims[claim_id].unsqueeze(dim=0)] *)
Definition claim_representation (claims : gmap Z Representation) (claim_id : Z)
    : result (list Representation) :=
  r ← getitem ClaimKey claims claim_id; Ok [r].

(** [torch.stack([self.premises[premise_id] for premise_id in premise_ids], dim=0)] *)
Definition premise_representations (premises : gmap string Representation)
    (premise_ids : list string) : result (list Representation) :=
  rows ← for_each (getitem PremiseKey premises) premise_ids; stack rows.

Module ZeroShotKNN.

Record t : Type := {
  similarity : Similarity;
  claims : gmap Z Representation;
  premises : gmap string Representation
}.

Definition rank (self : t) (claim_id : Z) (premise_ids : list string) (k : Z)
    : result (list string) :=
  (* get the claim representation *)
  claim_repr ← claim_representation (claims self) claim_id;
  (* get premise representations *)
  premise_repr ← premise_representations (premises self) premise_ids;
  (* find most similar *)
  s ← sim (similarity self) claim_repr premise_repr;
  t ← topk_indices k s;
  top_ids ← squeeze0_tolist t;
  (* re-translate to original IDs *)
  for_each (index premise_ids) top_ids.

End ZeroShotKNN.

Module ZeroShotClusterKNN.

Record t : Type := {
  similarity : Similarity;
  ratio : Q;
  claims : gmap Z Representation;
  premises : gmap string Representation;
  cluster_representative : string
}.

(** [__init__], once the two stores are loaded: the fields are stored as
    given; [cluster_representative] is not looked at. *)
Definition init (similarity : Similarity) (cluster_ratio : Q)
    (claims : gmap Z Representation) (premises : gmap string Representation)
    (cluster_representative : string) : result t :=
  Ok {| similarity := similarity; ratio := cluster_ratio; claims := claims;
        premises := premises; cluster_representative := cluster_representative |}.

(** One iteration of the loop of [_get_cluster_representatives]. *)
Definition representative_step (self : t) (claim_repr premise_repr : list Representation)
    (assignment : list Z) (centroids : list Representation)
    (repr_ids : list Z) (i : nat) : result (list Z) :=
  anchor ←
    (if String.eqb (cluster_representative self) "closest-to-center"
     then c ← index centroids i; Ok [c]
     else if String.eqb (cluster_representative self) "closest-to-claim"
     then Ok claim_repr
     else Raise (NotImplementedError (cluster_representative self)));
  let mask := map (Z.eqb (Z.of_nat i)) assignment in
  if negb (existsb id mask) then Ok repr_ids else
  premises_in_cluster ← mask_select mask premise_repr;
  s ← sim (similarity self) anchor premises_in_cluster;
  a ← argmax_dim1 s;
  idx ← index a 0;
  members ← mask_select mask (seq 0 (length premise_repr));
  r ← index members idx;
  Ok (<[i := Z.of_nat r]> repr_ids).

Definition _get_cluster_representatives (self : t)
    (claim_repr premise_repr : list Representation)
    (assignment : list Z) (centroids : list Representation) : result (list Z) :=
  let n_clusters := length centroids in
  for_loop (representative_step self claim_repr premise_repr assignment centroids)
           (seq 0 n_clusters) (replicate n_clusters (-1)).

(** The part of [rank] after the clustering. *)
Definition rank_clustered (self : t) (claim_repr premise_repr : list Representation)
    (premise_ids : list string) (k : Z)
    (cluster_assignment : list Z) (cluster_centers : list Representation)
    : result (list string) :=
  (* choose representatives *)
  cluster_repr_id ← _get_cluster_representatives self claim_repr premise_repr
                      cluster_assignment cluster_centers;
  (* find most similar clusters *)
  let non_empty_clusters := map (Z.leb 0) cluster_repr_id in
  reps ← mask_select non_empty_clusters cluster_repr_id;
  selected ← index_select premise_repr reps;
  s ← sim (similarity self) claim_repr selected;
  t ← topk_indices k s;
  top_cluster_id ← squeeze0_tolist t;
  (* re-translate to local (batch) premise ID *)
  top_ids ← for_each (index reps) top_cluster_id;
  (* re-translate to original IDs *)
  for_each (λ i, index premise_ids (Z.to_nat i)) top_ids.

Definition rank `{Clusterer} (self : t) (g : rng) (claim_id : Z)
    (premise_ids : list string) (k : Z) : result (list string) :=
  (* get the claim representation *)
  claim_repr ← claim_representation (claims self) claim_id;
  (* get premise representations *)
  premise_repr ← premise_representations (premises self) premise_ids;
  (* cluster premises *)
  let n := _num_clusters (ratio self) (Z.of_nat (length premise_ids)) k in
  '(cluster_assignment, cluster_centers) ← KMeans g n premise_repr;
  rank_clustered self claim_repr premise_repr premise_ids k
                 cluster_assignment cluster_centers.

End ZeroShotClusterKNN.

Module LearnedSimilarityKNN.

Record t : Type := {
  precomputed_similarities : gmap string Q
}.

Definition lookup_similarity (self : t) (premise_id : string) : result Q :=
  getitem PremiseKey (precomputed_similarities self) premise_id.

(** [sorted(premise_ids, key=lookup_similarity, reverse=True)[:k]]; the
    keys of all elements are computed before anything is compared.
    [claim_id] is not used. *)
Definition rank (self : t) (claim_id : Z) (premise_ids : list string) (k : Z)
    : result (list string) :=
  keys ← for_each (lookup_similarity self) premise_ids;
  Ok (slice_to k (map fst (sorted_desc snd (zip premise_ids keys)))).

End LearnedSimilarityKNN.

Module LearnedSimilarityClusterKNN.

Record t : Type := {
  ratio : Q;
  premises : gmap string Representation;
  precomputed_similarities : gmap string Q
}.

(** The body of the loop over the premises, by decreasing similarity;
    the state is [(seen_clusters, result)]. *)
Definition select_step (premise_ids : list string) (cluster_assignment : list Z)
    (st : gset Z * list string) (i : nat) : result (gset Z * list string) :=
  let '(seen_clusters, result) := st in
  cluster_id ← index cluster_assignment i;
  result' ← (if decide (cluster_id ∉ seen_clusters)
             then premise_id ← index premise_ids i; Ok (result ++ [premise_id])
             else Ok result);
  Ok (seen_clusters ∪ {[cluster_id]}, result').

Definition rank `{Clusterer} (self : t) (g : rng) (claim_id : Z)
    (premise_ids : list string) (k : Z) : result (list string) :=
  (* get premise representations *)
  let num_premises := length premise_ids in
  premise_repr ← premise_representations (premises self) premise_ids;
  (* cluster premises *)
  let n := _num_clusters (ratio self) (Z.of_nat num_premises) k in
  '(cluster_assignment, _) ← KMeans g n premise_repr;
  keys ← for_each (λ i, premise_id ← index premise_ids i;
                        getitem PremiseKey (precomputed_similarities self) premise_id)
                  (seq 0 num_premises);
  let order := map fst (sorted_desc snd (zip (seq 0 num_premises) keys)) in
  '(_, result) ← for_loop (select_step premise_ids cluster_assignment) order (∅, []);
  Ok (slice_to k result).

End LearnedSimilarityClusterKNN.

(** The class hierarchy below [RankingMethod]. *)
Inductive RankingMethod : Type :=
  | ZeroShotKNN (self : ZeroShotKNN.t)
  | ZeroShotClusterKNN (self : ZeroShotClusterKNN.t)
  | LearnedSimilarityKNN (self : LearnedSimilarityKNN.t)
  | LearnedSimilarityClusterKNN (self : LearnedSimilarityClusterKNN.t).

(** [method.rank(claim_id, premise_ids, k)], run under the random state [g]. *)
Definition rank `{Clusterer} (method : RankingMethod) (g : rng) (claim_id : Z)
    (premise_ids : list string) (k : Z) : result (list string) :=
  match method with
  | ZeroShotKNN self => ZeroShotKNN.rank self claim_id premise_ids k
  | ZeroShotClusterKNN self => ZeroShotClusterKNN.rank self g claim_id premise_ids k
  | LearnedSimilarityKNN self => LearnedSimilarityKNN.rank self claim_id premise_ids k
  | LearnedSimilarityClusterKNN self => LearnedSimilarityClusterKNN.rank self g claim_id premise_ids k
  end.

(** The premise representation store of a method, where it has one. *)
Definition representation_store (method : RankingMethod) : option (gmap string Representation) :=
  match method with
  | ZeroShotKNN self => Some (ZeroShotKNN.premises self)
  | ZeroShotClusterKNN self => Some (ZeroShotClusterKNN.premises self)
  | LearnedSimilarityKNN _ => None
  | LearnedSimilarityClusterKNN self => Some (LearnedSimilarityClusterKNN.premises self)
  end.

(** Whether [rank] of a method runs k-means. *)
Definition uses_clustering (method : RankingMethod) : bool :=
  match method with
  | ZeroShotKNN _ | LearnedSimilarityKNN _ => false
  | ZeroShotClusterKNN _ | LearnedSimilarityClusterKNN _ => true
  end.





(** ** Instances of the collaborators, for running the model *)

(** The Manhattan distance, [torch.cdist] at [p = 1]: the Lp distance that
    stays rational on rational vectors. *)
Definition manhattan (a b : Representation) : Q :=
  sum (zip_with (λ x y, Qabs (x - y)) a b).

#[export] Instance cdist_manhattan : Cdist :=
  {| cdist x1 x2 p := Ok (map (λ a, map (manhattan a) x2) x1) |}.

(** A clusterer that deals the points out to the clusters, advancing by
    the stride that the random state gives; the centroids are the first
    points. *)
Definition deal (g n : Z) (x : list Representation) : list Z :=
  map (λ i, (g * Z.of_nat i) mod n) (seq 0 (length x)).

#[export] Instance dealing_clusterer : Clusterer :=
  {| rng := Z;
     KMeans g n x :=
       if (n <? 1) || (Z.of_nat (length x) <? n) then Raise ClusteringError
       else Ok (deal g n x, take (Z.to_nat n) x);
     advance g n x := g + 1;
     np_random_seed seed := seed |}.

(** k-means as scikit-learn runs it: Lloyd's iteration from centres drawn
    among the points, ten times over, of which the run with the smallest
    sum of squared distances to the centres is kept. *)












(** The cluster labels that a call of [rank] computes, for the methods
    that cluster. *)
Definition cluster_assignment `{Clusterer} (method : RankingMethod) (g : rng)
    (premise_ids : list string) (k : Z) : result (list Z) :=
  match method with
  | ZeroShotKNN _ | LearnedSimilarityKNN _ => Ok []
  | ZeroShotClusterKNN self =>
      premise_repr ← premise_representations (ZeroShotClusterKNN.premises self) premise_ids;
      let n := _num_clusters (ZeroShotClusterKNN.ratio self) (Z.of_nat (length premise_ids)) k in
      '(assignment, _) ← KMeans g n premise_repr; Ok assignment
  | LearnedSimilarityClusterKNN self =>
      premise_repr ← premise_representations (LearnedSimilarityClusterKNN.premises self) premise_ids;
      let n := _num_clusters (LearnedSimilarityClusterKNN.ratio self) (Z.of_nat (length premise_ids)) k in
      '(assignment, _) ← KMeans g n premise_repr; Ok assignment
  end.

(** [cluster_repr_id] in a call of [ZeroShotClusterKNN.rank]: what the
    call selects as representatives, one entry per cluster, [-1] for a
    cluster without premises. *)
Definition cluster_repr_id `{Clusterer} (self : ZeroShotClusterKNN.t) (g : rng)
    (claim_id : Z) (premise_ids : list string) (k : Z) : result (list Z) :=
  claim_repr ← claim_representation (ZeroShotClusterKNN.claims self) claim_id;
  premise_repr ← premise_representations (ZeroShotClusterKNN.premises self) premise_ids;
  let n := _num_clusters (ZeroShotClusterKNN.ratio self) (Z.of_nat (length premise_ids)) k in
  '(assignment, centers) ← KMeans g n premise_repr;
  ZeroShotClusterKNN._get_cluster_representatives self claim_repr premise_repr
    assignment centers.

(** The cluster label of a premise ID: the label at its position among the
    candidates. *)
Definition cluster_label (premise_ids : list string) (assignment : list Z)
    (premise_id : string) : option Z :=
  '(i, _) ← list_find (λ q, q = premise_id) premise_ids; assignment !! i.

(** ** What [_get_cluster_representatives] is to choose *)

(** The anchor of cluster [i] in [_get_cluster_representatives]: its
    centroid or the claim, as [cluster_representative] says. *)
Definition cluster_anchor (self : ZeroShotClusterKNN.t) (claim_repr : list Representation)
    (centroids : list Representation) (i : nat) : result (list Representation) :=
  if String.eqb (ZeroShotClusterKNN.cluster_representative self) "closest-to-center"
  then c ← index centroids i; Ok [c]
  else if String.eqb (ZeroShotClusterKNN.cluster_representative self) "closest-to-claim"
  then Ok claim_repr
  else Raise (NotImplementedError (ZeroShotClusterKNN.cluster_representative self)).

(** [r] is what [_get_cluster_representatives] is to store for cluster [j]:
    [-1] if no premise carries the label [j], and otherwise the position of
    a premise with that label whose similarity to the anchor is the largest
    among the premises of the cluster. *)
Definition is_representative (self : ZeroShotClusterKNN.t)
    (claim_repr premise_repr : list Representation) (assignment : list Z)
    (centroids : list Representation) (j : nat) (r : Z) : Prop :=
  (r = -1 ∧ Forall (λ c, c ≠ Z.of_nat j) assignment)
  ∨ (0 ≤ r ∧ assignment !! Z.to_nat r = Some (Z.of_nat j)
     ∧ ∃ anchor members in_cluster s idx v,
         cluster_anchor self claim_repr centroids j = Ok anchor
         ∧ mask_select (map (Z.eqb (Z.of_nat j)) assignment) (seq 0 (length premise_repr))
           = Ok members
         ∧ mask_select (map (Z.eqb (Z.of_nat j)) assignment) premise_repr = Ok in_cluster
         ∧ sim (ZeroShotClusterKNN.similarity self) anchor in_cluster = Ok s
         ∧ members !! idx = Some (Z.to_nat r)
         ∧ entry s 0 idx = Some v
         ∧ ∀ j' v', entry s 0 j' = Some v' → (v' <= v)%Q).

(** ** The rest of [get_similar.py] *)

(** [functional.normalize(x, p, dim=-1)]: every row divided by its Lp
    norm; a collaborator from outside the repository, like [cdist]. *)
Class Normalize : Type := { normalize : list Representation → Z → list Representation }.

Definition dot (a b : list Q) : Q := sum (zip_with Qmult a b).

(** [a @ b.t()] for two 2-D tensors: the dot products of the rows of [a]
    with the rows of [b]; raises unless the rows of both have one length. *)
Definition matmul_t (a b : Matrix) : result Matrix :=
  if forallb (λ x, forallb (λ y, Nat.eqb (length x) (length y)) b) a
  then Ok (map (λ x, map (dot x) b) a)
  else Raise RuntimeError.

Definition CosineSimilarity `{Normalize} : Similarity :=
  {| sim claims premises := matmul_t (normalize claims 2) (normalize premises 2) |}.

(** Return most similar premises ranked in descending order, and their
    indices: [premises[indices], indices]. *)
Definition get_most_similar (claims premises : list Representation) (k : Z)
    (similarity : Similarity) : result (list (list Representation) * list (list nat)) :=
  s ← sim similarity claims premises;
  indices ← topk_indices k s;
  selected ← for_each (for_each (index premises)) indices;
  Ok (selected, indices).

(** ** The rest of [models/baselines.py] *)

(** [c.lower()] on an ASCII character. *)
Definition lower_ascii (c : Ascii.ascii) : Ascii.ascii :=
  let n := Ascii.nat_of_ascii c in
  if (65 <=? n)%nat && (n <=? 90)%nat then Ascii.ascii_of_nat (n + 32) else c.

(** [name.lower()] on an ASCII string. *)
Fixpoint lower (name : string) : string :=
  match name with
  | EmptyString => EmptyString
  | String c rest => String (lower_ascii c) (lower rest)
  end.

(** [name.replace('_', '')]; the underscore is character 95. *)
Fixpoint remove_underscores (name : string) : string :=
  match name with
  | EmptyString => EmptyString
  | String c rest =>
      if Ascii.eqb c (Ascii.ascii_of_nat 95) then remove_underscores rest
      else String c (remove_underscores rest)
  end.

Definition name_normalizer (name : string) : string :=
  remove_underscores (lower name).

(** ** Training with early stopping ([n_end_model.py]) *)

(** [l[start:]] *)
Definition slice_from {A : Type} (start : Z) (l : list A) : list A :=
  if start <? 0 then drop (length l - Z.to_nat (- start)) l else drop (Z.to_nat start) l.

(** [max(l)]; [None] stands for the [ValueError] on an empty sequence. *)
Definition py_max (l : list Q) : option Q :=
  match l with
  | [] => None
  | x :: l' => Some (foldl (λ m y, if Qle_bool y m then m else y) x l')
  end.


Module TrainTestHandler.

(** The fields that steer [train]. *)
Record t : Type := {
  epochs : Z;
  patience : Z;
  min_delta : Q
}.

(** Early stopping on validation set: the test made after [val_loss] has
    been appended to [history]. *)
Definition early_stopping (self : t) (history : list Q) (val_loss : Q) : option bool :=
  if Z.of_nat (length history) >? patience self
  then m ← py_max (slice_from (- patience self) history);
       Some (Qle_bool ((1 - min_delta self) * m) val_loss)
  else Some false.

(** The epochs of [train]; [evaluate epoch] is the validation loss that
    [self.evaluate(val_loader)] returns after the training steps of that
    epoch. *)
Fixpoint train_epochs (self : t) (evaluate : nat → Q) (remaining epoch : nat)
    (history : list Q) : option (list Q) :=
  match remaining with
  | O => Some history
  | S remaining' =>
      let val_loss := evaluate epoch in
      let history := history ++ [val_loss] in
      stop ← early_stopping self history val_loss;
      if stop : bool then Some history
      else train_epochs self evaluate remaining' (S epoch) history
  end.

(** [train]: the history of validation losses it leaves in [self.history]. *)
Definition train (self : t) (evaluate : nat → Q) : option (list Q) :=
  train_epochs self evaluate (Z.to_nat (epochs self)) 0 [].


End TrainTestHandler.

(** ** The first baseline ([executables/evaluation/baseline_1.py]) *)

Module baseline_1.

(** A row of the table of assignments [df]. *)
Record row : Type := {
  claim_id : Z;
  premise_id : string;
  relevance : Z
}.

(** The choices of [--k]. *)
Inductive k_choice : Type := K5 | K10.

Definition k_value (k : k_choice) : Z :=
  match k with
  | K5 => 5
  | K10 => 10
  end.

(** The body of the loop of [main] over the claims, up to
    [predicted_ranking]: the relevance column of [df.iloc[k_indices]]. *)
Definition predicted_ranking `{Cdist} (df : list row)
    (claims_representations : gmap Z Representation)
    (premises_representations : gmap string Representation)
    (id : Z) (k : k_choice) : result (list Z) :=
  (* locate all premises which are assigned to the current claim *)
  let premises := filter (λ r, claim_id r = id) df in
  let premises_ids := map premise_id premises in
  (* get the premises representations *)
  premise_representation_list ←
    for_each (getitem PremiseKey premises_representations) premises_ids;
  premises_repr ← stack premise_representation_list;
  (* get the claim representation *)
  claim_repr ← claim_representation claims_representations id;
  (* find knn premises given a claim *)
  '(k_premises, k_indices) ←
    get_most_similar claim_repr premises_repr (k_value k) (LpSimilarity 2);
  positions ← squeeze0_tolist k_indices;
  (* generate the ranking (relevance) of the knn premises *)
  for_each (λ i, r ← index df i; Ok (relevance r)) positions.

End baseline_1.

(** ** 32-bit floats

    The binary32 numbers of IEEE 754, the entries of a
    [torch.FloatTensor]: the finite ones are rationals, and every
    operation rounds its exact result to the nearest number with 24
    significant bits (to the even one of two nearest), to a multiple of
    [2 ^ -149] below [2 ^ -126], and to an infinity from [2 ^ 128] on.
    The sign of zero is not kept. *)

Module Float32.

Inductive t : Type :=
  | Finite (q : Q)
  | PosInf
  | NegInf
  | NaN.

Definition pow2 (e : Z) : Q := (2 ^ e)%Q.

(** [floor(log2 x)] for a positive [x]. *)
Definition ilog2 (x : Q) : Z :=
  let e := Z.log2 (Qnum x) - Z.log2 (Zpos (Qden x)) in
  if Qle_bool (pow2 e) x then e else e - 1.

(** The exponent of the last place of the binary32 numbers around [x]:
    24 bits of precision, and the spacing [2 ^ -149] of the subnormal
    numbers below [2 ^ -126]. *)
Definition ulp_exponent (x : Q) : Z := Z.max (ilog2 (Qabs x) - 23) (-149).

Definition ulp (x : Q) : Q := pow2 (ulp_exponent x).

(** The nearest multiple of the unit in the last place, ties to even. *)
Definition nearest (x : Q) : Q := (inject_Z (py_round (x / ulp x)) * ulp x)%Q.

(** Rounding to nearest, ties to even; overflow gives an infinity. *)
Definition round (x : Q) : t :=
  if Qeq_bool x 0 then Finite 0 else
  let r := nearest x in
  if Qle_bool (pow2 128) r then PosInf
  else if Qle_bool r (- pow2 128) then NegInf
  else Finite r.

Definition opp (x : t) : t :=
  match x with
  | Finite a => Finite (- a)
  | PosInf => NegInf
  | NegInf => PosInf
  | NaN => NaN
  end.

Definition abs (x : t) : t :=
  match x with
  | Finite a => Finite (Qabs a)
  | PosInf | NegInf => PosInf
  | NaN => NaN
  end.

Definition add (x y : t) : t :=
  match x, y with
  | Finite a, Finite b => round (a + b)
  | NaN, _ | _, NaN => NaN
  | PosInf, NegInf | NegInf, PosInf => NaN
  | PosInf, _ | _, PosInf => PosInf
  | NegInf, _ | _, NegInf => NegInf
  end.

Definition sub (x y : t) : t := add x (opp y).

Definition div (x y : t) : t :=
  match x, y with
  | NaN, _ | _, NaN => NaN
  | Finite a, Finite b =>
      if Qeq_bool b 0
      then (if Qeq_bool a 0 then NaN else if Qle_bool 0 a then PosInf else NegInf)
      else round (a / b)
  | Finite _, (PosInf | NegInf) => Finite 0
  | (PosInf | NegInf), (PosInf | NegInf) => NaN
  | PosInf, Finite b => if Qle_bool 0 b then PosInf else NegInf
  | NegInf, Finite b => if Qle_bool 0 b then NegInf else PosInf
  end.

Definition le (x y : t) : Prop :=
  match x, y with
  | NaN, _ | _, NaN => False
  | NegInf, _ | _, PosInf => True
  | Finite a, Finite b => (a <= b)%Q
  | _, _ => False
  end.

Definition lt (x y : t) : Prop :=
  match x, y with
  | NaN, _ | _, NaN => False
  | PosInf, _ | _, NegInf => False
  | Finite a, Finite b => (a < b)%Q
  | _, _ => True
  end.

Definition eq (x y : t) : Prop :=
  match x, y with
  | Finite a, Finite b => (a == b)%Q
  | PosInf, PosInf | NegInf, NegInf => True
  | _, _ => False
  end.

End Float32.

(** ** [LpSimilarity] on [torch.FloatTensor]s

    The code of [LpSimilarity.sim] once more, on tensors of 32-bit
    floats: the sum and the quotient are rounded. *)

Module FloatTensor.

(** A 2-D [torch.FloatTensor]. *)
Definition t : Type := list (list Float32.t).

Definition entry (m : t) (i j : nat) : option Float32.t := row ← m !! i; row !! j.

(** [torch.cdist(x1, x2, p)] on 32-bit floats. *)
Class Cdist : Type := { cdist : t → t → Z → result t }.

(** [c + m] and [c / m] for a Python number [c] and a tensor [m]: the
    number becomes a 32-bit float, and so is every entry of the result. *)
Definition scalar_add (c : Float32.t) (m : t) : t := map (map (Float32.add c)) m.
Definition scalar_div (c : Float32.t) (m : t) : t := map (map (Float32.div c)) m.

(** [LpSimilarity(p).sim(claims, premises)] *)
Definition LpSimilarity_sim `{Cdist} (p : Z) (claims premises : t) : result t :=
  d ← cdist claims premises p;
  (* change distance to similarity *)
  Ok (scalar_div (Float32.Finite 1) (scalar_add (Float32.Finite 1) d)).

(** [torch.cdist] at [p = 1]: the absolute differences of the
    coordinates, added up from left to right.  On vectors of one
    coordinate this is the Lp distance for every [p]. *)
Definition manhattan (a b : list Float32.t) : Float32.t :=
  foldl Float32.add (Float32.Finite 0)
        (zip_with (λ x y, Float32.abs (Float32.sub x y)) a b).

Definition cdist_manhattan : Cdist :=
  {| cdist x1 x2 p := Ok (map (λ a, map (manhattan a) x2) x1) |}.

End FloatTensor.

(** The same numbers as the Standard Library specifies them. *)
Definition of_spec_float (f : SpecFloat.spec_float) : Float32.t :=
  match f with
  | SpecFloat.S754_zero _ => Float32.Finite 0
  | SpecFloat.S754_infinity false => Float32.PosInf
  | SpecFloat.S754_infinity true => Float32.NegInf
  | SpecFloat.S754_nan => Float32.NaN
  | SpecFloat.S754_finite sign m e =>
      Float32.Finite ((if sign then -1 else 1) * inject_Z (Zpos m) * Float32.pow2 e)
  end.

(** ** More instances, for running the model *)

(** A normalisation that is exact on the rows whose Euclidean norm is
    rational, and leaves the other rows alone. *)
Definition rational_sqrt (x : Q) : option Q :=
  let n := (Qnum x * Zpos (Qden x))%Z in
  let r := Z.sqrt n in
  if (0 <=? n) && (r * r =? n) then Some (r # Qden x) else None.

Definition normalize_row (row : Representation) : Representation :=
  match rational_sqrt (dot row row) with
  | Some norm => if Qeq_bool norm 0 then row else map (λ x, x / norm)%Q row
  | None => row
  end.

#[export] Instance normalize_rational : Normalize :=
  {| normalize x p := map normalize_row x |}.

(** ** A small corpus, for running the model *)

Definition example_claims : gmap Z Representation :=
  {[ 1 := [0; 0]%Q ]}.

Definition example_premises : gmap string Representation :=
  list_to_map [("a", [1; 0]%Q); ("b", [0; 1 # 2]%Q); ("c", [3; 3]%Q); ("d", [3; 4]%Q)].

Definition example_similarities : gmap string Q :=
  list_to_map [("a", 1 # 10); ("b", 9 # 10); ("c", 5 # 10); ("d", 5 # 10)]%Q.

Definition example_ZeroShotKNN : ZeroShotKNN.t :=
  {| ZeroShotKNN.similarity := LpSimilarity 1;
     ZeroShotKNN.claims := example_claims;
     ZeroShotKNN.premises := example_premises |}.

Definition example_ZeroShotClusterKNN (mode : string) : ZeroShotClusterKNN.t :=
  {| ZeroShotClusterKNN.similarity := LpSimilarity 1;
     ZeroShotClusterKNN.ratio := 1 # 2;
     ZeroShotClusterKNN.claims := example_claims;
     ZeroShotClusterKNN.premises := example_premises;
     ZeroShotClusterKNN.cluster_representative := mode |}.

Definition example_LearnedSimilarityKNN : LearnedSimilarityKNN.t :=
  {| LearnedSimilarityKNN.precomputed_similarities := example_similarities |}.

Definition example_LearnedSimilarityClusterKNN : LearnedSimilarityClusterKNN.t :=
  {| LearnedSimilarityClusterKNN.ratio := 1 # 2;
     LearnedSimilarityClusterKNN.premises := example_premises;
     LearnedSimilarityClusterKNN.precomputed_similarities := example_similarities |}.




(** Two claims and two premises in one dimension.  The first claim and
    the first premise are at a distance of [2 ^ -30]; the distance of the
    second claim and the second premise, [2 ^ 128], is beyond the largest
    32-bit float. *)
Definition example_float_claims : FloatTensor.t :=
  [ [Float32.Finite 0]; [Float32.Finite (Float32.pow2 127)] ].

Definition example_float_premises : FloatTensor.t :=
  [ [Float32.Finite (Float32.pow2 (-30))]; [Float32.Finite (- Float32.pow2 127)] ].

Definition example_float_distances : FloatTensor.t :=
  Eval vm_compute in
    match FloatTensor.cdist (Cdist := FloatTensor.cdist_manhattan)
            example_float_claims example_float_premises 1 with
    | Ok d => d
    | Raise _ => []
    end.

(** A table of assignments: the first row belongs to claim 2, the five
    rows after it to claim 1. *)
Definition example_assignments : list baseline_1.row :=
  [ {| baseline_1.claim_id := 2; baseline_1.premise_id := "d"; baseline_1.relevance := 0 |};
    {| baseline_1.claim_id := 1; baseline_1.premise_id := "a"; baseline_1.relevance := 2 |};
    {| baseline_1.claim_id := 1; baseline_1.premise_id := "b"; baseline_1.relevance := 1 |};
    {| baseline_1.claim_id := 1; baseline_1.premise_id := "c"; baseline_1.relevance := 0 |};
    {| baseline_1.claim_id := 1; baseline_1.premise_id := "d"; baseline_1.relevance := 2 |};
    {| baseline_1.claim_id := 1; baseline_1.premise_id := "a"; baseline_1.relevance := 1 |} ].

(** * Properties *)

(** ** The error monad and loops *)

Lemma bind_Ok {A B : Type} (c : result A) (f : A → result B) (b : B) :
  c ≫= f = Ok b → ∃ a, c = Ok a ∧ f a = Ok b.
Proof. destruct c as [a|e]; [eauto | discriminate]. Qed.

Lemma bind_Raise {A B : Type} (c : result A) (f : A → result B) (e : exn) :
  c = Raise e → c ≫= f = Raise e.
Proof. now intros ->. Qed.

Ltac inv_bind H :=
  let a := fresh "a" in
  let Ha := fresh "Ha" in
  apply bind_Ok in H; destruct H as (a & Ha & H).

Lemma for_each_Forall2 {A B : Type} (f : A → result B) (l : list A) (ys : list B) :
  for_each f l = Ok ys ↔ Forall2 (λ x y, f x = Ok y) l ys.
Proof.
  revert ys; induction l as [|x l IH]; intros ys; simpl.
  - split.
    + intros [= <-]; constructor.
    + intros Hf; inversion Hf; reflexivity.
  - split.
    + intros H. inv_bind H. inv_bind H. injection H as <-.
      constructor; [assumption | now apply IH].
    + intros Hf; inversion Hf as [|? y ? ys' Hx Hl]; subst.
      rewrite Hx; simpl. apply IH in Hl. rewrite Hl. reflexivity.
Qed.

Lemma for_each_map {A B : Type} (f : A → result B) (h : A → B) (l : list A) :
  Forall (λ x, f x = Ok (h x)) l → for_each f l = Ok (map h l).
Proof.
  intros H. apply for_each_Forall2.
  induction H; simpl; constructor; auto.
Qed.

Lemma for_each_length {A B : Type} (f : A → result B) (l : list A) (ys : list B) :
  for_each f l = Ok ys → length ys = length l.
Proof.
  intros H; apply for_each_Forall2 in H.
  symmetry; eapply Forall2_length; eassumption.
Qed.

(** The first element on which the body raises decides the outcome. *)
Lemma for_each_Raise {A B : Type} (f : A → result B) (P : A → Prop) (l : list A) :
  (∀ x, P x → ∃ e, f x = Raise e) → Exists P l →
  ∃ x e, x ∈ l ∧ f x = Raise e ∧ for_each f l = Raise e.
Proof.
  intros HP Hex. induction l as [|x l IH]; [inversion Hex |].
  simpl. destruct (f x) as [y|e] eqn:Hx.
  - assert (Hl : Exists P l).
    { inversion Hex as [? ? Hp | ? ? Hl]; subst; [| exact Hl].
      destruct (HP _ Hp) as [e He]; congruence. }
    destruct (IH Hl) as (x' & e & Hin & Hf & Hr).
    exists x', e; repeat split; [now right | assumption |].
    simpl. rewrite Hr. reflexivity.
  - exists x, e; repeat split; [now left | assumption].
Qed.

(** ** C3: the number of clusters *)

(** Python's [round] returns an integer nearest to its argument. *)
Lemma py_round_nearest (x : Q) :
  (Qabs (inject_Z (py_round x) - x) <= 1 # 2)%Q.
Proof.
  unfold py_round.
  pose proof (Qfloor_le x) as Hlo. pose proof (Qlt_floor x) as Hhi.
  set (f := Qfloor x) in *.
  assert (Hf1 : (inject_Z (f + 1) == inject_Z f + 1)%Q)
    by (rewrite inject_Z_plus; reflexivity).
  apply Qabs_Qle_condition.
  destruct (Qcompare_spec (x - inject_Z f) (1 # 2)) as [He | Hl | Hg].
  - destruct (Z.even f); [| rewrite Hf1]; lra.
  - lra.
  - rewrite Hf1; lra.
Qed.

(** C3, as amended: the cluster count is the clamp [min(max(round(ratio *
    num_premises), k), num_premises)]; it never exceeds [num_premises], and
    it is at least [k] whenever [k] does not exceed [num_premises]. *)
Theorem num_clusters_is_clamp (ratio : Q) (num_premises k : Z) :
  _num_clusters ratio num_premises k
    = clamp (py_round (ratio * inject_Z num_premises)) k num_premises
  ∧ _num_clusters ratio num_premises k ≤ num_premises
  ∧ (k ≤ num_premises → k ≤ _num_clusters ratio num_premises k).
Proof.
  unfold _num_clusters, clamp. repeat split; lia.
Qed.

Lemma num_clusters_is_clamp_witness :
  3 ≤ 10 ∧ _num_clusters (1 # 2) 10 3 = 5.
Proof.
  split.
  - apply Z.leb_le; reflexivity.
  - pose proof (num_clusters_is_clamp (1 # 2) 10 3) as (H & _ & _).
    rewrite H; reflexivity.
Defined.

(** C3, as stated, fails when [k] exceeds [num_premises]: two premises
    and [k = 5] give two clusters. *)
Lemma num_clusters_below_k :
  ¬ (5 ≤ _num_clusters (1 # 2) 2 5 ∧ _num_clusters (1 # 2) 2 5 ≤ 2).
Proof. vm_compute. intros [H _]. apply H; reflexivity. Qed.

(** ** C10: the learned similarity ignores the claim *)

(** C10: [LearnedSimilarityKNN.rank] returns the same ranking for every
    two claim IDs (and under every random state): the premise IDs sorted
    by decreasing precomputed similarity, looked up by premise ID alone,
    and cut to their first [k]. *)
Theorem LearnedSimilarityKNN_rank_ignores_claim `{Clusterer}
    (self : LearnedSimilarityKNN.t) (g g' : rng) (claim_id claim_id' : Z)
    (premise_ids : list string) (k : Z) :
  rank (LearnedSimilarityKNN self) g claim_id premise_ids k
    = rank (LearnedSimilarityKNN self) g' claim_id' premise_ids k
  ∧ rank (LearnedSimilarityKNN self) g claim_id premise_ids k
    = (keys ← for_each (getitem PremiseKey (LearnedSimilarityKNN.precomputed_similarities self))
                       premise_ids;
       Ok (slice_to k (map fst (sorted_desc snd (zip premise_ids keys))))).
Proof. split; reflexivity. Qed.

(** ** C9: a premise missing from the representation store *)

Lemma getitem_None `{Countable K} {V : Type} (mk : K → key) (d : gmap K V) (k : K) :
  d !! k = None → getitem mk d k = Raise (KeyError (mk k)).
Proof. unfold getitem; now intros ->. Qed.

Lemma getitem_Raise `{Countable K} {V : Type} (mk : K → key) (d : gmap K V) (k : K) (e : exn) :
  getitem mk d k = Raise e → e = KeyError (mk k) ∧ d !! k = None.
Proof. unfold getitem; destruct (d !! k); [discriminate | now intros [= <-]]. Qed.

Lemma premise_representations_missing (premises : gmap string Representation)
    (premise_ids : list string) (p : string) :
  p ∈ premise_ids → premises !! p = None →
  ∃ q, q ∈ premise_ids ∧ premises !! q = None ∧
       premise_representations premises premise_ids = Raise (KeyError (PremiseKey q)).
Proof.
  intros Hin Hp. unfold premise_representations.
  destruct (for_each_Raise (getitem PremiseKey premises) (λ q, premises !! q = None) premise_ids)
    as (q & e & Hq & He & Hr).
  - intros q Hq; eexists; now apply getitem_None.
  - apply Exists_exists; eauto.
  - apply getitem_Raise in He as [-> Hnone].
    exists q; repeat split; [assumption.. |]. now rewrite Hr.
Qed.

(** C9: in every method that reads the premise representation store, a
    call of [rank] whose [premise_ids] contain an ID absent from the store
    raises [KeyError]: no ranking is returned.  The key is a premise ID of
    [premise_ids] that the store lacks, unless the claim ID, looked up
    first by the zero-shot methods, is missing itself. *)
Theorem missing_premise_raises_KeyError `{Clusterer} (method : RankingMethod)
    (store : gmap string Representation) (g : rng) (claim_id : Z)
    (premise_ids : list string) (k : Z) (p : string) :
  representation_store method = Some store →
  p ∈ premise_ids →
  store !! p = None →
  ∃ key, rank method g claim_id premise_ids k = Raise (KeyError key) ∧
         (key = ClaimKey claim_id
          ∨ ∃ q, key = PremiseKey q ∧ q ∈ premise_ids ∧ store !! q = None).
Proof.
  intros Hstore Hin Hp.
  destruct method as [self | self | self | self]; simpl in Hstore;
    [| | discriminate |]; injection Hstore as <-;
    destruct (premise_representations_missing _ _ _ Hin Hp) as (q & Hq & Hnone & Hr);
    simpl.
  - unfold ZeroShotKNN.rank, claim_representation, getitem.
    destruct (ZeroShotKNN.claims self !! claim_id); simpl.
    + rewrite Hr; simpl. eexists; split; [reflexivity | right; eauto].
    + eexists; split; [reflexivity | now left].
  - unfold ZeroShotClusterKNN.rank, claim_representation, getitem.
    destruct (ZeroShotClusterKNN.claims self !! claim_id); simpl.
    + rewrite Hr; simpl. eexists; split; [reflexivity | right; eauto].
    + eexists; split; [reflexivity | now left].
  - unfold LearnedSimilarityClusterKNN.rank.
    rewrite Hr; simpl. eexists; split; [reflexivity | right; eauto].
Qed.

(** ** C8: an unsupported cluster representative *)

Lemma for_loop_first_Raise {A S : Type} (body : S → A → result S) (x : A) (l : list A)
    (s : S) (e : exn) :
  body s x = Raise e → for_loop body (x :: l) s = Raise e.
Proof. intros H; simpl; now rewrite H. Qed.

(** C8: with a [cluster_representative] other than the two supported
    strings, [__init__] returns the object, and every call of [rank] that
    gets as far as choosing the representatives (the claim and the premises
    are in the stores and k-means returns its centroids) raises
    [NotImplementedError] with that string. *)
Theorem unsupported_representative_raises_in_rank `{Clusterer}
    (similarity : Similarity) (cluster_ratio : Q)
    (claims : gmap Z Representation) (premises : gmap string Representation)
    (mode : string) :
  mode ≠ "closest-to-center" → mode ≠ "closest-to-claim" →
  ∃ self,
    ZeroShotClusterKNN.init similarity cluster_ratio claims premises mode = Ok self ∧
    ∀ (g : rng) (claim_id : Z) (premise_ids : list string) (k : Z)
      (claim_repr premise_repr : list Representation)
      (assignment : list Z) (c : Representation) (centers : list Representation),
      claim_representation claims claim_id = Ok claim_repr →
      premise_representations premises premise_ids = Ok premise_repr →
      KMeans g (_num_clusters cluster_ratio (Z.of_nat (length premise_ids)) k) premise_repr
        = Ok (assignment, c :: centers) →
      rank (ZeroShotClusterKNN self) g claim_id premise_ids k
        = Raise (NotImplementedError mode).
Proof.
  intros Hcenter Hclaim. eexists; split; [reflexivity |].
  intros g claim_id premise_ids k claim_repr premise_repr assignment c centers Hc Hp Hk.
  simpl. unfold ZeroShotClusterKNN.rank; simpl.
  rewrite Hc; simpl. rewrite Hp; simpl. rewrite Hk; simpl.
  unfold ZeroShotClusterKNN.rank_clustered, ZeroShotClusterKNN._get_cluster_representatives.
  simpl length. simpl seq.
  erewrite for_loop_first_Raise; [reflexivity |].
  unfold ZeroShotClusterKNN.representative_step; simpl.
  apply String.eqb_neq in Hcenter, Hclaim. rewrite Hcenter, Hclaim. reflexivity.
Qed.

Lemma missing_premise_raises_KeyError_witness :
  ∃ key, rank (H := dealing_clusterer) (ZeroShotKNN example_ZeroShotKNN) 0 1 ["a"; "z"; "b"] 2
           = Raise (KeyError key) ∧
         (key = ClaimKey 1
          ∨ ∃ q, key = PremiseKey q ∧ q ∈ ["a"; "z"; "b"] ∧ example_premises !! q = None).
Proof.
  apply (missing_premise_raises_KeyError (H := dealing_clusterer)
           (ZeroShotKNN example_ZeroShotKNN) example_premises 0 1 ["a"; "z"; "b"] 2 "z").
  - reflexivity.
  - apply list_elem_of_In; simpl; tauto.
  - reflexivity.
Defined.

Lemma unsupported_representative_raises_in_rank_witness :
  ∃ self,
    ZeroShotClusterKNN.init (LpSimilarity 1) (1 # 2) example_claims example_premises "medoid"
      = Ok self ∧
    rank (H := dealing_clusterer) (ZeroShotClusterKNN self) 1 1 ["a"; "b"; "c"; "d"] 2
      = Raise (NotImplementedError "medoid").
Proof.
  destruct (unsupported_representative_raises_in_rank (H := dealing_clusterer) (LpSimilarity 1) (1 # 2)
              example_claims example_premises "medoid") as (self & Hinit & Hrank).
  - discriminate.
  - discriminate.
  - exists self; split; [exact Hinit |].
    eapply (Hrank 1 1 ["a"; "b"; "c"; "d"] 2); reflexivity.
Defined.

(** ** C6: reproducibility *)






(** ** Sorting *)

Lemma lookup_map {A B : Type} (f : A → B) (l : list A) (i : nat) :
  map f l !! i = f <$> l !! i.
Proof. apply list_lookup_fmap. Qed.

Lemma insert_desc_perm {A : Type} (f : A → Q) (x : A) (l : list A) :
  insert_desc f x l ≡ₚ x :: l.
Proof.
  induction l as [|y l IH]; simpl; [reflexivity |].
  destruct (Qle_bool (f y) (f x)); [reflexivity |].
  rewrite IH. apply Permutation_swap.
Qed.

Lemma sorted_desc_perm {A : Type} (f : A → Q) (l : list A) :
  sorted_desc f l ≡ₚ l.
Proof.
  induction l as [|x l IH]; simpl; [reflexivity |].
  unfold sorted_desc in *; simpl. rewrite insert_desc_perm. now rewrite IH.
Qed.

Lemma sorted_desc_length {A : Type} (f : A → Q) (l : list A) :
  length (sorted_desc f l) = length l.
Proof. apply Permutation_length, sorted_desc_perm. Qed.

Lemma insert_desc_map {A B : Type} (h : A → B) (g : B → Q) (x : A) (l : list A) :
  map h (insert_desc (g ∘ h) x l) = insert_desc g (h x) (map h l).
Proof.
  induction l as [|y l IH]; simpl; [reflexivity |].
  destruct (Qle_bool (g (h y)) (g (h x))); simpl; [reflexivity | now rewrite IH].
Qed.

Lemma sorted_desc_map {A B : Type} (h : A → B) (g : B → Q) (l : list A) :
  map h (sorted_desc (g ∘ h) l) = sorted_desc g (map h l).
Proof.
  induction l as [|x l IH]; simpl; [reflexivity |].
  unfold sorted_desc in *; simpl. now rewrite insert_desc_map, IH.
Qed.

Lemma enumerate_snd {A : Type} (l : list A) : map snd (enumerate l) = l.
Proof. unfold enumerate. apply snd_zip. rewrite length_seq. reflexivity. Qed.

Lemma enumerate_fst {A : Type} (l : list A) : map fst (enumerate l) = seq 0 (length l).
Proof. unfold enumerate. apply fst_zip. rewrite length_seq. reflexivity. Qed.

(** ** top-k *)

Lemma topk_Ok (k : nat) (row : list Q) :
  (k ≤ length row)%nat →
  topk (Z.of_nat k) row = Ok (take k (sorted_desc snd (enumerate row))).
Proof.
  intros Hk. unfold topk.
  destruct (Z.ltb_spec (Z.of_nat k) 0); [lia |].
  destruct (Z.ltb_spec (Z.of_nat (length row)) (Z.of_nat k)); [lia |].
  simpl. now rewrite Nat2Z.id.
Qed.

Lemma topk_values (k : nat) (row : list Q) :
  (k ≤ length row)%nat →
  (t ← topk (Z.of_nat k) row; Ok (map snd t)) = Ok (top_k k row).
Proof.
  intros Hk. rewrite topk_Ok by assumption. simpl. f_equal.
  unfold top_k. change (map snd ?l) with (snd <$> l). rewrite fmap_take.
  change (snd <$> ?l) with (map snd l).
  change (@snd nat Q) with (id ∘ @snd nat Q) at 2.
  now rewrite sorted_desc_map, enumerate_snd.
Qed.

(** ** Broadcasting *)

Lemma expand_same {A : Type} (d : A) (n : nat) (l : list A) :
  length l = n → expand d n l = l.
Proof. intros <-. unfold expand. now rewrite Nat.eqb_refl. Qed.

Lemma expand_single {A : Type} (d : A) (n : nat) (x : A) :
  expand d n [x] = replicate n x.
Proof.
  unfold expand. change (length [x]) with 1%nat.
  destruct (Nat.eqb_spec 1 n) as [<- |]; reflexivity.
Qed.

Lemma broadcast_size_1 (a : nat) : broadcast_size a 1 = Ok a.
Proof.
  unfold broadcast_size.
  destruct (Nat.eqb_spec a 1) as [-> |]; reflexivity.
Qed.

Lemma for_each_zip_replicate {A B : Type} (f : A → A → result B) (a : list A) (v : A) :
  for_each (λ p, f (fst p) (snd p)) (zip a (replicate (length a) v))
  = for_each (λ x, f x v) a.
Proof.
  induction a as [|x a IH]; simpl; [reflexivity |]. now rewrite IH.
Qed.

(** A one-element operand is repeated along the dimension. *)
Lemma broadcast2_single {A B : Type} (d : A) (f : A → A → result B) (a : list A) (v : A) :
  broadcast2 d f a [v] = for_each (λ x, f x v) a.
Proof.
  unfold broadcast2. simpl length. rewrite broadcast_size_1. simpl.
  rewrite expand_same by reflexivity. rewrite expand_single.
  apply for_each_zip_replicate.
Qed.

(** Operands of equal size are combined element by element. *)
Lemma broadcast2_same {A B : Type} (d : A) (f : A → A → result B) (a b : list A) :
  length a = length b →
  broadcast2 d f a b = for_each (λ p, f (fst p) (snd p)) (zip a b).
Proof.
  intros Hl. unfold broadcast2, broadcast_size. rewrite Hl, Nat.eqb_refl. simpl.
  rewrite !expand_same by congruence. reflexivity.
Qed.

Lemma sub_row_same (row v : list Q) :
  length row = length v →
  broadcast2 0%Q (λ x y, Ok (x - y)%Q) row v = Ok (zip_with Qminus row v).
Proof.
  intros Hl. rewrite broadcast2_same by assumption.
  rewrite (for_each_map _ (λ p, (fst p - snd p)%Q)).
  - f_equal. clear Hl. revert v; induction row as [|x row IH]; intros [|y v]; simpl;
      try reflexivity. now rewrite IH.
  - apply Forall_forall; intros; reflexivity.
Qed.

Lemma sub_row_scalar (row : list Q) (x : Q) :
  broadcast2 0%Q (λ x y, Ok (x - y)%Q) row [x] = Ok (map (λ y, (y - x)%Q) row).
Proof.
  rewrite broadcast2_single. apply for_each_map, Forall_forall; intros; reflexivity.
Qed.

(** ** Columns *)

Lemma column_length (m : Matrix) (r c j : nat) :
  shape m r c → (j < c)%nat → length (column j m) = r.
Proof.
  intros [<- Hrows] Hj. unfold column.
  induction Hrows as [|row m Hrow _ IH]; simpl; [reflexivity |].
  destruct (row !! j) eqn:Hlk; simpl.
  - f_equal. exact IH.
  - apply lookup_ge_None in Hlk. lia.
Qed.

Lemma column_lookup (m : Matrix) (r c i j : nat) (row : list Q) :
  shape m r c → (j < c)%nat → m !! i = Some row → column j m !! i = row !! j.
Proof.
  intros [_ Hrows] Hj. unfold column. revert i.
  induction Hrows as [|row' m Hrow _ IH]; intros i Hi; [discriminate |].
  simpl. destruct (row' !! j) eqn:Hlk.
  - destruct i as [|i]; simpl in *; [congruence | now apply IH].
  - apply lookup_ge_None in Hlk. lia.
Qed.

Lemma ncols_shape (m : Matrix) (r c : nat) :
  shape m r c → (0 < r)%nat → ncols m = c.
Proof.
  intros [Hr Hrows] Hpos. destruct m as [|row m]; simpl in *; [lia |].
  now inversion Hrows.
Qed.

(** ** [_mean_top_sim] *)

Lemma mean_top_sim_rows (s : Matrix) (k r c : nat) :
  shape s r c → (k ≤ c)%nat →
  _mean_top_sim s (Z.of_nat k) 1 = Ok (map (λ row, [mean (top_k k row)]) s).
Proof.
  intros [_ Hrows] Hk. unfold _mean_top_sim. simpl slices.
  rewrite (for_each_map _ (top_k k)).
  - simpl. now rewrite !map_map.
  - eapply Forall_impl; [exact Hrows |]. intros row Hrow; simpl in Hrow.
    apply topk_values. lia.
Qed.

Lemma mean_top_sim_columns (s : Matrix) (k r c : nat) :
  shape s r c → (k ≤ r)%nat →
  _mean_top_sim s (Z.of_nat k) 0
  = Ok [map (λ j, mean (top_k k (column j s))) (seq 0 (ncols s))].
Proof.
  intros Hs Hk. unfold _mean_top_sim. simpl slices.
  rewrite (for_each_map _ (top_k k)).
  - simpl. now rewrite !map_map.
  - apply Forall_forall. intros col Hcol.
    apply list_elem_of_In, in_map_iff in Hcol as (j & <- & Hj).
    apply in_seq in Hj. apply topk_values.
    destruct r as [|r].
    + destruct Hs as [Hr _]. destruct s; [simpl in Hj; lia | discriminate].
    + rewrite (ncols_shape s (S r) c) in Hj by (assumption || lia).
      rewrite (column_length s (S r) c) by (assumption || lia). assumption.
Qed.

(** ** C4: CSLS *)

Lemma zip_map_map {A B C : Type} (f : A → B) (g : A → C) (l : list A) :
  zip (map f l) (map g l) = map (λ x, (f x, g x)) l.
Proof. induction l as [|x l IH]; simpl; [reflexivity | now rewrite IH]. Qed.

(** The matrix that [CSLSSimilarity.sim] returns, row by row. *)
Lemma CSLS_closed_form (base : Similarity) (k : nat)
    (claims premises : list Representation) (s : Matrix) (r c : nat) :
  sim base claims premises = Ok s → shape s r c → (k ≤ r)%nat → (k ≤ c)%nat →
  sim (CSLSSimilarity base k) claims premises
  = Ok (map (λ row,
          map (λ y, (y - mean (top_k k row))%Q)
              (zip_with Qminus (map (Qmult 2) row)
                 (map (λ j, mean (top_k k (column j s))) (seq 0 (ncols s))))) s).
Proof.
  intros Hs Hshape Hr Hc. simpl. rewrite Hs; simpl.
  rewrite (mean_top_sim_columns s k r c) by assumption; simpl.
  rewrite (mean_top_sim_rows s k r c) by assumption; simpl.
  set (colv := map (λ j, mean (top_k k (column j s))) (seq 0 (ncols s))).
  assert (Hd : tensor_sub (scalar_mul 2 s) [colv]
               = Ok (map (λ row, zip_with Qminus (map (Qmult 2) row) colv) s)).
  { unfold tensor_sub, scalar_mul. rewrite broadcast2_single.
    rewrite (for_each_map _ (λ row, zip_with Qminus row colv)).
    - now rewrite map_map.
    - apply Forall_forall. intros row' Hin.
      apply list_elem_of_In, in_map_iff in Hin as (row & <- & Hin).
      apply sub_row_same. rewrite length_map. unfold colv. rewrite length_map, length_seq.
      pose proof Hshape as [Hlen Hrows].
      rewrite Forall_forall in Hrows. rewrite (Hrows row) by now apply list_elem_of_In.
      symmetry. apply (ncols_shape s r c); [exact Hshape |].
      destruct s; [destruct Hin | simpl in Hlen; lia]. }
  rewrite Hd; simpl.
  unfold tensor_sub. rewrite broadcast2_same by now rewrite !length_map.
  rewrite zip_map_map.
  rewrite (for_each_map _ (λ p, map (λ y, (y - hd 0 (snd p))%Q) (fst p))).
  - now rewrite map_map.
  - apply Forall_forall. intros p Hin.
    apply list_elem_of_In, in_map_iff in Hin as (row & <- & _). simpl.
    apply sub_row_scalar.
Qed.

(** C4: on a base similarity matrix [S] of shape [Qc × Qp] with
    [k ≤ Qc] and [k ≤ Qp], [CSLSSimilarity.sim] returns a matrix of the
    same shape whose entry [(i, j)] is
    [2 * S[i,j] - mean(top_k(S[i,:])) - mean(top_k(S[:,j]))]. *)
Theorem CSLS_sim_entries (base : Similarity) (k : nat)
    (claims premises : list Representation) (S : Matrix) (Qc Qp : nat) :
  sim base claims premises = Ok S → shape S Qc Qp → (k ≤ Qc)%nat → (k ≤ Qp)%nat →
  ∃ CSLS, sim (CSLSSimilarity base k) claims premises = Ok CSLS ∧
          shape CSLS Qc Qp ∧
          ∀ i j row s, S !! i = Some row → row !! j = Some s →
            ∃ v, entry CSLS i j = Some v ∧
                 (v == 2 * s - mean (top_k k row) - mean (top_k k (column j S)))%Q.
Proof.
  intros Hs Hshape Hr Hc.
  eexists; split; [eapply CSLS_closed_form; eassumption |].
  assert (Hcols : ∀ row, row ∈ S → ncols S = Qp ∧ length row = Qp).
  { intros row Hin. pose proof Hshape as [Hlen Hrows].
    rewrite Forall_forall in Hrows. split; [| now apply Hrows].
    apply (ncols_shape S Qc Qp); [exact Hshape |].
    destruct S; [inversion Hin | simpl in Hlen; lia]. }
  split; [split |].
  - rewrite length_map. apply Hshape.
  - apply Forall_forall. intros row' Hin.
    apply list_elem_of_In, in_map_iff in Hin as (row & <- & Hin).
    apply list_elem_of_In in Hin. destruct (Hcols row Hin) as [Hn Hl].
    rewrite length_map, length_zip_with, !length_map, length_seq. lia.
  - intros i j row s Hi Hj.
    assert (Hin : row ∈ S) by (eapply list_elem_of_lookup_2; eassumption).
    destruct (Hcols row Hin) as [Hn Hl].
    assert (Hjlt : (j < Qp)%nat) by (rewrite <- Hl; eapply lookup_lt_Some; eassumption).
    unfold entry, Matrix in *. eexists; split.
    + rewrite lookup_map, Hi. cbn [fmap option_fmap option_map mbind option_bind].
      rewrite lookup_map, lookup_zip_with, !lookup_map, Hj, lookup_seq_lt by lia.
      cbn [fmap option_fmap option_map mbind option_bind]. reflexivity.
    + simpl. ring.
Qed.

Lemma CSLS_sim_entries_witness :
  ∃ CSLS, sim (CSLSSimilarity (LpSimilarity 1) 1) [[0]%Q; [1]%Q] [[0]%Q; [2]%Q; [5]%Q]
            = Ok CSLS ∧
          shape CSLS 2 3 ∧
          ∀ i j row s, [[1; 1 # 3; 1 # 6]; [1 # 2; 1 # 2; 1 # 5]]%Q !! i = Some row →
            row !! j = Some s →
            ∃ v, entry CSLS i j = Some v ∧
                 (v == 2 * s - mean (top_k 1 row)
                       - mean (top_k 1 (column j [[1; 1 # 3; 1 # 6]; [1 # 2; 1 # 2; 1 # 5]]%Q)))%Q.
Proof.
  apply (CSLS_sim_entries (LpSimilarity 1) 1 [[0]%Q; [1]%Q] [[0]%Q; [2]%Q; [5]%Q]
           [[1; 1 # 3; 1 # 6]; [1 # 2; 1 # 2; 1 # 5]]%Q 2 3).
  - reflexivity.
  - split; [reflexivity | repeat constructor].
  - lia.
  - lia.
Defined.

(** ** Selections *)

Lemma index_Ok {A : Type} (l : list A) (i : nat) (x : A) :
  index l i = Ok x ↔ l !! i = Some x.
Proof.
  unfold index. destruct (l !! i); split; intros H; try discriminate;
    injection H as ->; reflexivity.
Qed.

Lemma slice_to_take {A : Type} (k : Z) (l : list A) :
  ∃ n, slice_to k l = take n l.
Proof. unfold slice_to. destruct (k <? 0); eauto. Qed.

(** Distinct positions of a duplicate-free list hold distinct elements. *)
Lemma NoDup_selection {A : Type} (l : list A) (pos : list nat) (xs : list A) :
  NoDup l → NoDup pos → Forall2 (λ i x, l !! i = Some x) pos xs → NoDup xs.
Proof.
  intros Hl Hpos Hsel. revert Hpos.
  induction Hsel as [|i x pos xs Hi Hsel IH]; intros Hpos; [apply NoDup_nil_2 |].
  apply NoDup_cons in Hpos as [Hni Hpos]. apply NoDup_cons. split; [| auto].
  intros Hx. apply list_elem_of_lookup in Hx as [n Hn].
  destruct (Forall2_lookup_r _ _ _ _ _ Hsel Hn) as (j & Hj & Hlj).
  assert (i = j) by (apply (NoDup_lookup l i j x); assumption). subst j.
  apply Hni. eapply list_elem_of_lookup_2; eassumption.
Qed.

(** ** The loop of [LearnedSimilarityClusterKNN.rank] *)

(** Invariant of the loop: the result holds the premises at the selected
    positions, whose labels are pairwise different and have all been
    seen. *)
Lemma select_loop (premise_ids : list string) (assignment : list Z)
    (order : list nat) (seen seen' : gset Z) (res res' : list string)
    (sel : list nat) (labels : list Z) :
  for_loop (LearnedSimilarityClusterKNN.select_step premise_ids assignment) order (seen, res)
    = Ok (seen', res') →
  Forall2 (λ i p, premise_ids !! i = Some p) sel res →
  Forall2 (λ i c, assignment !! i = Some c) sel labels →
  NoDup labels → (∀ c, c ∈ labels → c ∈ seen) →
  ∃ sel2 labels2,
    sel2 `sublist_of` order ∧
    Forall2 (λ i p, premise_ids !! i = Some p) (sel ++ sel2) res' ∧
    Forall2 (λ i c, assignment !! i = Some c) (sel ++ sel2) (labels ++ labels2) ∧
    NoDup (labels ++ labels2).
Proof.
  revert seen res sel labels.
  induction order as [|i order IH]; intros seen res sel labels Hloop Hres Hlab Hnd Hseen.
  - injection Hloop as <- <-. exists [], [].
    rewrite !app_nil_r. repeat split; [constructor | assumption..].
  - simpl in Hloop. apply bind_Ok in Hloop as ([seen1 res1] & Hstep & Hloop).
    unfold LearnedSimilarityClusterKNN.select_step in Hstep.
    apply bind_Ok in Hstep as (c & Hc & Hstep). apply index_Ok in Hc.
    apply bind_Ok in Hstep as (res1' & Hsel & Hstep).
    injection Hstep as <- <-.
    destruct (decide (c ∉ seen)) as [Hnew | Hold].
    + apply bind_Ok in Hsel as (p & Hp & Hsel). apply index_Ok in Hp.
      injection Hsel as <-.
      destruct (IH (seen ∪ {[c]}) (res ++ [p]) (sel ++ [i]) (labels ++ [c]) Hloop)
        as (sel2 & labels2 & Hsub & Hres' & Hlab' & Hnd').
      * apply Forall2_app; [assumption | repeat constructor; assumption].
      * apply Forall2_app; [assumption | repeat constructor; assumption].
      * apply NoDup_app. repeat split; [assumption | | apply NoDup_singleton].
        intros x Hx Hx'. apply list_elem_of_singleton in Hx'. subst x. auto.
      * intros x Hx. apply elem_of_app in Hx as [Hx | Hx].
        -- apply elem_of_union_l; auto.
        -- apply list_elem_of_singleton in Hx. subst x.
           apply elem_of_union_r, elem_of_singleton; reflexivity.
      * rewrite <- !app_assoc in *. simpl in *.
        exists (i :: sel2), (c :: labels2). repeat split; try assumption.
        now apply sublist_skip.
    + injection Hsel as <-.
      destruct (IH (seen ∪ {[c]}) res sel labels Hloop Hres Hlab Hnd)
        as (sel2 & labels2 & Hsub & Hres' & Hlab' & Hnd').
      * intros x Hx. apply elem_of_union_l; auto.
      * exists sel2, labels2. repeat split; try assumption.
        now apply sublist_cons.
Qed.

(** ** Masks *)

Lemma mask_select_elem {A : Type} (mask : list bool) (t xs : list A) (x : A) :
  mask_select mask t = Ok xs → x ∈ xs →
  ∃ j, mask !! j = Some true ∧ t !! j = Some x.
Proof.
  unfold mask_select. destruct (Nat.eqb _ _); [| discriminate].
  intros [= <-] Hx.
  apply list_elem_of_In, in_map_iff in Hx as ([b y] & Hy & Hin). simpl in Hy; subst y.
  apply list_elem_of_In, list_elem_of_filter in Hin as [Hb Hin]. simpl in Hb; subst b.
  apply list_elem_of_lookup in Hin as [j Hj].
  apply lookup_zip_with_Some in Hj as (b & y & Heq & Hm & Ht).
  injection Heq as <- <-. eauto.
Qed.

Lemma cluster_members (assignment : list Z) (i : nat) (n : nat) (members : list nat) (r : nat) :
  mask_select (map (Z.eqb (Z.of_nat i)) assignment) (seq 0 n) = Ok members →
  r ∈ members → assignment !! r = Some (Z.of_nat i).
Proof.
  intros Hm Hr. destruct (mask_select_elem _ _ _ _ Hm Hr) as (j & Hmask & Hseq).
  apply lookup_seq in Hseq as [-> _]. simpl.
  rewrite lookup_map in Hmask.
  destruct (assignment !! j) as [c|]; [| discriminate].
  injection Hmask as Hc. apply Z.eqb_eq in Hc. now subst c.
Qed.

(** ** The representatives of the clusters *)

(** What [_get_cluster_representatives] maintains: a representative that
    has been set for cluster [i] is a premise with label [i]. *)
Lemma representative_step_inv (self : ZeroShotClusterKNN.t)
    (claim_repr premise_repr : list Representation) (assignment : list Z)
    (centroids : list Representation) (ids ids' : list Z) (i : nat) :
  ZeroShotClusterKNN.representative_step self claim_repr premise_repr assignment centroids ids i
    = Ok ids' →
  (∀ j r, ids !! j = Some r → 0 ≤ r → assignment !! Z.to_nat r = Some (Z.of_nat j)) →
  (∀ j r, ids' !! j = Some r → 0 ≤ r → assignment !! Z.to_nat r = Some (Z.of_nat j)).
Proof.
  unfold ZeroShotClusterKNN.representative_step. intros Hstep Hinv.
  apply bind_Ok in Hstep as (anchor & _ & Hstep).
  destruct (negb _); [injection Hstep as <-; exact Hinv |].
  apply bind_Ok in Hstep as (pic & _ & Hstep).
  apply bind_Ok in Hstep as (s & _ & Hstep).
  apply bind_Ok in Hstep as (a & _ & Hstep).
  apply bind_Ok in Hstep as (idx & _ & Hstep).
  apply bind_Ok in Hstep as (members & Hmem & Hstep).
  apply bind_Ok in Hstep as (r & Hr & Hstep).
  injection Hstep as <-. apply index_Ok in Hr.
  intros j r' Hj Hpos.
  destruct (decide (i = j)) as [<- | Hne].
  - assert (Hlt : (i < length ids)%nat).
    { apply lookup_lt_Some in Hj. now rewrite length_insert in Hj. }
    rewrite list_lookup_insert_eq in Hj by assumption. injection Hj as <-.
    rewrite Nat2Z.id. eapply cluster_members; [eassumption |].
    eapply list_elem_of_lookup_2; eassumption.
  - rewrite list_lookup_insert_ne in Hj by assumption. now apply Hinv.
Qed.

Lemma get_cluster_representatives_inv (self : ZeroShotClusterKNN.t)
    (claim_repr premise_repr : list Representation) (assignment : list Z)
    (centroids : list Representation) (ids : list Z) :
  ZeroShotClusterKNN._get_cluster_representatives self claim_repr premise_repr
    assignment centroids = Ok ids →
  ∀ j r, ids !! j = Some r → 0 ≤ r → assignment !! Z.to_nat r = Some (Z.of_nat j).
Proof.
  unfold ZeroShotClusterKNN._get_cluster_representatives.
  generalize (seq 0 (length centroids)).
  assert (Hinit : ∀ j r, replicate (length centroids) (-1) !! j = Some r → 0 ≤ r →
                         assignment !! Z.to_nat r = Some (Z.of_nat j)).
  { intros j r Hj Hr. apply lookup_replicate in Hj as [-> _]. lia. }
  revert Hinit. generalize (replicate (length centroids) (-1)).
  intros ids0 Hinit order. revert ids0 Hinit.
  induction order as [|i order IH]; intros ids0 Hinit Hloop.
  - injection Hloop as <-. exact Hinit.
  - simpl in Hloop. apply bind_Ok in Hloop as (ids1 & Hstep & Hloop).
    eapply IH; [| exact Hloop].
    eapply representative_step_inv; eassumption.
Qed.

(** The representatives of the non-empty clusters carry pairwise different
    labels. *)
Lemma non_empty_representatives (assignment : list Z) (ids reps : list Z) :
  (∀ j r, ids !! j = Some r → 0 ≤ r → assignment !! Z.to_nat r = Some (Z.of_nat j)) →
  mask_select (map (Z.leb 0) ids) ids = Ok reps →
  ∃ labels, Forall2 (λ r c, 0 ≤ r ∧ assignment !! Z.to_nat r = Some c) reps labels
            ∧ NoDup labels.
Proof.
  intros Hinv. unfold mask_select. rewrite length_map, Nat.eqb_refl. intros [= <-].
  enough (Hgen : ∀ o : nat,
    (∀ j r, ids !! j = Some r → 0 ≤ r →
            assignment !! Z.to_nat r = Some (Z.of_nat (o + j))) →
    ∃ labels,
      Forall2 (λ r c, 0 ≤ r ∧ assignment !! Z.to_nat r = Some c)
        (map snd (filter (λ p : bool * Z, fst p = true) (zip (map (Z.leb 0) ids) ids))) labels
      ∧ NoDup labels ∧ Forall (λ c, Z.of_nat o ≤ c) labels).
  { destruct (Hgen 0%nat Hinv) as (labels & H1 & H2 & _). eauto. }
  clear Hinv. induction ids as [|r ids IH]; intros o Hinv.
  - exists []. repeat split; constructor.
  - destruct (IH (S o)) as (labels & Hl & Hnd & Hge).
    { intros j r' Hj Hr'. replace (S o + j)%nat with (o + S j)%nat by lia.
      now apply Hinv. }
    simpl. rewrite filter_cons. simpl.
    destruct (Z.leb_spec 0 r) as [Hr | Hr].
    + rewrite decide_True by reflexivity. simpl.
      exists (Z.of_nat o :: labels). repeat split.
      * constructor; [| exact Hl]. split; [assumption |].
        specialize (Hinv 0%nat r eq_refl Hr). now rewrite Nat.add_0_r in Hinv.
      * apply NoDup_cons. split; [| assumption].
        intros Hin. rewrite Forall_forall in Hge. specialize (Hge _ Hin). lia.
      * constructor; [lia |]. eapply Forall_impl; [exact Hge |]. simpl; lia.
    + rewrite decide_False by discriminate.
      exists labels. repeat split; try assumption.
      eapply Forall_impl; [exact Hge |]. simpl; lia.
Qed.

(** ** Indices returned by top-k *)

Lemma topk_indices_perm (k : Z) (row : list Q) (t : list (nat * Q)) :
  topk k row = Ok t →
  ∃ n, map fst t = take n (map fst (sorted_desc snd (enumerate row)))
       ∧ map fst (sorted_desc snd (enumerate row)) ≡ₚ seq 0 (length row).
Proof.
  unfold topk. destruct (_ || _); [discriminate |]. intros [= <-].
  exists (Z.to_nat k). split.
  - change (map fst ?l) with (fst <$> l). now rewrite fmap_take.
  - rewrite <- enumerate_fst. change (map fst ?l) with (fst <$> l).
    apply fmap_Permutation, sorted_desc_perm.
Qed.

Lemma top_indices_NoDup (k : Z) (s : Matrix) (t : list (list nat)) (top : list nat) :
  topk_indices k s = Ok t → squeeze0_tolist t = Ok top → NoDup top.
Proof.
  unfold topk_indices. intros Ht Hsq.
  destruct t as [|r [|r' t']]; simpl in Hsq; [| | discriminate]; injection Hsq as <-.
  - constructor.
  - apply for_each_Forall2 in Ht.
    inversion Ht as [|row ? s' ? Hrow _]; subst.
    apply bind_Ok in Hrow as (tk & Htk & Hrow). injection Hrow as <-.
    destruct (topk_indices_perm _ _ _ Htk) as (n & -> & Hperm).
    eapply sublist_NoDup; [| apply sublist_take].
    rewrite Hperm. apply NoDup_seq.
Qed.

Lemma selection_related {A B : Type} (R : A → B → Prop) (l : list A) (k : list B)
    (pos : list nat) (xs : list A) :
  Forall2 R l k → Forall2 (λ i x, l !! i = Some x) pos xs →
  ∃ ys, Forall2 (λ i y, k !! i = Some y) pos ys ∧ Forall2 R xs ys.
Proof.
  intros Hlk Hsel. induction Hsel as [|i x pos xs Hi _ (ys & Hys & HR)].
  - exists []; split; constructor.
  - destruct (Forall2_lookup_l _ _ _ _ _ Hlk Hi) as (y & Hy & Hxy).
    exists (y :: ys); split; constructor; assumption.
Qed.

(** With duplicate-free candidates, the label of a premise ID is the label
    at its position. *)
Lemma cluster_label_at (premise_ids : list string) (assignment : list Z)
    (i : nat) (p : string) :
  NoDup premise_ids → premise_ids !! i = Some p →
  cluster_label premise_ids assignment p = assignment !! i.
Proof.
  intros Hnd Hi. unfold cluster_label.
  assert (Hfind : list_find (λ q, q = p) premise_ids = Some (i, p)).
  { apply list_find_Some. repeat split; [assumption |].
    intros j q Hj Hlt ->.
    assert (i = j) by (apply (NoDup_lookup premise_ids i j p); assumption). lia. }
  rewrite Hfind. reflexivity.
Qed.

Lemma cluster_labels_at (premise_ids : list string) (assignment : list Z)
    (positions : list nat) (result : list string) (labels : list Z) :
  NoDup premise_ids →
  Forall2 (λ i p, premise_ids !! i = Some p) positions result →
  Forall2 (λ i c, assignment !! i = Some c) positions labels →
  map (cluster_label premise_ids assignment) result = map Some labels.
Proof.
  intros Hnd Hres. revert labels.
  induction Hres as [|i p positions result Hi _ IH]; intros labels Hlab;
    inversion Hlab as [|? c ? labels' Hc Hlab']; subst; simpl; [reflexivity |].
  rewrite (cluster_label_at _ _ i) by assumption. rewrite Hc. f_equal. now apply IH.
Qed.

(** ** C2: at most one premise per cluster *)

Lemma ZeroShotClusterKNN_rank_clustered_labels (self : ZeroShotClusterKNN.t)
    (claim_repr premise_repr : list Representation) (premise_ids : list string) (k : Z)
    (assignment : list Z) (centers : list Representation) (result : list string) :
  ZeroShotClusterKNN.rank_clustered self claim_repr premise_repr premise_ids k
    assignment centers = Ok result →
  ∃ positions labels,
    Forall2 (λ i p, premise_ids !! i = Some p) positions result ∧
    Forall2 (λ i c, assignment !! i = Some c) positions labels ∧
    NoDup labels.
Proof.
  unfold ZeroShotClusterKNN.rank_clustered. intros Hrank.
  apply bind_Ok in Hrank as (ids & Hids & Hrank).
  apply bind_Ok in Hrank as (reps & Hreps & Hrank).
  apply bind_Ok in Hrank as (selected & _ & Hrank).
  apply bind_Ok in Hrank as (s & _ & Hrank).
  apply bind_Ok in Hrank as (t & Ht & Hrank).
  apply bind_Ok in Hrank as (top & Htop & Hrank).
  apply bind_Ok in Hrank as (top_ids & Htop_ids & Hrank).
  apply for_each_Forall2 in Htop_ids, Hrank.
  pose proof (get_cluster_representatives_inv _ _ _ _ _ _ Hids) as Hinv.
  destruct (non_empty_representatives _ _ _ Hinv Hreps) as (labs & Hlabs & Hnd).
  assert (Hsel : Forall2 (λ i r, reps !! i = Some r) top top_ids).
  { eapply Forall2_impl; [exact Htop_ids |]. intros i r. apply index_Ok. }
  destruct (selection_related _ _ _ _ _ Hlabs Hsel) as (labels & Hpick & Hrel).
  exists (map Z.to_nat top_ids), labels. repeat split.
  - change (map Z.to_nat top_ids) with (Z.to_nat <$> top_ids).
    apply Forall2_fmap_l. eapply Forall2_impl; [exact Hrank |].
    intros r p. apply index_Ok.
  - change (map Z.to_nat top_ids) with (Z.to_nat <$> top_ids).
    apply Forall2_fmap_l. eapply Forall2_impl; [exact Hrel |].
    intros r c [_ Hc]. exact Hc.
  - eapply NoDup_selection; [exact Hnd | | exact Hpick].
    eapply top_indices_NoDup; eassumption.
Qed.

Lemma LearnedSimilarityClusterKNN_select_labels (premise_ids : list string)
    (assignment : list Z) (order : list nat) (seen : gset Z) (res : list string) (k : Z) :
  for_loop (LearnedSimilarityClusterKNN.select_step premise_ids assignment) order (∅, [])
    = Ok (seen, res) →
  ∃ positions labels,
    Forall2 (λ i p, premise_ids !! i = Some p) positions (slice_to k res) ∧
    Forall2 (λ i c, assignment !! i = Some c) positions labels ∧
    NoDup labels.
Proof.
  intros Hloop.
  destruct (select_loop _ _ _ _ _ _ _ [] [] Hloop) as (sel & labels & _ & Hres & Hlab & Hnd);
    [constructor | constructor | constructor | intros c Hc; inversion Hc |].
  simpl in *. destruct (slice_to_take k res) as [n ->].
  exists (take n sel), (take n labels). repeat split.
  - now apply Forall2_take.
  - now apply Forall2_take.
  - eapply sublist_NoDup; [exact Hnd | apply sublist_take].
Qed.

(** C2: in every sequence that a clustering method returns, the returned
    premises sit at positions of the candidates whose cluster labels, under
    the assignment computed in that call, are pairwise different: there are
    as many distinct labels as returned premises.  For duplicate-free
    candidates these are the labels of the returned premise IDs. *)
Theorem cluster_ranking_one_premise_per_cluster `{Clusterer} (method : RankingMethod)
    (g : rng) (claim_id : Z) (premise_ids : list string) (k : Z) (result : list string) :
  uses_clustering method = true →
  rank method g claim_id premise_ids k = Ok result →
  ∃ assignment positions labels,
    cluster_assignment method g premise_ids k = Ok assignment ∧
    Forall2 (λ i p, premise_ids !! i = Some p) positions result ∧
    Forall2 (λ i c, assignment !! i = Some c) positions labels ∧
    NoDup labels ∧
    size (list_to_set (C := gset Z) labels) = length result ∧
    (NoDup premise_ids →
     map (cluster_label premise_ids assignment) result = map Some labels).
Proof.
  intros Huses Hrank.
  enough (Hcore : ∃ assignment positions labels,
            cluster_assignment method g premise_ids k = Ok assignment ∧
            Forall2 (λ i p, premise_ids !! i = Some p) positions result ∧
            Forall2 (λ i c, assignment !! i = Some c) positions labels ∧
            NoDup labels).
  { destruct Hcore as (assignment & positions & labels & Ha & Hres & Hlab & Hnd).
    exists assignment, positions, labels. repeat split; try assumption.
    - rewrite size_list_to_set by assumption.
      apply Forall2_length in Hres, Hlab. congruence.
    - intros Hids. eapply cluster_labels_at; eassumption. }
  destruct method as [self | self | self | self]; try discriminate; simpl in *.
  - unfold ZeroShotClusterKNN.rank in Hrank.
    apply bind_Ok in Hrank as (claim_repr & _ & Hrank).
    apply bind_Ok in Hrank as (premise_repr & Hp & Hrank).
    apply bind_Ok in Hrank as ([assignment centers] & Hk & Hrank).
    rewrite Hp; simpl. rewrite Hk; simpl.
    destruct (ZeroShotClusterKNN_rank_clustered_labels _ _ _ _ _ _ _ _ Hrank)
      as (positions & labels & ?). eauto.
  - unfold LearnedSimilarityClusterKNN.rank in Hrank.
    apply bind_Ok in Hrank as (premise_repr & Hp & Hrank).
    apply bind_Ok in Hrank as ([assignment centers] & Hk & Hrank).
    apply bind_Ok in Hrank as (keys & _ & Hrank).
    apply bind_Ok in Hrank as ([seen res] & Hloop & Hrank).
    injection Hrank as <-.
    rewrite Hp; simpl. rewrite Hk; simpl.
    destruct (LearnedSimilarityClusterKNN_select_labels _ _ _ _ _ k Hloop)
      as (positions & labels & ?). eauto.
Qed.

Lemma cluster_ranking_one_premise_per_cluster_witness :
  ∃ assignment positions labels,
    cluster_assignment (H := dealing_clusterer)
      (ZeroShotClusterKNN (example_ZeroShotClusterKNN "closest-to-center"))
      1 ["a"; "b"; "c"; "d"] 2 = Ok assignment ∧
    Forall2 (λ i p, ["a"; "b"; "c"; "d"] !! i = Some p) positions ["b"; "a"] ∧
    Forall2 (λ i c, assignment !! i = Some c) positions labels ∧
    NoDup labels ∧
    size (list_to_set (C := gset Z) labels) = length ["b"; "a"] ∧
    (NoDup ["a"; "b"; "c"; "d"] →
     map (cluster_label ["a"; "b"; "c"; "d"] assignment) ["b"; "a"] = map Some labels).
Proof.
  apply (cluster_ranking_one_premise_per_cluster (H := dealing_clusterer)
           (ZeroShotClusterKNN (example_ZeroShotClusterKNN "closest-to-center"))
           1 1 ["a"; "b"; "c"; "d"] 2 ["b"; "a"]).
  - reflexivity.
  - vm_compute. reflexivity.
Defined.

(** ** Shapes *)

Lemma LpSimilarity_well_shaped `{Cdist} (p : Z) :
  (∀ x1 x2 d, cdist x1 x2 p = Ok d → shape d (length x1) (length x2)) →
  well_shaped (LpSimilarity p).
Proof.
  intros Hc claims premises s Hs. simpl in Hs.
  apply bind_Ok in Hs as (d & Hd & Hs). injection Hs as <-.
  destruct (Hc _ _ _ Hd) as [Hlen Hrows]. split.
  - unfold scalar_div, scalar_add. now rewrite !length_map.
  - unfold scalar_div, scalar_add. rewrite map_map.
    apply Forall_forall. intros row Hin.
    apply list_elem_of_In, in_map_iff in Hin as (row' & <- & Hin).
    rewrite !length_map. rewrite Forall_forall in Hrows.
    now apply Hrows, list_elem_of_In.
Qed.

Lemma manhattan_well_shaped (p : Z) : well_shaped (LpSimilarity (H := cdist_manhattan) p).
Proof.
  apply LpSimilarity_well_shaped. intros x1 x2 d [= <-]. split.
  - now rewrite length_map.
  - apply Forall_forall. intros row Hin.
    apply list_elem_of_In, in_map_iff in Hin as (a & <- & _). now rewrite length_map.
Qed.

Lemma stack_Ok (rows out : list Representation) :
  stack rows = Ok out → out = rows ∧ rows ≠ [].
Proof.
  unfold stack. destruct rows as [|r rs]; [discriminate |].
  destruct (forallb _ _); [| discriminate]. intros [= <-]. split; [reflexivity | discriminate].
Qed.

Lemma premise_representations_length (premises : gmap string Representation)
    (premise_ids : list string) (premise_repr : list Representation) :
  premise_representations premises premise_ids = Ok premise_repr →
  length premise_repr = length premise_ids ∧ premise_ids ≠ [].
Proof.
  unfold premise_representations. intros H.
  apply bind_Ok in H as (rows & Hrows & Hstack).
  apply stack_Ok in Hstack as [-> Hne].
  apply for_each_length in Hrows. split; [assumption |].
  intros ->. destruct rows; [congruence | discriminate].
Qed.

Lemma claim_representation_length (claims : gmap Z Representation) (claim_id : Z)
    (claim_repr : list Representation) :
  claim_representation claims claim_id = Ok claim_repr → length claim_repr = 1%nat.
Proof.
  unfold claim_representation. intros H.
  apply bind_Ok in H as (r & _ & H). now injection H as <-.
Qed.

(** Asking top-k for more entries than the single row of similarities has
    raises. *)
Lemma topk_beyond_row (k : Z) (s : Matrix) (n : nat) :
  shape s 1 n → Z.of_nat n < k → topk_indices k s = Raise RuntimeError.
Proof.
  intros [Hlen Hrows] Hk.
  destruct s as [|row [|row' s']]; try discriminate.
  inversion Hrows as [|? ? Hrow _]; subst.
  unfold topk_indices, topk. simpl.
  destruct (Z.ltb_spec (Z.of_nat (length row)) k); [| lia].
  rewrite orb_true_r. reflexivity.
Qed.

(** ** C1: more results requested than there are candidates *)

(** C1 fails in [ZeroShotKNN.rank]: whenever [k] exceeds the number of
    candidates (all of them, and the claim, in the stores; the similarity
    returning its matrix), top-k is asked for more entries than the row of
    similarities has, and [rank] raises [RuntimeError]. *)
Theorem ZeroShotKNN_rank_raises_beyond_candidates `{Clusterer} (self : ZeroShotKNN.t)
    (g : rng) (claim_id : Z) (premise_ids : list string) (k : Z)
    (claim_repr premise_repr : list Representation) (s : Matrix) :
  claim_representation (ZeroShotKNN.claims self) claim_id = Ok claim_repr →
  premise_representations (ZeroShotKNN.premises self) premise_ids = Ok premise_repr →
  sim (ZeroShotKNN.similarity self) claim_repr premise_repr = Ok s →
  well_shaped (ZeroShotKNN.similarity self) →
  Z.of_nat (length premise_ids) < k →
  rank (ZeroShotKNN self) g claim_id premise_ids k = Raise RuntimeError.
Proof.
  intros Hc Hp Hs Hshape Hk. simpl. unfold ZeroShotKNN.rank.
  rewrite Hc; simpl. rewrite Hp; simpl. rewrite Hs; simpl.
  apply Hshape in Hs.
  rewrite (claim_representation_length _ _ _ Hc) in Hs.
  destruct (premise_representations_length _ _ _ Hp) as [Hlen _]. rewrite Hlen in Hs.
  rewrite (topk_beyond_row k s _ Hs Hk). reflexivity.
Qed.

Lemma ZeroShotKNN_rank_raises_beyond_candidates_witness :
  rank (H := dealing_clusterer) (ZeroShotKNN example_ZeroShotKNN) 0 1 ["a"; "b"; "c"] 4
    = Raise RuntimeError.
Proof.
  apply (ZeroShotKNN_rank_raises_beyond_candidates (H := dealing_clusterer)
           example_ZeroShotKNN 0 1 ["a"; "b"; "c"] 4
           [[0; 0]%Q] [[1; 0]%Q; [0; 1 # 2]%Q; [3; 3]%Q] [[1 # 2; 2 # 3; 1 # 7]%Q]).
  - reflexivity.
  - reflexivity.
  - reflexivity.
  - apply manhattan_well_shaped.
  - reflexivity.
Defined.

(** X19: with a precomputed similarity for every candidate and [k ≥ 0],
    [LearnedSimilarityKNN.rank] returns: it cuts the sorted candidates with
    a slice, which never raises, and returns [min(k, n)] premises. *)
Lemma LearnedSimilarityKNN_rank_truncates (self : LearnedSimilarityKNN.t)
    (claim_id : Z) (premise_ids : list string) (k : Z) :
  0 ≤ k →
  Forall (λ p, is_Some (LearnedSimilarityKNN.precomputed_similarities self !! p)) premise_ids →
  ∃ result, LearnedSimilarityKNN.rank self claim_id premise_ids k = Ok result ∧
            length result = Nat.min (Z.to_nat k) (length premise_ids).
Proof.
  intros Hk Hall. unfold LearnedSimilarityKNN.rank.
  assert (Hkeys : ∃ keys, for_each (LearnedSimilarityKNN.lookup_similarity self) premise_ids
                          = Ok keys).
  { induction Hall as [|p ps [v Hv] _ [keys IH]]; [exists []; reflexivity |].
    exists (v :: keys). cbn [for_each]. rewrite IH.
    unfold LearnedSimilarityKNN.lookup_similarity, getitem. rewrite Hv. reflexivity. }
  destruct Hkeys as [keys Hkeys]. rewrite Hkeys; simpl.
  eexists; split; [reflexivity |].
  unfold slice_to. destruct (Z.ltb_spec k 0); [lia |].
  rewrite length_take, length_map, sorted_desc_length, length_zip_with.
  apply for_each_length in Hkeys. lia.
Qed.

Lemma LearnedSimilarityKNN_rank_truncates_witness :
  ∃ result, LearnedSimilarityKNN.rank example_LearnedSimilarityKNN 1 ["a"; "b"; "c"] 7
            = Ok result
            ∧ length result = Nat.min (Z.to_nat 7) (length ["a"; "b"; "c"]).
Proof.
  apply (LearnedSimilarityKNN_rank_truncates example_LearnedSimilarityKNN 1
           ["a"; "b"; "c"] 7).
  - lia.
  - repeat constructor; eexists; vm_compute; reflexivity.
Defined.

(** ** The contract of [rank], where it returns *)

Lemma insert_desc_sorted {A : Type} (f : A → Q) (x : A) (l : list A) :
  StronglySorted (λ a b, (f b <= f a)%Q) l →
  StronglySorted (λ a b, (f b <= f a)%Q) (insert_desc f x l).
Proof.
  induction 1 as [|y l Hl IH Hy]; simpl; [repeat constructor |].
  destruct (Qle_bool (f y) (f x)) eqn:Hle.
  - apply Qle_bool_iff in Hle.
    constructor; [constructor; assumption |].
    constructor; [assumption |].
    eapply Forall_impl; [exact Hy |]. simpl. intros z Hz. lra.
  - assert (Hlt : ¬ (f y <= f x)%Q) by (rewrite <- Qle_bool_iff; congruence).
    constructor; [assumption |].
    rewrite insert_desc_perm. constructor; [lra | assumption].
Qed.

Lemma sorted_desc_sorted {A : Type} (f : A → Q) (l : list A) :
  StronglySorted (λ a b, (f b <= f a)%Q) (sorted_desc f l).
Proof.
  induction l as [|x l IH]; [constructor |]. now apply insert_desc_sorted.
Qed.

Lemma StronglySorted_sublist {A : Type} (R : relation A) (l1 l2 : list A) :
  l1 `sublist_of` l2 → StronglySorted R l2 → StronglySorted R l1.
Proof.
  induction 1 as [|x l1 l2 Hsub IH | x l1 l2 Hsub IH]; intros Hs; [constructor | |].
  - apply StronglySorted_cons in Hs as [Hx Hs]. constructor; [auto |].
    rewrite Forall_forall in *. intros y Hy. apply Hx.
    eapply sublist_subseteq; eassumption.
  - apply StronglySorted_cons in Hs as [_ Hs]. auto.
Qed.

Lemma slice_to_length {A : Type} (k : Z) (l : list A) :
  0 ≤ k → (length (slice_to k l) ≤ Z.to_nat k)%nat.
Proof.
  intros Hk. unfold slice_to. destruct (Z.ltb_spec k 0); [lia |].
  rewrite length_take. lia.
Qed.

Lemma NoDup_bounded_length (pos : list nat) (n : nat) :
  NoDup pos → Forall (λ i, (i < n)%nat) pos → (length pos ≤ n)%nat.
Proof.
  intros Hnd Hlt.
  assert (Hsub : pos ⊆+ seq 0 n).
  { apply NoDup_submseteq; [assumption |].
    intros i Hi. rewrite Forall_forall in Hlt. apply elem_of_seq.
    specialize (Hlt i Hi). lia. }
  apply submseteq_length in Hsub. rewrite length_seq in Hsub. exact Hsub.
Qed.

(** Positions with pairwise different labels are pairwise different. *)
Lemma NoDup_labelled {A : Type} (a : list A) (pos : list nat) (labels : list A) :
  Forall2 (λ i c, a !! i = Some c) pos labels → NoDup labels → NoDup pos.
Proof.
  induction 1 as [|i c pos labels Hi Hrest IH]; intros Hnd; [constructor |].
  apply NoDup_cons in Hnd as [Hc Hnd]. apply NoDup_cons. split; [| auto].
  intros Hin. apply Hc. apply list_elem_of_lookup in Hin as [n Hn].
  destruct (Forall2_lookup_l _ _ _ _ _ Hrest Hn) as (c' & Hc' & Hic').
  assert (c' = c) by congruence. subst c'.
  eapply list_elem_of_lookup_2; eassumption.
Qed.

(** A selection of distinct candidate positions, at most [k] of them. *)
Lemma selection_contract (premise_ids : list string) (positions : list nat)
    (result : list string) (k : Z) :
  NoDup positions →
  Forall2 (λ i p, premise_ids !! i = Some p) positions result →
  (length positions ≤ Z.to_nat k)%nat →
  (length result ≤ Nat.min (Z.to_nat k) (length premise_ids))%nat
  ∧ result ⊆ premise_ids
  ∧ (NoDup premise_ids → NoDup result).
Proof.
  intros Hnd Hsel Hlen. repeat split.
  - rewrite <- (Forall2_length _ _ _ Hsel).
    apply Nat.min_glb; [assumption |].
    apply NoDup_bounded_length; [assumption |].
    apply Forall_forall. intros i Hi. apply list_elem_of_lookup in Hi as [n Hn].
    destruct (Forall2_lookup_l _ _ _ _ _ Hsel Hn) as (p & _ & Hp).
    eapply lookup_lt_Some; eassumption.
  - intros p Hp. apply list_elem_of_lookup in Hp as [n Hn].
    destruct (Forall2_lookup_r _ _ _ _ _ Hsel Hn) as (i & _ & Hi).
    eapply list_elem_of_lookup_2; eassumption.
  - intros Hids. eapply NoDup_selection; eassumption.
Qed.

Lemma top_indices_length (k : Z) (s : Matrix) (t : list (list nat)) (top : list nat) :
  topk_indices k s = Ok t → squeeze0_tolist t = Ok top → (length top ≤ Z.to_nat k)%nat.
Proof.
  unfold topk_indices. intros Ht Hsq.
  destruct t as [|r [|r' t']]; simpl in Hsq; [| | discriminate]; injection Hsq as <-.
  - simpl; lia.
  - apply for_each_Forall2 in Ht.
    inversion Ht as [|row ? s' ? Hrow _]; subst.
    apply bind_Ok in Hrow as (tk & Htk & Hrow). injection Hrow as <-.
    destruct (topk_indices_perm _ _ _ Htk) as (n & Heq & _).
    unfold topk in Htk. destruct (_ || _); [discriminate |]. injection Htk as <-.
    rewrite length_map, length_take. lia.
Qed.

Lemma ZeroShotClusterKNN_rank_clustered_length (self : ZeroShotClusterKNN.t)
    (claim_repr premise_repr : list Representation) (premise_ids : list string) (k : Z)
    (assignment : list Z) (centers : list Representation) (result : list string) :
  ZeroShotClusterKNN.rank_clustered self claim_repr premise_repr premise_ids k
    assignment centers = Ok result →
  (length result ≤ Z.to_nat k)%nat.
Proof.
  unfold ZeroShotClusterKNN.rank_clustered. intros Hrank.
  apply bind_Ok in Hrank as (ids & _ & Hrank).
  apply bind_Ok in Hrank as (reps & _ & Hrank).
  apply bind_Ok in Hrank as (selected & _ & Hrank).
  apply bind_Ok in Hrank as (s & _ & Hrank).
  apply bind_Ok in Hrank as (t & Ht & Hrank).
  apply bind_Ok in Hrank as (top & Htop & Hrank).
  apply bind_Ok in Hrank as (top_ids & Htop_ids & Hrank).
  apply for_each_length in Htop_ids, Hrank.
  pose proof (top_indices_length _ _ _ _ Ht Htop). lia.
Qed.

Lemma LearnedSimilarityKNN_rank_perm (self : LearnedSimilarityKNN.t) (claim_id : Z)
    (premise_ids : list string) (k : Z) (result : list string) :
  LearnedSimilarityKNN.rank self claim_id premise_ids k = Ok result →
  ∃ sorted, sorted ≡ₚ premise_ids ∧ result = slice_to k sorted.
Proof.
  unfold LearnedSimilarityKNN.rank. intros Hrank.
  apply bind_Ok in Hrank as (keys & Hkeys & Hrank). injection Hrank as <-.
  eexists; split; [| reflexivity].
  change (map fst ?l) with (fst <$> l). rewrite sorted_desc_perm.
  apply for_each_length in Hkeys. rewrite fst_zip by lia. reflexivity.
Qed.

(** X11: whenever [rank] returns for a [k > 0], what it returns meets the
    structural part of the contract: at most [min(k, n)] premise IDs, all
    of them candidates, without duplicates if the candidates have none. *)
Lemma rank_returns_distinct_candidates `{Clusterer} (method : RankingMethod) (g : rng)
    (claim_id : Z) (premise_ids : list string) (k : Z) (result : list string) :
  0 < k →
  rank method g claim_id premise_ids k = Ok result →
  (length result ≤ Nat.min (Z.to_nat k) (length premise_ids))%nat
  ∧ result ⊆ premise_ids
  ∧ (NoDup premise_ids → NoDup result).
Proof.
  intros Hk Hrank. destruct method as [self | self | self | self]; simpl in Hrank.
  - unfold ZeroShotKNN.rank in Hrank.
    apply bind_Ok in Hrank as (claim_repr & _ & Hrank).
    apply bind_Ok in Hrank as (premise_repr & _ & Hrank).
    apply bind_Ok in Hrank as (s & _ & Hrank).
    apply bind_Ok in Hrank as (t & Ht & Hrank).
    apply bind_Ok in Hrank as (top & Htop & Hrank).
    apply for_each_Forall2 in Hrank.
    apply (selection_contract premise_ids top).
    + eapply top_indices_NoDup; eassumption.
    + eapply Forall2_impl; [exact Hrank |]. intros i p. apply index_Ok.
    + eapply top_indices_length; eassumption.
  - unfold ZeroShotClusterKNN.rank in Hrank.
    apply bind_Ok in Hrank as (claim_repr & _ & Hrank).
    apply bind_Ok in Hrank as (premise_repr & _ & Hrank).
    apply bind_Ok in Hrank as ([assignment centers] & _ & Hrank).
    destruct (ZeroShotClusterKNN_rank_clustered_labels _ _ _ _ _ _ _ _ Hrank)
      as (positions & labels & Hres & Hlab & Hnd).
    apply (selection_contract premise_ids positions); [| assumption |].
    + eapply NoDup_labelled; eassumption.
    + rewrite (Forall2_length _ _ _ Hres).
      eapply ZeroShotClusterKNN_rank_clustered_length; eassumption.
  - destruct (LearnedSimilarityKNN_rank_perm _ _ _ _ _ Hrank) as (sorted & Hperm & ->).
    destruct (slice_to_take k sorted) as [n Hn].
    repeat split.
    + apply Nat.min_glb; [apply slice_to_length; lia |].
      rewrite Hn, length_take, <- (Permutation_length Hperm). lia.
    + rewrite Hn. intros p Hp. rewrite <- Hperm.
      eapply sublist_subseteq; [apply sublist_take | eassumption].
    + intros Hids. rewrite Hn. eapply sublist_NoDup; [| apply sublist_take].
      now rewrite Hperm.
  - unfold LearnedSimilarityClusterKNN.rank in Hrank.
    apply bind_Ok in Hrank as (premise_repr & _ & Hrank).
    apply bind_Ok in Hrank as ([assignment centers] & _ & Hrank).
    apply bind_Ok in Hrank as (keys & _ & Hrank).
    apply bind_Ok in Hrank as ([seen res] & Hloop & Hrank).
    injection Hrank as <-.
    destruct (LearnedSimilarityClusterKNN_select_labels _ _ _ _ _ k Hloop)
      as (positions & labels & Hres & Hlab & Hnd).
    apply (selection_contract premise_ids positions); [| assumption |].
    + eapply NoDup_labelled; eassumption.
    + rewrite (Forall2_length _ _ _ Hres). apply slice_to_length. lia.
Qed.

Lemma rank_returns_distinct_candidates_witness :
  (length ["b"; "c"] ≤ Nat.min (Z.to_nat 2) (length ["a"; "b"; "c"; "d"]))%nat
  ∧ ["b"; "c"] ⊆ ["a"; "b"; "c"; "d"]
  ∧ (NoDup ["a"; "b"; "c"; "d"] → NoDup ["b"; "c"]).
Proof.
  apply (rank_returns_distinct_candidates (H := dealing_clusterer)
           (LearnedSimilarityClusterKNN example_LearnedSimilarityClusterKNN) 1 1
           ["a"; "b"; "c"; "d"] 2 ["b"; "c"]).
  - lia.
  - vm_compute. reflexivity.
Defined.

(** ** Order of the returned premises *)

Lemma Forall2_fst_snd {A B : Type} (P : A → B → Prop) (l : list (A * B)) :
  Forall (λ x, P (fst x) (snd x)) l → Forall2 P (map fst l) (map snd l).
Proof. induction 1; simpl; constructor; assumption. Qed.

Lemma Forall_zip {A B : Type} (P : A → B → Prop) (l : list A) (k : list B) :
  Forall2 P l k → Forall (λ x, P (fst x) (snd x)) (zip l k).
Proof. induction 1; simpl; constructor; assumption. Qed.

(** The first [n] of a list sorted by decreasing score: the scores come in
    decreasing order, each next to the element it belongs to. *)
Lemma sorted_prefix_scores {A : Type} (P : A → Q → Prop) (l : list (A * Q)) (n : nat) :
  Forall (λ x, P (fst x) (snd x)) l →
  ∃ scores,
    Forall2 P (take n (map fst (sorted_desc snd l))) scores
    ∧ StronglySorted (λ a b, (b <= a)%Q) scores.
Proof.
  intros Hl. exists (map snd (take n (sorted_desc snd l))). split.
  - change (map fst ?x) with (fst <$> x). rewrite <- fmap_take.
    apply Forall2_fst_snd, Forall_take. now rewrite sorted_desc_perm.
  - change (map snd ?x) with (snd <$> x).
    apply (StronglySorted_fmap _ (λ a b : A * Q, (snd b <= snd a)%Q)); [auto |].
    eapply StronglySorted_sublist; [apply sublist_take | apply sorted_desc_sorted].
Qed.

Lemma enumerate_lookup {A : Type} (l : list A) :
  Forall (λ x, l !! fst x = Some (snd x)) (enumerate l).
Proof.
  apply Forall_lookup. intros i [j x] Hi. unfold enumerate in Hi.
  apply lookup_zip_with_Some in Hi as (j' & x' & Heq & Hj & Hx).
  injection Heq as <- <-. apply lookup_seq in Hj as [-> _]. exact Hx.
Qed.

(** The indices that top-k returns come with decreasing similarities. *)
Lemma top_indices_sorted (k : Z) (s : Matrix) (t : list (list nat)) (top : list nat) :
  topk_indices k s = Ok t → squeeze0_tolist t = Ok top →
  ∃ scores, Forall2 (λ i v, entry s 0 i = Some v) top scores
            ∧ StronglySorted (λ a b, (b <= a)%Q) scores.
Proof.
  unfold topk_indices. intros Ht Hsq.
  destruct t as [|r [|r' t']]; simpl in Hsq; [| | discriminate]; injection Hsq as <-.
  - exists []. split; constructor.
  - apply for_each_Forall2 in Ht.
    inversion Ht as [|row ? s' ? Hrow Hrest]; subst. inversion Hrest; subst.
    apply bind_Ok in Hrow as (tk & Htk & Hrow). injection Hrow as <-.
    unfold topk in Htk. destruct (_ || _); [discriminate |]. injection Htk as <-.
    change (map fst ?x) with (fst <$> x). rewrite fmap_take.
    apply (sorted_prefix_scores (λ i v, entry [row] 0 i = Some v)).
    apply enumerate_lookup.
Qed.

(** X12: [ZeroShotKNN.rank] returns the premises at the top-k positions of
    the row of similarities to the claim, by decreasing similarity. *)
Lemma ZeroShotKNN_rank_sorted (self : ZeroShotKNN.t) (claim_id : Z)
    (premise_ids : list string) (k : Z) (result : list string) :
  ZeroShotKNN.rank self claim_id premise_ids k = Ok result →
  ∃ claim_repr premise_repr s positions scores,
    claim_representation (ZeroShotKNN.claims self) claim_id = Ok claim_repr ∧
    premise_representations (ZeroShotKNN.premises self) premise_ids = Ok premise_repr ∧
    sim (ZeroShotKNN.similarity self) claim_repr premise_repr = Ok s ∧
    Forall2 (λ i p, premise_ids !! i = Some p) positions result ∧
    Forall2 (λ i v, entry s 0 i = Some v) positions scores ∧
    StronglySorted (λ a b, (b <= a)%Q) scores.
Proof.
  unfold ZeroShotKNN.rank. intros Hrank.
  apply bind_Ok in Hrank as (claim_repr & Hc & Hrank).
  apply bind_Ok in Hrank as (premise_repr & Hp & Hrank).
  apply bind_Ok in Hrank as (s & Hs & Hrank).
  apply bind_Ok in Hrank as (t & Ht & Hrank).
  apply bind_Ok in Hrank as (top & Htop & Hrank).
  apply for_each_Forall2 in Hrank.
  destruct (top_indices_sorted _ _ _ _ Ht Htop) as (scores & Hscores & Hsorted).
  exists claim_repr, premise_repr, s, top, scores. repeat split; try assumption.
  eapply Forall2_impl; [exact Hrank |]. intros i p. apply index_Ok.
Qed.

Lemma ZeroShotKNN_rank_sorted_witness :
  ∃ claim_repr premise_repr s positions scores,
    claim_representation example_claims 1 = Ok claim_repr ∧
    premise_representations example_premises ["a"; "b"; "c"] = Ok premise_repr ∧
    sim (LpSimilarity 1) claim_repr premise_repr = Ok s ∧
    Forall2 (λ i p, ["a"; "b"; "c"] !! i = Some p) positions ["b"; "a"] ∧
    Forall2 (λ i v, entry s 0 i = Some v) positions scores ∧
    StronglySorted (λ a b, (b <= a)%Q) scores.
Proof.
  apply (ZeroShotKNN_rank_sorted example_ZeroShotKNN 1 ["a"; "b"; "c"] 2 ["b"; "a"]).
  vm_compute. reflexivity.
Defined.

(** X17: [LearnedSimilarityKNN.rank] returns premises by decreasing
    precomputed similarity. *)
Lemma LearnedSimilarityKNN_rank_sorted (self : LearnedSimilarityKNN.t) (claim_id : Z)
    (premise_ids : list string) (k : Z) (result : list string) :
  LearnedSimilarityKNN.rank self claim_id premise_ids k = Ok result →
  ∃ scores,
    Forall2 (λ p v, LearnedSimilarityKNN.precomputed_similarities self !! p = Some v)
            result scores
    ∧ StronglySorted (λ a b, (b <= a)%Q) scores.
Proof.
  unfold LearnedSimilarityKNN.rank. intros Hrank.
  apply bind_Ok in Hrank as (keys & Hkeys & Hrank). injection Hrank as <-.
  destruct (slice_to_take k (map fst (sorted_desc snd (zip premise_ids keys)))) as [n ->].
  apply sorted_prefix_scores.
  apply (Forall_zip (λ p v, LearnedSimilarityKNN.precomputed_similarities self !! p = Some v)).
  apply for_each_Forall2 in Hkeys. eapply Forall2_impl; [exact Hkeys |].
  intros p v Hv. unfold LearnedSimilarityKNN.lookup_similarity, getitem in Hv.
  destruct (_ !! p); [congruence | discriminate].
Qed.

Lemma LearnedSimilarityKNN_rank_sorted_witness :
  ∃ scores,
    Forall2 (λ p v, example_similarities !! p = Some v) ["b"; "c"] scores
    ∧ StronglySorted (λ a b, (b <= a)%Q) scores.
Proof.
  apply (LearnedSimilarityKNN_rank_sorted example_LearnedSimilarityKNN 1
           ["a"; "b"; "c"] 2 ["b"; "c"]).
  vm_compute. reflexivity.
Defined.

(** ** Where [ZeroShotKNN.rank] returns *)

Lemma for_each_index_Ok {A : Type} (l : list A) (pos : list nat) :
  Forall (λ i, (i < length l)%nat) pos → ∃ xs, for_each (index l) pos = Ok xs.
Proof.
  induction 1 as [|i pos Hi _ [xs IH]]; [exists []; reflexivity |].
  apply lookup_lt_is_Some in Hi as [x Hx].
  exists (x :: xs). cbn [for_each]. rewrite IH. unfold index. rewrite Hx. reflexivity.
Qed.

(** X13: with [0 ≤ k ≤ n], the claim and the candidates in the stores and
    a similarity that returns its matrix, [ZeroShotKNN.rank] returns
    exactly [k] premise IDs. *)
Lemma ZeroShotKNN_rank_within_candidates (self : ZeroShotKNN.t) (claim_id : Z)
    (premise_ids : list string) (k : Z)
    (claim_repr premise_repr : list Representation) (s : Matrix) :
  claim_representation (ZeroShotKNN.claims self) claim_id = Ok claim_repr →
  premise_representations (ZeroShotKNN.premises self) premise_ids = Ok premise_repr →
  sim (ZeroShotKNN.similarity self) claim_repr premise_repr = Ok s →
  well_shaped (ZeroShotKNN.similarity self) →
  0 ≤ k ≤ Z.of_nat (length premise_ids) →
  ∃ result, ZeroShotKNN.rank self claim_id premise_ids k = Ok result
            ∧ length result = Z.to_nat k.
Proof.
  intros Hc Hp Hs Hshape Hk. unfold ZeroShotKNN.rank.
  rewrite Hc; simpl. rewrite Hp; simpl. rewrite Hs; simpl.
  apply Hshape in Hs. rewrite (claim_representation_length _ _ _ Hc) in Hs.
  destruct (premise_representations_length _ _ _ Hp) as [Hlen _]. rewrite Hlen in Hs.
  destruct Hs as [Hrows Hcols].
  destruct s as [|row [|row' s']]; try discriminate.
  inversion Hcols as [|? ? Hrow _]; subst.
  unfold topk_indices. cbn [for_each].
  assert (Htopk : topk k row = Ok (take (Z.to_nat k) (sorted_desc snd (enumerate row)))).
  { rewrite <- (Z2Nat.id k) at 1 by lia. apply topk_Ok. lia. }
  rewrite Htopk. simpl.
  set (top := map fst (take (Z.to_nat k) (sorted_desc snd (enumerate row)))).
  destruct (for_each_index_Ok premise_ids top) as [result Hresult].
  - apply Forall_forall. intros i Hi. unfold top in Hi.
    change (map fst ?x) with (fst <$> x) in Hi. rewrite fmap_take in Hi.
    apply (sublist_subseteq _ _ (sublist_take _ _)) in Hi.
    change (fst <$> ?x) with (map fst x) in Hi.
    assert (Hperm : map fst (sorted_desc snd (enumerate row)) ≡ₚ seq 0 (length row)).
    { rewrite <- enumerate_fst. change (map fst ?l) with (fst <$> l).
      apply fmap_Permutation, sorted_desc_perm. }
    rewrite Hperm in Hi. apply elem_of_seq in Hi. lia.
  - exists result. split; [exact Hresult |].
    apply for_each_length in Hresult. rewrite Hresult. unfold top.
    rewrite length_map, length_take, sorted_desc_length.
    unfold enumerate. rewrite length_zip_with, length_seq. lia.
Qed.

Lemma ZeroShotKNN_rank_within_candidates_witness :
  ∃ result, ZeroShotKNN.rank example_ZeroShotKNN 1 ["a"; "b"; "c"] 2 = Ok result
            ∧ length result = Z.to_nat 2.
Proof.
  apply (ZeroShotKNN_rank_within_candidates example_ZeroShotKNN 1 ["a"; "b"; "c"] 2
           [[0; 0]%Q] [[1; 0]; [0; 1 # 2]; [3; 3]]%Q [[1 # 2; 2 # 3; 1 # 7]%Q]).
  - reflexivity.
  - vm_compute. reflexivity.
  - reflexivity.
  - apply manhattan_well_shaped.
  - simpl. lia.
Defined.

(** ** Order of the premises returned by the clustering methods *)

Lemma sublist_fmap_inv {A B : Type} (f : A → B) (l1 : list B) (l2 : list A) :
  l1 `sublist_of` (f <$> l2) → ∃ l1', l1' `sublist_of` l2 ∧ l1 = f <$> l1'.
Proof.
  revert l1. induction l2 as [|x l2 IH]; intros l1 Hsub.
  - apply sublist_nil_r in Hsub as ->. exists []. split; constructor.
  - rewrite fmap_cons in Hsub. apply sublist_cons_r in Hsub as [Hsub | (l1' & -> & Hsub)].
    + destruct (IH _ Hsub) as (l' & Hl' & ->). exists l'. split; [now constructor | reflexivity].
    + destruct (IH _ Hsub) as (l' & Hl' & ->). exists (x :: l').
      split; [now constructor | reflexivity].
Qed.

(** X21: [LearnedSimilarityClusterKNN.rank] returns premises by decreasing
    precomputed similarity. *)
Lemma LearnedSimilarityClusterKNN_rank_sorted `{Clusterer}
    (self : LearnedSimilarityClusterKNN.t) (g : rng) (claim_id : Z)
    (premise_ids : list string) (k : Z) (result : list string) :
  LearnedSimilarityClusterKNN.rank self g claim_id premise_ids k = Ok result →
  ∃ scores,
    Forall2 (λ p v, LearnedSimilarityClusterKNN.precomputed_similarities self !! p = Some v)
            result scores
    ∧ StronglySorted (λ a b, (b <= a)%Q) scores.
Proof.
  unfold LearnedSimilarityClusterKNN.rank. intros Hrank.
  apply bind_Ok in Hrank as (premise_repr & _ & Hrank).
  apply bind_Ok in Hrank as ([assignment centers] & _ & Hrank).
  apply bind_Ok in Hrank as (keys & Hkeys & Hrank).
  apply bind_Ok in Hrank as ([seen res] & Hloop & Hrank).
  injection Hrank as <-.
  set (stores := LearnedSimilarityClusterKNN.precomputed_similarities self) in *.
  set (pairs := sorted_desc snd (zip (seq 0 (length premise_ids)) keys)) in *.
  assert (Hpairs : Forall (λ x, ∃ p, premise_ids !! fst x = Some p ∧ stores !! p = Some (snd x))
                          pairs).
  { unfold pairs. rewrite sorted_desc_perm.
    apply (Forall_zip (λ i v, ∃ p, premise_ids !! i = Some p ∧ stores !! p = Some v)).
    apply for_each_Forall2 in Hkeys. eapply Forall2_impl; [exact Hkeys |].
    intros i v Hv. apply bind_Ok in Hv as (p & Hp & Hv). apply index_Ok in Hp.
    exists p. split; [assumption |]. unfold getitem in Hv.
    destruct (stores !! p); [congruence | discriminate]. }
  destruct (select_loop _ _ _ _ _ _ _ [] [] Hloop) as (sel & labels & Hsub & Hres & _);
    [constructor | constructor | constructor | intros c Hc; inversion Hc |].
  simpl in Hres. change (map fst pairs) with (fst <$> pairs) in Hsub.
  apply sublist_fmap_inv in Hsub as (chosen & Hchosen & ->).
  destruct (slice_to_take k res) as [n ->].
  exists (take n (snd <$> chosen)). split.
  - apply Forall2_take.
    assert (Hc : Forall (λ x, ∃ p, premise_ids !! fst x = Some p ∧ stores !! p = Some (snd x))
                        chosen).
    { rewrite Forall_forall in *. intros x Hx. apply Hpairs.
      eapply sublist_subseteq; eassumption. }
    clear Hchosen Hpairs Hloop. revert res Hres.
    induction Hc as [|[i v] chosen (p & Hp & Hv) _ IH]; intros res Hres;
      inversion Hres as [|? p' ? res' Hp' Hres']; subst; [constructor |].
    simpl in *. constructor; [congruence | now apply IH].
  - eapply StronglySorted_sublist; [apply sublist_take |].
    apply (StronglySorted_fmap _ (λ a b : nat * Q, (snd b <= snd a)%Q)); [auto |].
    eapply StronglySorted_sublist; [exact Hchosen | apply sorted_desc_sorted].
Qed.

Lemma LearnedSimilarityClusterKNN_rank_sorted_witness :
  ∃ scores,
    Forall2 (λ p v, example_similarities !! p = Some v) ["b"; "c"] scores
    ∧ StronglySorted (λ a b, (b <= a)%Q) scores.
Proof.
  apply (LearnedSimilarityClusterKNN_rank_sorted (H := dealing_clusterer)
           example_LearnedSimilarityClusterKNN 1 1 ["a"; "b"; "c"; "d"] 2 ["b"; "c"]).
  vm_compute. reflexivity.
Defined.

(** ** CSLS keeps the shape *)

Lemma topk_Ok_inv (k : Z) (row : list Q) (t : list (nat * Q)) :
  topk k row = Ok t → 0 ≤ k ≤ Z.of_nat (length row).
Proof.
  unfold topk.
  destruct (Z.ltb_spec k 0); [discriminate |].
  destruct (Z.ltb_spec (Z.of_nat (length row)) k); [discriminate |]. lia.
Qed.

Lemma mean_top_sim_Ok_inv (s : Matrix) (k : Z) (dim : nat) (m : Matrix) (sl : list Q) :
  _mean_top_sim s k dim = Ok m → sl ∈ slices dim s → 0 ≤ k ≤ Z.of_nat (length sl).
Proof.
  unfold _mean_top_sim. intros Hm Hin.
  apply bind_Ok in Hm as (top & Htop & _).
  apply for_each_Forall2 in Htop.
  apply list_elem_of_lookup in Hin as [i Hi].
  destruct (Forall2_lookup_l _ _ _ _ _ Htop Hi) as (v & _ & Hv).
  apply bind_Ok in Hv as (t & Ht & _). eapply topk_Ok_inv; eassumption.
Qed.

(** X7: CSLS keeps the shape: where the base similarity returns one row
    per claim and one column per premise, so does [CSLSSimilarity.sim]. *)
Lemma CSLSSimilarity_well_shaped (base : Similarity) (k : nat) :
  well_shaped base → well_shaped (CSLSSimilarity base k).
Proof.
  intros Hbase claims premises M HM.
  pose proof HM as HM'. simpl in HM'.
  apply bind_Ok in HM' as (s & Hs & HM').
  apply bind_Ok in HM' as (m0 & Hm0 & HM').
  apply bind_Ok in HM' as (m1 & Hm1 & HM').
  pose proof (Hbase _ _ _ Hs) as Hshape.
  set (r := length claims) in *. set (c := length premises) in *.
  assert (Hcases : s = [] ∨ ∃ row, row ∈ s).
  { destruct s; [now left | right; eexists; apply list_elem_of_here]. }
  destruct Hcases as [-> | [row Hin]].
  - destruct Hshape as [Hr _]. simpl in Hr. rewrite <- Hr.
    simpl in Hm0, Hm1. injection Hm0 as <-. injection Hm1 as <-.
    apply bind_Ok in HM' as (d & Hd & HM').
    vm_compute in Hd. injection Hd as <-. vm_compute in HM'. injection HM' as <-.
    split; [reflexivity | constructor].
  - assert (Hrow : length row = c).
    { destruct Hshape as [_ Hrows]. rewrite Forall_forall in Hrows. now apply Hrows. }
    assert (Hr : (0 < r)%nat).
    { destruct Hshape as [Hlen _]. destruct s; [inversion Hin | simpl in Hlen; lia]. }
    assert (Hkc : (k ≤ c)%nat).
    { pose proof (mean_top_sim_Ok_inv _ _ 1 _ row Hm1 Hin) as Hk. lia. }
    assert (Hkr : (k ≤ r)%nat).
    { destruct c as [|c'] eqn:Ec; [lia |].
      pose proof (mean_top_sim_Ok_inv _ _ 0 _ (column 0 s) Hm0) as Hk.
      rewrite (column_length _ r (S c')) in Hk by (assumption || lia).
      assert (Hcol : column 0 s ∈ slices 0 s).
      { simpl slices. rewrite (ncols_shape s r (S c')) by assumption.
        apply list_elem_of_In, in_map_iff. exists 0%nat. split; [reflexivity |].
        apply in_seq. lia. }
      specialize (Hk Hcol). lia. }
    assert (HMeq : Ok M = Ok (map (λ row,
          map (λ y, (y - mean (top_k k row))%Q)
              (zip_with Qminus (map (Qmult 2) row)
                 (map (λ j, mean (top_k k (column j s))) (seq 0 (ncols s))))) s)).
    { rewrite <- HM. eapply CSLS_closed_form; eassumption. }
    assert (HM2 : M = map (λ row,
          map (λ y, (y - mean (top_k k row))%Q)
              (zip_with Qminus (map (Qmult 2) row)
                 (map (λ j, mean (top_k k (column j s))) (seq 0 (ncols s))))) s)
      by congruence.
    rewrite HM2. split.
    + rewrite length_map. apply Hshape.
    + pose proof Hshape as [_ Hrows].
      apply Forall_forall. intros row' Hin'.
      apply list_elem_of_In, in_map_iff in Hin' as (row0 & <- & Hin').
      rewrite Forall_forall in Hrows. apply list_elem_of_In in Hin'.
      specialize (Hrows _ Hin'). simpl in Hrows.
      rewrite length_map, length_zip_with, !length_map, length_seq.
      rewrite (ncols_shape s r c) by assumption. lia.
Qed.

Lemma CSLSSimilarity_well_shaped_witness :
  well_shaped (CSLSSimilarity (LpSimilarity 1) 1).
Proof.
  apply (CSLSSimilarity_well_shaped (LpSimilarity 1) 1).
  apply manhattan_well_shaped.
Defined.

(** ** Examples *)

(** Similarities 0.1, 0.9 and 0.5 for the candidates a, b and c: the best
    two are b and c. *)
Example LearnedSimilarityKNN_rank_example :
  LearnedSimilarityKNN.rank example_LearnedSimilarityKNN 1 ["a"; "b"; "c"] 2 = Ok ["b"; "c"].
Proof. vm_compute. reflexivity. Qed.

(** More results requested than candidates: the slice returns them all. *)
Example LearnedSimilarityKNN_rank_all :
  LearnedSimilarityKNN.rank example_LearnedSimilarityKNN 1 ["a"; "b"; "c"] 7
  = Ok ["b"; "c"; "a"].
Proof. vm_compute. reflexivity. Qed.

(** X20: a candidate without precomputed similarity makes
    [LearnedSimilarityKNN.rank], which has no representation store, raise
    the [KeyError] of such a candidate. *)
Lemma LearnedSimilarityKNN_missing_similarity (self : LearnedSimilarityKNN.t)
    (claim_id : Z) (premise_ids : list string) (k : Z) (p : string) :
  p ∈ premise_ids →
  LearnedSimilarityKNN.precomputed_similarities self !! p = None →
  ∃ q, q ∈ premise_ids ∧ LearnedSimilarityKNN.precomputed_similarities self !! q = None ∧
       LearnedSimilarityKNN.rank self claim_id premise_ids k = Raise (KeyError (PremiseKey q)).
Proof.
  intros Hin Hp. unfold LearnedSimilarityKNN.rank.
  destruct (for_each_Raise (LearnedSimilarityKNN.lookup_similarity self)
              (λ q, LearnedSimilarityKNN.precomputed_similarities self !! q = None) premise_ids)
    as (q & e & Hq & He & Hr).
  - intros q Hq; eexists; now apply getitem_None.
  - apply Exists_exists; eauto.
  - apply getitem_Raise in He as [-> Hnone].
    exists q; repeat split; [assumption.. |]. now rewrite Hr.
Qed.

Lemma LearnedSimilarityKNN_missing_similarity_witness :
  ∃ q, q ∈ ["a"; "z"] ∧ example_similarities !! q = None ∧
       LearnedSimilarityKNN.rank example_LearnedSimilarityKNN 1 ["a"; "z"] 1
       = Raise (KeyError (PremiseKey q)).
Proof.
  apply (LearnedSimilarityKNN_missing_similarity example_LearnedSimilarityKNN 1
           ["a"; "z"] 1 "z").
  - apply list_elem_of_further, list_elem_of_here.
  - vm_compute. reflexivity.
Defined.

(** No candidates at all: [ZeroShotClusterKNN.rank] raises, it does not
    return the empty ranking. *)
Example ZeroShotClusterKNN_rank_empty_pool :
  rank (H := dealing_clusterer)
       (ZeroShotClusterKNN (example_ZeroShotClusterKNN "closest-to-center")) 1 1 [] 1
  = Raise RuntimeError.
Proof. vm_compute. reflexivity. Qed.

(** * Further properties *)

(** ** [name_normalizer] *)

Lemma lower_ascii_idempotent (c : Ascii.ascii) : lower_ascii (lower_ascii c) = lower_ascii c.
Proof. destruct c as [[] [] [] [] [] [] [] []]; reflexivity. Qed.

Lemma lower_ascii_underscore (c : Ascii.ascii) :
  Ascii.eqb (lower_ascii c) (Ascii.ascii_of_nat 95) = Ascii.eqb c (Ascii.ascii_of_nat 95).
Proof. destruct c as [[] [] [] [] [] [] [] []]; reflexivity. Qed.

Lemma lower_idempotent (s : string) : lower (lower s) = lower s.
Proof. induction s as [|c s IH]; simpl; [reflexivity |]. now rewrite lower_ascii_idempotent, IH. Qed.

Lemma lower_app (s t : string) : lower (s +:+ t) = lower s +:+ lower t.
Proof. induction s as [|c s IH]; simpl; [reflexivity |]. now rewrite IH. Qed.

Lemma remove_underscores_app (s t : string) :
  remove_underscores (s +:+ t) = remove_underscores s +:+ remove_underscores t.
Proof.
  induction s as [|c s IH]; simpl; [reflexivity |].
  destruct (Ascii.eqb c _); simpl; now rewrite IH.
Qed.

Lemma lower_remove_underscores (s : string) :
  lower (remove_underscores s) = remove_underscores (lower s).
Proof.
  induction s as [|c s IH]; simpl; [reflexivity |].
  rewrite lower_ascii_underscore. destruct (Ascii.eqb c _); simpl; now rewrite IH.
Qed.

Lemma remove_underscores_idempotent (s : string) :
  remove_underscores (remove_underscores s) = remove_underscores s.
Proof.
  induction s as [|c s IH]; simpl; [reflexivity |].
  destruct (Ascii.eqb c _) eqn:Hc; simpl; [exact IH |]. now rewrite Hc, IH.
Qed.

(** X1: [name_normalizer] is idempotent, and it does not see the case of
    the letters nor the underscores of a name: lowering a name or putting
    an underscore anywhere into it leaves the normal form unchanged, and
    the normal form of a concatenation is the concatenation of the normal
    forms. *)
Theorem name_normalizer_normal_form (s t : string) :
  name_normalizer (name_normalizer s) = name_normalizer s
  ∧ name_normalizer (lower s) = name_normalizer s
  ∧ name_normalizer (s +:+ "_" +:+ t) = name_normalizer (s +:+ t)
  ∧ name_normalizer (s +:+ t) = name_normalizer s +:+ name_normalizer t.
Proof.
  unfold name_normalizer. repeat split.
  - now rewrite lower_remove_underscores, lower_idempotent, remove_underscores_idempotent.
  - now rewrite lower_idempotent.
  - rewrite !lower_app, !remove_underscores_app. reflexivity.
  - now rewrite lower_app, remove_underscores_app.
Qed.

(** X2: a normalised name holds neither an underscore nor an upper-case
    ASCII letter. *)
Theorem name_normalizer_alphabet (s : string) (c : Ascii.ascii) :
  c ∈ String.list_ascii_of_string (name_normalizer s) →
  c ≠ Ascii.ascii_of_nat 95 ∧ lower_ascii c = c.
Proof.
  unfold name_normalizer. induction s as [|d s IH]; simpl; [intros H; inversion H |].
  rewrite lower_ascii_underscore.
  destruct (Ascii.eqb d _) eqn:Hd; [exact IH |].
  simpl. intros Hin. apply elem_of_cons in Hin as [-> | Hin]; [| now apply IH].
  split; [| apply lower_ascii_idempotent].
  intros Heq. rewrite <- lower_ascii_underscore in Hd. rewrite Heq in Hd. discriminate.
Qed.

Lemma name_normalizer_alphabet_witness :
  Ascii.ascii_of_nat 122 ≠ Ascii.ascii_of_nat 95
  ∧ lower_ascii (Ascii.ascii_of_nat 122) = Ascii.ascii_of_nat 122.
Proof.
  apply (name_normalizer_alphabet "Zero_Shot" (Ascii.ascii_of_nat 122)).
  vm_compute. apply list_elem_of_here.
Defined.

(** ** [get_most_similar] *)

(** What top-k returns for one row: [k] distinct positions of the row with
    their values, in decreasing order, and no value left out is larger
    than a value taken. *)
Lemma topk_row_contract (k : Z) (row : list Q) (tk : list (nat * Q)) :
  topk k row = Ok tk →
  0 ≤ k ≤ Z.of_nat (length row)
  ∧ length tk = Z.to_nat k
  ∧ NoDup (map fst tk)
  ∧ Forall (λ x, row !! fst x = Some (snd x)) tk
  ∧ StronglySorted (λ a b, (b <= a)%Q) (map snd tk)
  ∧ (∀ x j v, x ∈ tk → j ∉ map fst tk → row !! j = Some v → (v <= snd x)%Q).
Proof.
  intros Htk. pose proof (topk_Ok_inv _ _ _ Htk) as Hk.
  unfold topk in Htk. destruct (_ || _); [discriminate |]. injection Htk as <-.
  set (sorted := sorted_desc snd (enumerate row)).
  assert (Hlen : length sorted = length row).
  { unfold sorted. rewrite sorted_desc_length. unfold enumerate.
    rewrite length_zip_with, length_seq. lia. }
  assert (Hall : Forall (λ x, row !! fst x = Some (snd x)) sorted).
  { unfold sorted. rewrite sorted_desc_perm. apply enumerate_lookup. }
  assert (Hperm : map fst sorted ≡ₚ seq 0 (length row)).
  { unfold sorted. rewrite <- enumerate_fst. change (map fst ?l) with (fst <$> l).
    apply fmap_Permutation, sorted_desc_perm. }
  assert (Hsorted : StronglySorted (λ a b : nat * Q, (snd b <= snd a)%Q) sorted)
    by apply sorted_desc_sorted.
  repeat split; try lia.
  - rewrite length_take. lia.
  - change (map fst ?l) with (fst <$> l). rewrite fmap_take.
    eapply sublist_NoDup; [| apply sublist_take].
    change (fst <$> sorted) with (map fst sorted). rewrite Hperm. apply NoDup_seq.
  - now apply Forall_take.
  - change (map snd ?l) with (snd <$> l).
    apply (StronglySorted_fmap _ (λ a b : nat * Q, (snd b <= snd a)%Q)); [auto |].
    eapply StronglySorted_sublist; [apply sublist_take | exact Hsorted].
  - intros x j v Hx Hj Hv.
    assert (Hjin : j ∈ map fst sorted).
    { rewrite Hperm. apply elem_of_seq. apply lookup_lt_Some in Hv. lia. }
    rewrite <- (take_drop (Z.to_nat k) sorted) in Hjin, Hsorted.
    change (map fst ?l) with (fst <$> l) in Hjin. rewrite fmap_app in Hjin.
    apply elem_of_app in Hjin as [Hjin | Hjin]; [contradiction |].
    apply list_elem_of_fmap in Hjin as ([j' v'] & Hj' & Hin). simpl in Hj'. subst j'.
    pose proof (StronglySorted_app_1_elem_of _ _ _ _ _ Hsorted Hx Hin) as Hle.
    simpl in Hle.
    assert (Hv' : row !! j = Some v').
    { rewrite Forall_forall in Hall.
      apply (Hall (j, v')). eapply sublist_subseteq; [apply sublist_drop | exact Hin]. }
    assert (v = v') by congruence. now subst v'.
Qed.

(** X3: where [get_most_similar] returns, it returns for every claim [k]
    distinct indices of premises, the premises at these indices next to
    them, taken by decreasing similarity, and no premise left out is more
    similar to the claim than one that is returned. *)
Theorem get_most_similar_contract (claims premises : list Representation) (k : Z)
    (similarity : Similarity) (selected : list (list Representation))
    (indices : list (list nat)) :
  get_most_similar claims premises k similarity = Ok (selected, indices) →
  ∃ s, sim similarity claims premises = Ok s ∧
       Forall2 (Forall2 (λ i p, premises !! i = Some p)) indices selected ∧
       Forall2 (λ row idx,
                  length idx = Z.to_nat k ∧ NoDup idx ∧
                  (∃ scores, Forall2 (λ i v, row !! i = Some v) idx scores ∧
                             StronglySorted (λ a b, (b <= a)%Q) scores) ∧
                  (∀ i j vi vj, i ∈ idx → j ∉ idx → row !! i = Some vi →
                                row !! j = Some vj → (vj <= vi)%Q))
               s indices.
Proof.
  unfold get_most_similar. intros H.
  apply bind_Ok in H as (s & Hs & H).
  apply bind_Ok in H as (indices' & Hidx & H).
  apply bind_Ok in H as (selected' & Hsel & H).
  injection H as <- <-.
  exists s. split; [assumption |]. split.
  - apply for_each_Forall2 in Hsel. eapply Forall2_impl; [exact Hsel |].
    intros idx sel Hrow. apply for_each_Forall2 in Hrow.
    eapply Forall2_impl; [exact Hrow |]. intros i p. apply index_Ok.
  - unfold topk_indices in Hidx. apply for_each_Forall2 in Hidx.
    eapply Forall2_impl; [exact Hidx |]. intros row idx Hrow.
    apply bind_Ok in Hrow as (tk & Htk & Hrow). injection Hrow as <-.
    destruct (topk_row_contract _ _ _ Htk) as (_ & Hlen & Hnd & Hall & Hsorted & Hbest).
    repeat split.
    + now rewrite length_map.
    + exact Hnd.
    + exists (map snd tk). split; [| exact Hsorted]. now apply Forall2_fst_snd.
    + intros i j vi vj Hi Hj Hvi Hvj.
      apply list_elem_of_fmap in Hi as ([i' v'] & Hi' & Hin). simpl in Hi'. subst i'.
      rewrite Forall_forall in Hall. pose proof (Hall _ Hin) as Hv'. simpl in Hv'.
      assert (vi = v') by congruence. subst v'.
      apply (Hbest (i, vi) j vj Hin Hj Hvj).
Qed.

Lemma get_most_similar_contract_witness :
  ∃ s, sim (LpSimilarity 1) [[0; 0]%Q] [[1; 0]%Q; [0; 1 # 2]%Q; [3; 3]%Q] = Ok s ∧
       Forall2 (Forall2 (λ i p, [[1; 0]%Q; [0; 1 # 2]%Q; [3; 3]%Q] !! i = Some p))
               [[1; 0]%nat] [[[0; 1 # 2]%Q; [1; 0]%Q]] ∧
       Forall2 (λ row idx,
                  length idx = Z.to_nat 2 ∧ NoDup idx ∧
                  (∃ scores, Forall2 (λ i v, row !! i = Some v) idx scores ∧
                             StronglySorted (λ a b, (b <= a)%Q) scores) ∧
                  (∀ i j vi vj, i ∈ idx → j ∉ idx → row !! i = Some vi →
                                row !! j = Some vj → (vj <= vi)%Q))
               s [[1; 0]%nat].
Proof.
  apply (get_most_similar_contract [[0; 0]%Q] [[1; 0]%Q; [0; 1 # 2]%Q; [3; 3]%Q] 2
           (LpSimilarity 1)).
  reflexivity.
Defined.

(** [ZeroShotKNN.rank] is [get_most_similar] on the representations of
    the claim and of the candidates, followed by the translation of the
    indices into premise IDs: both raise or return alike, for a similarity
    that returns matrices of the right shape. *)
Theorem ZeroShotKNN_rank_by_get_most_similar (self : ZeroShotKNN.t) (claim_id : Z)
    (premise_ids : list string) (k : Z) :
  well_shaped (ZeroShotKNN.similarity self) →
  ZeroShotKNN.rank self claim_id premise_ids k
  = (claim_repr ← claim_representation (ZeroShotKNN.claims self) claim_id;
     premise_repr ← premise_representations (ZeroShotKNN.premises self) premise_ids;
     '(_, indices) ← get_most_similar claim_repr premise_repr k (ZeroShotKNN.similarity self);
     top_ids ← squeeze0_tolist indices;
     for_each (index premise_ids) top_ids).
Proof.
  intros Hshape. unfold ZeroShotKNN.rank, get_most_similar.
  destruct (claim_representation _ _) as [claim_repr|] eqn:Hc; simpl; [| reflexivity].
  destruct (premise_representations _ _) as [premise_repr|] eqn:Hp; simpl; [| reflexivity].
  destruct (sim _ claim_repr premise_repr) as [s|] eqn:Hs; simpl; [| reflexivity].
  destruct (topk_indices k s) as [indices|] eqn:Hidx; simpl; [| reflexivity].
  apply Hshape in Hs. destruct Hs as [_ Hcols].
  assert (Hsel : ∃ selected, for_each (for_each (index premise_repr)) indices = Ok selected).
  { unfold topk_indices in Hidx. apply for_each_Forall2 in Hidx.
    clear Hc Hp. induction Hidx as [|row idx s indices Hrow _ IH].
    - exists []. reflexivity.
    - inversion Hcols as [|? ? Hlen Hcols']; subst.
      destruct (IH Hcols') as [selected Hselected].
      apply bind_Ok in Hrow as (tk & Htk & Hrow). injection Hrow as <-.
      destruct (topk_row_contract _ _ _ Htk) as (_ & _ & _ & Hall & _).
      destruct (for_each_index_Ok premise_repr (map fst tk)) as [sel Hsel].
      + apply Forall_forall. intros i Hi.
        apply list_elem_of_fmap in Hi as ([i' v] & -> & Hin).
        rewrite Forall_forall in Hall. specialize (Hall _ Hin). simpl in *.
        apply lookup_lt_Some in Hall. lia.
      + exists (sel :: selected). cbn [for_each]. rewrite Hsel, Hselected. reflexivity. }
  destruct Hsel as [selected ->]. reflexivity.
Qed.

Lemma ZeroShotKNN_rank_by_get_most_similar_witness :
  ZeroShotKNN.rank example_ZeroShotKNN 1 ["a"; "b"; "c"] 2
  = (claim_repr ← claim_representation example_claims 1;
     premise_repr ← premise_representations example_premises ["a"; "b"; "c"];
     '(_, indices) ← get_most_similar claim_repr premise_repr 2 (LpSimilarity 1);
     top_ids ← squeeze0_tolist indices;
     for_each (index ["a"; "b"; "c"]) top_ids).
Proof.
  apply (ZeroShotKNN_rank_by_get_most_similar example_ZeroShotKNN 1 ["a"; "b"; "c"] 2).
  apply manhattan_well_shaped.
Defined.

(** ** [CosineSimilarity] *)

Lemma dot_cons (x y : Q) (a b : list Q) : dot (x :: a) (y :: b) = (x * y + dot a b)%Q.
Proof. reflexivity. Qed.

Lemma dot_comm (a b : list Q) : dot a b = dot b a.
Proof.
  revert b. induction a as [|x a IH]; intros [|y b]; try reflexivity.
  rewrite !dot_cons, IH. f_equal.
  unfold Qmult. now rewrite Z.mul_comm, Pos.mul_comm.
Qed.

Lemma entry_outer (f : list Q → list Q → Q) (a b : list (list Q)) (i j : nat) :
  entry (map (λ x, map (f x) b) a) i j
  = match a !! i, b !! j with
    | Some x, Some y => Some (f x y)
    | _, _ => None
    end.
Proof.
  unfold entry, Matrix. rewrite lookup_map. destruct (a !! i); simpl; [| reflexivity].
  rewrite lookup_map. now destruct (b !! j).
Qed.

Lemma matmul_t_Ok (a b : Matrix) :
  (∀ x y, x ∈ a → y ∈ b → length x = length y) →
  matmul_t a b = Ok (map (λ x, map (dot x) b) a).
Proof.
  intros Hlen. unfold matmul_t.
  destruct (forallb _ a) eqn:Hall; [reflexivity |].
  apply not_true_iff_false in Hall. destruct Hall.
  apply forallb_forall. intros x Hx. apply forallb_forall. intros y Hy.
  apply Nat.eqb_eq, Hlen; now apply list_elem_of_In.
Qed.

Lemma matmul_t_Ok_inv (a b s : Matrix) :
  matmul_t a b = Ok s →
  (∀ x y, x ∈ a → y ∈ b → length x = length y) ∧ s = map (λ x, map (dot x) b) a.
Proof.
  unfold matmul_t. destruct (forallb _ a) eqn:Hall; [| discriminate].
  intros Hs. injection Hs as <-. split; [| reflexivity].
  intros x y Hx Hy. rewrite forallb_forall in Hall.
  apply list_elem_of_In in Hx, Hy. specialize (Hall _ Hx).
  rewrite forallb_forall in Hall. now apply Nat.eqb_eq, Hall.
Qed.

(** X5: the cosine similarity is symmetric: where it returns, it also
    returns with claims and premises exchanged, and that matrix is the
    transposed one. *)
Theorem CosineSimilarity_symmetric `{Normalize} (claims premises : list Representation)
    (s : Matrix) :
  sim CosineSimilarity claims premises = Ok s →
  ∃ s', sim CosineSimilarity premises claims = Ok s'
        ∧ ∀ i j, entry s' j i = entry s i j.
Proof.
  simpl. intros Hs. apply matmul_t_Ok_inv in Hs as [Hlen ->].
  eexists. split.
  - apply matmul_t_Ok. intros y x Hy Hx. symmetry. now apply Hlen.
  - intros i j. rewrite !entry_outer.
    destruct (_ !! i), (_ !! j); try reflexivity. now rewrite dot_comm.
Qed.

Lemma CosineSimilarity_symmetric_witness :
  ∃ s', sim (CosineSimilarity (H := normalize_rational)) [[4; 3]%Q; [0; -2]%Q] [[3; 4]%Q]
        = Ok s'
        ∧ ∀ i j, entry s' j i = entry [[600 # 625; -80 # 100]%Q] i j.
Proof.
  apply (CosineSimilarity_symmetric (H := normalize_rational)
           [[3; 4]%Q] [[4; 3]%Q; [0; -2]%Q] [[600 # 625; -80 # 100]%Q]).
  reflexivity.
Defined.

(** ** CSLS beyond the shape of the similarity matrix *)

Lemma for_each_Raise_inv {A B : Type} (f : A → result B) (l : list A) (e : exn) :
  for_each f l = Raise e → ∃ x, x ∈ l ∧ f x = Raise e.
Proof.
  induction l as [|x l IH]; [discriminate |]. cbn [for_each].
  destruct (f x) as [y|e'] eqn:Hx; simpl.
  - destruct (for_each f l) as [ys|e'']; simpl; [discriminate |].
    intros [= ->]. destruct IH as (x' & Hin & Hx'); [reflexivity |].
    exists x'. split; [now apply list_elem_of_further | assumption].
  - intros [= ->]. exists x. split; [apply list_elem_of_here | assumption].
Qed.

Lemma topk_Raise (k : Z) (row : list Q) (e : exn) :
  topk k row = Raise e → e = RuntimeError.
Proof. unfold topk. destruct (_ || _); [congruence | discriminate]. Qed.

Lemma mean_top_sim_Raise (s : Matrix) (k : Z) (dim : nat) (e : exn) :
  _mean_top_sim s k dim = Raise e → e = RuntimeError.
Proof.
  unfold _mean_top_sim.
  destruct (for_each _ (slices dim s)) as [top|e'] eqn:Htop; simpl; [discriminate |].
  intros [= ->]. apply for_each_Raise_inv in Htop as (sl & _ & Hsl).
  destruct (topk k sl) as [t|e'] eqn:Ht; simpl in Hsl; [discriminate |].
  injection Hsl as ->. eapply topk_Raise; eassumption.
Qed.

Lemma mean_top_sim_short (s : Matrix) (k : nat) (dim : nat) (sl : list Q) :
  sl ∈ slices dim s → (length sl < k)%nat →
  _mean_top_sim s (Z.of_nat k) dim = Raise RuntimeError.
Proof.
  intros Hin Hlen.
  destruct (_mean_top_sim s (Z.of_nat k) dim) as [m|e] eqn:Hm;
    [| f_equal; eapply mean_top_sim_Raise; eassumption].
  pose proof (mean_top_sim_Ok_inv _ _ _ _ _ Hm Hin). lia.
Qed.

(** X8: [CSLSSimilarity.sim] raises [RuntimeError] as soon as [k] exceeds
    the number of claims or the number of premises: the top-k along that
    dimension does not exist.  With the single claim that [rank] passes,
    every [k] above one raises. *)
Theorem CSLSSimilarity_raises_beyond_shape (base : Similarity) (k : nat)
    (claims premises : list Representation) (s : Matrix) :
  well_shaped base →
  sim base claims premises = Ok s →
  claims ≠ [] →
  (length claims < k ∨ length premises < k)%nat →
  sim (CSLSSimilarity base k) claims premises = Raise RuntimeError.
Proof.
  intros Hshape Hs Hne Hk. simpl. rewrite Hs. simpl.
  apply Hshape in Hs. destruct Hs as [Hrows Hcols].
  destruct s as [|row s]; [destruct claims; [congruence | discriminate] |].
  inversion Hcols as [|? ? Hrow _]; subst.
  destruct (_mean_top_sim (row :: s) (Z.of_nat k) 0) as [m0|e] eqn:Hm0; simpl;
    [| f_equal; eapply mean_top_sim_Raise; eassumption].
  assert (Hc : (length premises < k)%nat).
  { destruct Hk as [Hk | Hk]; [| assumption].
    destruct (length premises) as [|c] eqn:Hlen; [lia |]. exfalso.
    assert (Hcol : column 0 (row :: s) ∈ slices 0 (row :: s)).
    { simpl slices. rewrite Hrow. simpl. apply list_elem_of_here. }
    pose proof (mean_top_sim_Ok_inv _ _ _ _ _ Hm0 Hcol) as Hb.
    rewrite (column_length _ (length claims) (S c)) in Hb; [lia | | lia].
    split; assumption. }
  rewrite (mean_top_sim_short _ _ 1 row); [reflexivity | apply list_elem_of_here | lia].
Qed.

Lemma CSLSSimilarity_raises_beyond_shape_witness :
  sim (CSLSSimilarity (LpSimilarity 1) 2) [[0; 0]%Q] [[1; 0]%Q; [0; 1 # 2]%Q; [3; 3]%Q]
  = Raise RuntimeError.
Proof.
  apply (CSLSSimilarity_raises_beyond_shape (LpSimilarity 1) 2 [[0; 0]%Q]
           [[1; 0]%Q; [0; 1 # 2]%Q; [3; 3]%Q] [[1 # 2; 2 # 3; 1 # 7]%Q]).
  - apply manhattan_well_shaped.
  - reflexivity.
  - discriminate.
  - left. simpl. lia.
Defined.

(** ** [_num_clusters] between its bounds *)

Lemma py_round_bounds (x : Q) (lo hi : Z) :
  (inject_Z lo <= x <= inject_Z hi)%Q → lo ≤ py_round x ≤ hi.
Proof.
  intros [Hlo Hhi]. unfold py_round.
  pose proof (Qfloor_le x) as Hfl. pose proof (Qlt_floor x) as Hfu.
  assert (Hlof : lo ≤ Qfloor x).
  { apply Qfloor_resp_le in Hlo. now rewrite Qfloor_Z in Hlo. }
  assert (Hfhi : Qfloor x ≤ hi).
  { apply Qfloor_resp_le in Hhi. now rewrite Qfloor_Z in Hhi. }
  set (f := Qfloor x) in *.
  assert (Hstep : (0 < x - inject_Z f)%Q → f + 1 ≤ hi).
  { intros Hpos. destruct (Z.eq_dec f hi) as [-> | Hne]; [lra | lia]. }
  destruct (Qcompare_spec (x - inject_Z f) (1 # 2)) as [He | Hl | Hg].
  - destruct (Z.even f); [lia |]. split; [lia |]. apply Hstep. rewrite He. reflexivity.
  - lia.
  - split; [lia |]. apply Hstep. lra.
Qed.

(** X10: where [ratio * num_premises] lies between [k] and
    [num_premises], [_num_clusters] is Python's [round] of it: an integer
    at most one half away, and the even one where two integers are one
    half away. *)
Theorem num_clusters_rounds_ratio (ratio : Q) (num_premises k : Z) :
  (inject_Z k <= ratio * inject_Z num_premises <= inject_Z num_premises)%Q →
  _num_clusters ratio num_premises k = py_round (ratio * inject_Z num_premises)
  ∧ (Qabs (inject_Z (_num_clusters ratio num_premises k) - ratio * inject_Z num_premises)
     <= 1 # 2)%Q
  ∧ ((Qabs (inject_Z (_num_clusters ratio num_premises k) - ratio * inject_Z num_premises)
      == 1 # 2)%Q → Z.even (_num_clusters ratio num_premises k) = true).
Proof.
  intros Hb. pose proof (py_round_bounds _ _ _ Hb) as Hr.
  assert (Heq : _num_clusters ratio num_premises k = py_round (ratio * inject_Z num_premises)).
  { unfold _num_clusters. lia. }
  rewrite Heq. split; [reflexivity |]. split; [apply py_round_nearest |].
  set (x := (ratio * inject_Z num_premises)%Q). unfold py_round.
  pose proof (Qfloor_le x) as Hfl. pose proof (Qlt_floor x) as Hfu.
  set (f := Qfloor x) in *.
  assert (Hf1 : (inject_Z (f + 1) == inject_Z f + 1)%Q)
    by (rewrite inject_Z_plus; reflexivity).
  destruct (Qcompare_spec (x - inject_Z f) (1 # 2)) as [He | Hl | Hg].
  - destruct (Z.even f) eqn:Hev; [intros _; exact Hev |].
    intros _. rewrite Z.add_1_r, Z.even_succ, <- Z.negb_even, Hev. reflexivity.
  - intros Habs. exfalso.
    assert (Hneg : (inject_Z f - x <= 0)%Q) by lra.
    rewrite (Qabs_neg _ Hneg) in Habs. lra.
  - intros Habs. exfalso. rewrite Hf1 in Habs.
    assert (Hpos : (0 <= inject_Z f + 1 - x)%Q) by lra.
    rewrite (Qabs_pos _ Hpos) in Habs. lra.
Qed.

Lemma num_clusters_rounds_ratio_witness :
  _num_clusters (1 # 2) 5 1 = py_round ((1 # 2) * inject_Z 5)
  ∧ (Qabs (inject_Z (_num_clusters (1 # 2) 5 1) - (1 # 2) * inject_Z 5) <= 1 # 2)%Q
  ∧ ((Qabs (inject_Z (_num_clusters (1 # 2) 5 1) - (1 # 2) * inject_Z 5) == 1 # 2)%Q
     → Z.even (_num_clusters (1 # 2) 5 1) = true).
Proof.
  apply (num_clusters_rounds_ratio (1 # 2) 5 1).
  split; vm_compute; discriminate.
Defined.

(** ** Rounding to 32-bit floats *)

Module Float32_facts.
Import Float32.

Lemma pow2_pos (e : Z) : (0 < pow2 e)%Q.
Proof. apply Qpower_0_lt. reflexivity. Qed.

Lemma pow2_le (a b : Z) : a ≤ b → (pow2 a <= pow2 b)%Q.
Proof. intros H. apply Qpower_le_compat_l; [assumption | discriminate]. Qed.

Lemma pow2_lt_inv (a b : Z) : (pow2 a < pow2 b)%Q → a < b.
Proof. intros H. eapply Qpower_lt_compat_l_inv; [exact H | reflexivity]. Qed.

Lemma pow2_le_inv (a b : Z) : (pow2 a <= pow2 b)%Q → a ≤ b.
Proof. intros H. eapply Qpower_le_compat_l_inv; [exact H | reflexivity]. Qed.

Lemma pow2_add (a b : Z) : (pow2 (a + b) == pow2 a * pow2 b)%Q.
Proof. apply Qpower_plus. discriminate. Qed.

Lemma pow2_sub (a b : Z) : (pow2 (a - b) == pow2 a / pow2 b)%Q.
Proof.
  unfold Z.sub. rewrite pow2_add. unfold pow2. rewrite Qpower_opp. reflexivity.
Qed.

Lemma pow2_int (e : Z) : 0 ≤ e → (pow2 e == inject_Z (2 ^ e))%Q.
Proof. intros H. unfold pow2. now rewrite Zpower_Qpower. Qed.

(** [ilog2] is the binary logarithm, rounded down. *)
Lemma ilog2_spec (x : Q) :
  (0 < x)%Q → (pow2 (ilog2 x) <= x)%Q ∧ (x < pow2 (ilog2 x + 1))%Q.
Proof.
  intros Hx. destruct x as [n d].
  assert (Hn : 0 < n) by (unfold Qlt in Hx; simpl in Hx; lia).
  unfold ilog2. cbn [Qnum Qden].
  destruct (Z.log2_spec n Hn) as [Hn1 Hn2].
  destruct (Z.log2_spec (Zpos d) (Pos2Z.is_pos d)) as [Hd1 Hd2].
  set (ln := Z.log2 n) in *. set (ld := Z.log2 (Zpos d)) in *.
  assert (Hln : 0 ≤ ln) by apply Z.log2_nonneg.
  assert (Hld : 0 ≤ ld) by apply Z.log2_nonneg.
  assert (Ex : (n # d == inject_Z n / inject_Z (Zpos d))%Q) by apply Qmake_Qdiv.
  assert (Hdpos : (0 < inject_Z (Zpos d))%Q) by (unfold Qlt; simpl; lia).
  assert (Hup : (n # d < pow2 (ln - ld + 1))%Q).
  { rewrite Ex. apply Qlt_shift_div_r; [assumption |].
    apply Qlt_le_trans with (pow2 (ln - ld + 1) * pow2 ld)%Q.
    - rewrite <- pow2_add. replace (ln - ld + 1 + ld) with (Z.succ ln) by lia.
      rewrite pow2_int by lia. rewrite <- Zlt_Qlt. exact Hn2.
    - apply Qmult_le_l; [apply pow2_pos |].
      rewrite pow2_int by lia. rewrite <- Zle_Qle. exact Hd1. }
  assert (Hlo : (pow2 (ln - ld - 1) <= n # d)%Q).
  { rewrite Ex. apply Qle_shift_div_l; [assumption |].
    apply Qle_trans with (pow2 (ln - ld - 1) * pow2 (ld + 1))%Q.
    - apply Qmult_le_l; [apply pow2_pos |].
      rewrite pow2_int by lia. rewrite <- Zle_Qle. unfold Z.succ in Hd2. lia.
    - rewrite <- pow2_add. replace (ln - ld - 1 + (ld + 1)) with ln by lia.
      rewrite pow2_int by lia. rewrite <- Zle_Qle. exact Hn1. }
  destruct (Qle_bool (pow2 (ln - ld)) (n # d)) eqn:Hc.
  - apply Qle_bool_iff in Hc. split; assumption.
  - split; [exact Hlo |]. replace (ln - ld - 1 + 1) with (ln - ld) by lia.
    apply Qnot_le_lt. intros H. apply Qle_bool_iff in H. congruence.
Qed.


Lemma py_round_le (x : Q) (hi : Z) : (x <= inject_Z hi)%Q → py_round x ≤ hi.
Proof.
  intros H. apply (py_round_bounds x (Qfloor x) hi). split; [apply Qfloor_le | exact H].
Qed.

Lemma py_round_ge (x : Q) (lo : Z) : (inject_Z lo <= x)%Q → lo ≤ py_round x.
Proof.
  intros H. apply (py_round_bounds x lo (Qceiling x)). split; [exact H | apply Qle_ceiling].
Qed.

Lemma py_round_mono (x y : Q) : (x <= y)%Q → py_round x ≤ py_round y.
Proof.
  intros H.
  pose proof (Qfloor_resp_le _ _ H) as Hf.
  destruct (Z.eq_dec (Qfloor x) (Qfloor y)) as [E | NE].
  - unfold py_round. rewrite <- E.
    destruct (Qcompare_spec (x - inject_Z (Qfloor x)) (1 # 2)) as [Hx | Hx | Hx];
      destruct (Qcompare_spec (y - inject_Z (Qfloor x)) (1 # 2)) as [Hy | Hy | Hy];
      try lia; try (destruct (Z.even (Qfloor x)); lia); exfalso; lra.
  - apply Z.le_trans with (Qfloor x + 1).
    + apply py_round_le. apply Qlt_le_weak, Qlt_floor.
    + apply py_round_ge. apply Qle_trans with (inject_Z (Qfloor y)); [| apply Qfloor_le].
      rewrite <- Zle_Qle. lia.
Qed.

Lemma py_round_proper (x y : Q) : (x == y)%Q → py_round x = py_round y.
Proof.
  intros H. apply Z.le_antisymm; apply py_round_mono; rewrite H; apply Qle_refl.
Qed.

(** Rounding respects the powers of two that are multiples of the unit in
    the last place. *)
Lemma nearest_le_pow2 (x : Q) (e : Z) :
  ulp_exponent x ≤ e → (x <= pow2 e)%Q → (nearest x <= pow2 e)%Q.
Proof.
  intros He Hx. unfold nearest, ulp. set (u := ulp_exponent x) in *.
  assert (Hu : (0 < pow2 u)%Q) by apply pow2_pos.
  assert (Ee : (pow2 e == inject_Z (2 ^ (e - u)) * pow2 u)%Q).
  { rewrite <- pow2_int by lia. rewrite <- pow2_add. now replace (e - u + u) with e by lia. }
  rewrite Ee. apply Qmult_le_compat_r; [| now apply Qlt_le_weak].
  rewrite <- Zle_Qle. apply py_round_le.
  apply Qle_shift_div_r; [assumption |]. now rewrite <- Ee.
Qed.

Lemma nearest_ge_pow2 (x : Q) (e : Z) :
  ulp_exponent x ≤ e → (pow2 e <= x)%Q → (pow2 e <= nearest x)%Q.
Proof.
  intros He Hx. unfold nearest, ulp. set (u := ulp_exponent x) in *.
  assert (Hu : (0 < pow2 u)%Q) by apply pow2_pos.
  assert (Ee : (pow2 e == inject_Z (2 ^ (e - u)) * pow2 u)%Q).
  { rewrite <- pow2_int by lia. rewrite <- pow2_add. now replace (e - u + u) with e by lia. }
  rewrite Ee. apply Qmult_le_compat_r; [| now apply Qlt_le_weak].
  rewrite <- Zle_Qle. apply py_round_ge.
  apply Qle_shift_div_l; [assumption |]. now rewrite <- Ee.
Qed.

Lemma Qabs_pos_eq (x : Q) : (0 < x)%Q → Qabs x = x.
Proof.
  destruct x as [n d]. unfold Qlt. simpl. intros H. unfold Qabs.
  f_equal. apply Z.abs_eq. lia.
Qed.

Lemma ilog2_mono (x y : Q) : (0 < x)%Q → (x <= y)%Q → ilog2 x ≤ ilog2 y.
Proof.
  intros Hx Hxy.
  destruct (ilog2_spec x Hx) as [Hx1 _].
  destruct (ilog2_spec y) as [_ Hy2]; [lra |].
  assert (H : (pow2 (ilog2 x) < pow2 (ilog2 y + 1))%Q) by lra.
  apply pow2_lt_inv in H. lia.
Qed.

Lemma ulp_exponent_pos (x : Q) :
  (0 < x)%Q → ulp_exponent x = Z.max (ilog2 x - 23) (-149).
Proof. intros H. unfold ulp_exponent. now rewrite Qabs_pos_eq. Qed.

Lemma nearest_nonneg (x : Q) : (0 <= x)%Q → (0 <= nearest x)%Q.
Proof.
  intros H. unfold nearest. apply Qmult_le_0_compat.
  - change 0%Q with (inject_Z 0). rewrite <- Zle_Qle. apply py_round_ge.
    apply Qle_shift_div_l; [apply pow2_pos |].
    change (inject_Z 0) with 0%Q. now rewrite Qmult_0_l.
  - apply Qlt_le_weak, pow2_pos.
Qed.

(** Rounding is monotone on the positive numbers. *)
Lemma nearest_mono (x y : Q) : (0 < x)%Q → (x <= y)%Q → (nearest x <= nearest y)%Q.
Proof.
  intros Hx Hxy. assert (Hy : (0 < y)%Q) by lra.
  pose proof (ilog2_mono x y Hx Hxy) as He.
  pose proof (ulp_exponent_pos x Hx) as Ux. pose proof (ulp_exponent_pos y Hy) as Uy.
  destruct (Z.eq_dec (ulp_exponent x) (ulp_exponent y)) as [E | NE].
  - unfold nearest, ulp. rewrite E.
    apply Qmult_le_compat_r; [| apply Qlt_le_weak, pow2_pos].
    rewrite <- Zle_Qle. apply py_round_mono.
    apply Qle_shift_div_l; [apply pow2_pos |].
    unfold Qdiv. rewrite <- Qmult_assoc, (Qmult_comm (/ _)), Qmult_inv_r, Qmult_1_r;
      [exact Hxy |].
    pose proof (pow2_pos (ulp_exponent y)). lra.
  - assert (Hlt : ilog2 x < ilog2 y) by lia.
    destruct (ilog2_spec x Hx) as [_ Hx2]. destruct (ilog2_spec y Hy) as [Hy1 _].
    apply Qle_trans with (pow2 (ilog2 y)).
    + apply nearest_le_pow2; [lia |].
      apply Qle_trans with (pow2 (ilog2 x + 1)); [now apply Qlt_le_weak |].
      apply pow2_le. lia.
    + apply nearest_ge_pow2; [lia | exact Hy1].
Qed.

Lemma nearest_proper (x y : Q) : (0 < x)%Q → (x == y)%Q → (nearest x == nearest y)%Q.
Proof.
  intros Hx E. apply Qle_antisym; apply nearest_mono; rewrite ?E; try rewrite <- E;
    try assumption; try apply Qle_refl.
Qed.

(** What [round] returns on a positive number. *)
Lemma round_pos (x : Q) :
  (0 < x)%Q →
  (round x = PosInf ∧ (pow2 128 <= nearest x)%Q)
  ∨ (round x = Finite (nearest x) ∧ (nearest x < pow2 128)%Q).
Proof.
  intros Hx. unfold round.
  destruct (Qeq_bool x 0) eqn:E0.
  { apply Qeq_bool_iff in E0. lra. }
  pose proof (nearest_nonneg x ltac:(lra)) as Hn.
  destruct (Qle_bool (pow2 128) (nearest x)) eqn:E1.
  - left. apply Qle_bool_iff in E1. now split.
  - right.
    assert (Hlt : (nearest x < pow2 128)%Q).
    { apply Qnot_le_lt. intros H. apply Qle_bool_iff in H. congruence. }
    destruct (Qle_bool (nearest x) (- pow2 128)) eqn:E2.
    + apply Qle_bool_iff in E2. pose proof (pow2_pos 128). lra.
    + now split.
Qed.

Lemma round_mono (x y : Q) : (0 < x)%Q → (x <= y)%Q → le (round x) (round y).
Proof.
  intros Hx Hxy. pose proof (nearest_mono x y Hx Hxy) as Hn.
  destruct (round_pos x Hx) as [[-> Hx'] | [-> Hx']];
    (destruct (round_pos y) as [[-> Hy'] | [-> Hy']]; [lra | |]); simpl; try exact I; lra.
Qed.


Lemma add_one (q : Q) :
  (0 <= q)%Q →
  add (Finite 1) (Finite q) = PosInf
  ∨ add (Finite 1) (Finite q) = Finite (nearest (1 + q))
    ∧ (1 <= nearest (1 + q))%Q ∧ (nearest (1 + q) < pow2 128)%Q.
Proof.
  intros Hq. assert (Hp : (0 < 1 + q)%Q) by lra. simpl.
  destruct (round_pos _ Hp) as [[-> _] | [-> Hlt]]; [now left | right].
  split; [reflexivity |]. split; [| exact Hlt].
  destruct (ilog2_spec _ Hp) as [Hlo Hhi].
  assert (He : 0 ≤ ilog2 (1 + q)).
  { assert (H : (pow2 0 < pow2 (ilog2 (1 + q) + 1))%Q).
    { change (pow2 0) with 1%Q. lra. }
    apply pow2_lt_inv in H. lia. }
  apply Qle_trans with (pow2 (ilog2 (1 + q))).
  - change 1%Q with (pow2 0). now apply pow2_le.
  - apply nearest_ge_pow2; [| exact Hlo]. rewrite ulp_exponent_pos by exact Hp. lia.
Qed.

Lemma div_one (r : Q) :
  (1 <= r)%Q →
  div (Finite 1) (Finite r) = Finite (nearest (1 / r))
  ∧ (0 <= nearest (1 / r))%Q ∧ (nearest (1 / r) <= 1)%Q
  ∧ ((r < pow2 128)%Q → (0 < nearest (1 / r))%Q).
Proof.
  intros Hr. assert (Hp : (0 < 1 / r)%Q) by (apply Qlt_shift_div_l; lra).
  assert (Hle : (1 / r <= 1)%Q) by (apply Qle_shift_div_r; lra).
  destruct (ilog2_spec _ Hp) as [Hlo Hhi].
  assert (He : ilog2 (1 / r) ≤ 0).
  { apply pow2_le_inv. change (pow2 0) with 1%Q. lra. }
  assert (Hn : (nearest (1 / r) <= 1)%Q).
  { change 1%Q with (pow2 0) at 2. apply nearest_le_pow2.
    - rewrite ulp_exponent_pos by exact Hp. lia.
    - exact Hle. }
  assert (H128 : (1 < pow2 128)%Q).
  { change 1%Q with (pow2 0). apply Qpower_lt_compat_l; [lia | reflexivity]. }
  split; [| split; [apply nearest_nonneg; lra | split; [exact Hn |]]].
  - simpl. destruct (Qeq_bool r 0) eqn:E0.
    { apply Qeq_bool_iff in E0. lra. }
    destruct (round_pos _ Hp) as [[_ Hge] | [-> _]]; [lra | reflexivity].
  - intros Hlt.
    assert (Hinv : (pow2 (-128) < 1 / r)%Q).
    { apply Qlt_shift_div_l; [lra |].
      assert (E : (pow2 (-128) * pow2 128 == 1)%Q) by (rewrite <- pow2_add; reflexivity).
      rewrite <- E. apply Qmult_lt_l; [apply pow2_pos | exact Hlt]. }
    assert (He' : -128 ≤ ilog2 (1 / r)).
    { assert (H : (pow2 (-128) < pow2 (ilog2 (1 / r) + 1))%Q) by lra.
      apply pow2_lt_inv in H. lia. }
    apply Qlt_le_trans with (pow2 (ilog2 (1 / r))); [apply pow2_pos |].
    apply nearest_ge_pow2; [| exact Hlo]. rewrite ulp_exponent_pos by exact Hp. lia.
Qed.

(** The similarity [1 / (1 + x)] of a distance [x], in 32-bit floats. *)
Lemma distance_to_similarity_float32 (x : t) :
  le (Finite 0) x →
  let y := div (Finite 1) (add (Finite 1) x) in
  le (Finite 0) y ∧ le y (Finite 1)
  ∧ (eq x (Finite 0) → eq y (Finite 1))
  ∧ (add (Finite 1) x ≠ PosInf → lt (Finite 0) y).
Proof.
  intros Hx. destruct x as [q | | |]; simpl in Hx; try contradiction.
  - destruct (add_one q Hx) as [E | (E & H1 & H2)]; cbv zeta; rewrite E.
    + simpl. split; [lra |]. split; [lra |]. split; [| congruence].
      intros Hq. exfalso. revert E. simpl.
      assert (Hp : (0 < 1 + q)%Q) by lra.
      destruct (round_pos _ Hp) as [[_ Hge] | [-> _]]; [| discriminate].
      assert (Hn : (nearest (1 + q) == nearest 1)%Q) by (apply nearest_proper; lra).
      assert (H1' : (nearest 1 == 1)%Q) by reflexivity.
      assert (H128 : (1 < pow2 128)%Q).
      { change 1%Q with (pow2 0). apply Qpower_lt_compat_l; [lia | reflexivity]. }
      lra.
    + destruct (div_one _ H1) as (Ed & Hd0 & Hd1 & Hdp). rewrite Ed. simpl.
      split; [exact Hd0 |]. split; [exact Hd1 |]. split; [| intros _; now apply Hdp].
      intros Hq.
      assert (Hn : (nearest (1 + q) == 1)%Q).
      { assert (Hn : (nearest (1 + q) == nearest 1)%Q) by (apply nearest_proper; lra).
        rewrite Hn. reflexivity. }
      assert (Hr : (1 / nearest (1 + q) == 1)%Q) by (rewrite Hn; reflexivity).
      assert (Hn' : (nearest (1 / nearest (1 + q)) == nearest 1)%Q).
      { apply nearest_proper; [| exact Hr]. rewrite Hr. reflexivity. }
      rewrite Hn'. reflexivity.
  - cbv zeta. simpl. split; [lra |]. split; [lra |]. split; [contradiction | congruence].
Qed.

(** A larger distance never gives a larger similarity. *)
Lemma distance_to_similarity_float32_antitone (x x' : t) :
  le (Finite 0) x → le x x' →
  le (div (Finite 1) (add (Finite 1) x')) (div (Finite 1) (add (Finite 1) x)).
Proof.
  intros Hx Hxx'.
  assert (Hx' : le (Finite 0) x').
  { destruct x as [q | | |], x' as [q' | | |]; simpl in *; try contradiction; try exact I. lra. }
  destruct (distance_to_similarity_float32 x Hx) as (Hy0 & _).
  destruct x' as [q' | | |]; simpl in Hx'; try contradiction.
  2:{ destruct (div (Finite 1) (add (Finite 1) x)); simpl in *; try contradiction; assumption. }
  destruct x as [q | | |]; simpl in Hx, Hxx'; try contradiction.
  destruct (add_one q' Hx') as [E' | (E' & H1' & H2')]; rewrite E'.
  { destruct (div (Finite 1) (add (Finite 1) (Finite q))); simpl in *; try contradiction; assumption. }
  destruct (add_one q Hx) as [E | (E & H1 & H2)].
  { exfalso. revert E. simpl.
    assert (Hp : (0 < 1 + q)%Q) by lra.
    destruct (round_pos _ Hp) as [[_ Hge] | [-> _]]; [| discriminate].
    pose proof (nearest_mono (1 + q) (1 + q') Hp ltac:(lra)). lra. }
  rewrite E.
  destruct (div_one _ H1) as (Ed & _). destruct (div_one _ H1') as (Ed' & _).
  rewrite Ed, Ed'. simpl.
  assert (Hn : (nearest (1 + q) <= nearest (1 + q'))%Q) by (apply nearest_mono; lra).
  apply nearest_mono.
  - apply Qlt_shift_div_l; lra.
  - apply Qle_shift_div_l; [lra |].
    assert (Eq : (1 / nearest (1 + q') * nearest (1 + q) == nearest (1 + q) / nearest (1 + q'))%Q)
      by (field; lra).
    rewrite Eq. apply Qle_shift_div_r; lra.
Qed.

End Float32_facts.

(** The arithmetic of [Float32] agrees with the binary32 operations of the
    Standard Library's [SpecFloat] (24 bits of precision, exponents up to
    128), here on [1 / (1 + x)] for [x] a tenth, [2 ^ -30], [2 ^ 127],
    the largest float, the smallest one, infinity and zero. *)
Example Float32_agrees_with_SpecFloat :
  let one := SpecFloat.S754_finite false 8388608 (-23) in
  Forall (λ x,
            Float32.eq
              (Float32.div (Float32.Finite 1)
                           (Float32.add (Float32.Finite 1) (of_spec_float x)))
              (of_spec_float (SpecFloat.SFdiv 24 128 one (SpecFloat.SFadd 24 128 one x))))
         [ SpecFloat.S754_finite false 13421773 (-27);
           SpecFloat.S754_finite false 8388608 (-53);
           SpecFloat.S754_finite false 8388608 104;
           SpecFloat.S754_finite false 16777215 104;
           SpecFloat.S754_finite false 1 (-149);
           SpecFloat.S754_infinity false;
           SpecFloat.S754_zero false ].
Proof.
  intros one.
  repeat (apply Forall_cons_2; [vm_compute; reflexivity |]). apply Forall_nil_2.
Qed.

(** ** C7: range of the Lp similarity *)

(** C7, as stated, fails on 32-bit floats.  For the claim [(0)] and the
    premise [(2 ^ -30)], at the positive distance [2 ^ -30], the sum
    [1 + 2 ^ -30] rounds to 1 and the similarity is 1.  For the claim
    [(2 ^ 127)] and the premise [(- 2 ^ 127)] the distance overflows to
    infinity and the similarity is 0, outside of (0, 1]. *)
Lemma LpSimilarity_float32_leaves_half_open_interval :
  ∃ d s,
    FloatTensor.cdist (Cdist := FloatTensor.cdist_manhattan)
      example_float_claims example_float_premises 1 = Ok d
    ∧ FloatTensor.LpSimilarity_sim (H := FloatTensor.cdist_manhattan) 1
        example_float_claims example_float_premises = Ok s
    ∧ (∃ x y, FloatTensor.entry d 0 0 = Some x ∧ FloatTensor.entry s 0 0 = Some y
              ∧ Float32.eq y (Float32.Finite 1) ∧ ¬ Float32.eq x (Float32.Finite 0))
    ∧ (∃ x y, FloatTensor.entry d 1 1 = Some x ∧ FloatTensor.entry s 1 1 = Some y
              ∧ x = Float32.PosInf ∧ ¬ Float32.lt (Float32.Finite 0) y).
Proof.
  eexists _, _. split; [vm_compute; reflexivity |]. split; [vm_compute; reflexivity |].
  split.
  - eexists _, _. split; [reflexivity |]. split; [reflexivity |].
    split; [reflexivity |]. vm_compute. discriminate.
  - eexists _, _. split; [reflexivity |]. split; [reflexivity |].
    split; [reflexivity |]. vm_compute. discriminate.
Qed.

(** C7, amended: wherever [torch.cdist] returns a matrix of distances
    (non-negative, possibly infinite), [LpSimilarity.sim] returns the
    matrix of the same shape whose entries are [1 / (1 + distance)],
    rounded to 32-bit floats after the sum and after the quotient; each
    lies in the closed interval [0, 1], is 1 where the distance is 0, and
    is positive where [1 + distance] is finite. *)
Theorem LpSimilarity_float32_in_closed_unit_interval `{FloatTensor.Cdist} (p : Z)
    (claims premises d : FloatTensor.t) :
  FloatTensor.cdist claims premises p = Ok d →
  Forall (Forall (Float32.le (Float32.Finite 0))) d →
  ∃ s, FloatTensor.LpSimilarity_sim p claims premises = Ok s ∧
       Forall2 (Forall2 (λ x y,
           y = Float32.div (Float32.Finite 1) (Float32.add (Float32.Finite 1) x)
           ∧ Float32.le (Float32.Finite 0) y ∧ Float32.le y (Float32.Finite 1)
           ∧ (Float32.eq x (Float32.Finite 0) → Float32.eq y (Float32.Finite 1))
           ∧ (Float32.add (Float32.Finite 1) x ≠ Float32.PosInf
              → Float32.lt (Float32.Finite 0) y))) d s.
Proof.
  intros Hd Hnn. unfold FloatTensor.LpSimilarity_sim. rewrite Hd. simpl.
  eexists; split; [reflexivity |].
  unfold FloatTensor.scalar_div, FloatTensor.scalar_add. rewrite map_map. clear Hd.
  induction Hnn as [|row d' Hrow _ IH]; simpl; [constructor |].
  constructor; [| exact IH].
  rewrite map_map.
  induction Hrow as [|x row' Hx _ IHr]; simpl; [constructor |].
  constructor; [| exact IHr].
  split; [reflexivity |]. now apply Float32_facts.distance_to_similarity_float32.
Qed.

Lemma LpSimilarity_float32_in_closed_unit_interval_witness :
  ∃ s, FloatTensor.LpSimilarity_sim (H := FloatTensor.cdist_manhattan) 1
         example_float_claims example_float_premises = Ok s ∧
       Forall2 (Forall2 (λ x y,
           y = Float32.div (Float32.Finite 1) (Float32.add (Float32.Finite 1) x)
           ∧ Float32.le (Float32.Finite 0) y ∧ Float32.le y (Float32.Finite 1)
           ∧ (Float32.eq x (Float32.Finite 0) → Float32.eq y (Float32.Finite 1))
           ∧ (Float32.add (Float32.Finite 1) x ≠ Float32.PosInf
              → Float32.lt (Float32.Finite 0) y))) example_float_distances s.
Proof.
  apply (LpSimilarity_float32_in_closed_unit_interval (H := FloatTensor.cdist_manhattan) 1
           example_float_claims example_float_premises example_float_distances).
  - vm_compute. reflexivity.
  - repeat constructor; vm_compute; discriminate.
Defined.

(** ** Distances and similarities *)

(** X6: on 32-bit floats [LpSimilarity] never ranks a farther premise
    above a nearer one: of two premises of a row, the one that is at most
    as far from the claim is at least as similar.  (Distinct distances
    can give the same similarity.) *)
Theorem LpSimilarity_float32_antitone `{FloatTensor.Cdist} (p : Z)
    (claims premises d : FloatTensor.t) :
  FloatTensor.cdist claims premises p = Ok d →
  Forall (Forall (Float32.le (Float32.Finite 0))) d →
  ∃ s, FloatTensor.LpSimilarity_sim p claims premises = Ok s ∧
       ∀ i j j' x y, FloatTensor.entry d i j = Some x → FloatTensor.entry d i j' = Some y →
         ∃ u v, FloatTensor.entry s i j = Some u ∧ FloatTensor.entry s i j' = Some v
                ∧ (Float32.le x y → Float32.le v u).
Proof.
  intros Hd Hnn. unfold FloatTensor.LpSimilarity_sim. rewrite Hd. simpl.
  eexists; split; [reflexivity |].
  intros i j j' x y Hx Hy.
  unfold FloatTensor.entry, FloatTensor.scalar_div, FloatTensor.scalar_add, FloatTensor.t in *.
  rewrite !lookup_map.
  destruct (d !! i) as [row|] eqn:Hrow; [| discriminate]. simpl in *.
  rewrite !lookup_map, Hx, Hy. simpl. eexists _, _. split; [reflexivity |].
  split; [reflexivity |].
  rewrite Forall_forall in Hnn. apply list_elem_of_lookup_2 in Hrow.
  specialize (Hnn _ Hrow). rewrite Forall_forall in Hnn.
  apply Float32_facts.distance_to_similarity_float32_antitone.
  apply Hnn. eapply list_elem_of_lookup_2; eassumption.
Qed.

Lemma LpSimilarity_float32_antitone_witness :
  ∃ s, FloatTensor.LpSimilarity_sim (H := FloatTensor.cdist_manhattan) 1
         example_float_claims example_float_premises = Ok s ∧
       ∀ i j j' x y, FloatTensor.entry example_float_distances i j = Some x →
         FloatTensor.entry example_float_distances i j' = Some y →
         ∃ u v, FloatTensor.entry s i j = Some u ∧ FloatTensor.entry s i j' = Some v
                ∧ (Float32.le x y → Float32.le v u).
Proof.
  apply (LpSimilarity_float32_antitone (H := FloatTensor.cdist_manhattan) 1
           example_float_claims example_float_premises example_float_distances).
  - vm_compute. reflexivity.
  - repeat constructor; vm_compute; discriminate.
Defined.

(** ** The representative of a cluster *)

Lemma argmax_from_spec (pre row : list Q) (best : nat) (bv : Q) :
  pre !! best = Some bv → Forall (λ v, (v <= bv)%Q) pre →
  ∃ v, (pre ++ row) !! argmax_from best bv (length pre) row = Some v
       ∧ Forall (λ v', (v' <= v)%Q) (pre ++ row).
Proof.
  revert pre best bv. induction row as [|x row IH]; intros pre best bv Hbest Hall.
  - simpl. rewrite app_nil_r. eauto.
  - cbn [argmax_from]. replace (pre ++ x :: row) with ((pre ++ [x]) ++ row)
      by (now rewrite <- app_assoc).
    replace (S (length pre)) with (length (pre ++ [x])) by (rewrite length_app; simpl; lia).
    destruct (Qle_bool x bv) eqn:Hx.
    + apply IH.
      * now apply lookup_app_l_Some.
      * apply Forall_app. split; [assumption |]. constructor; [| constructor].
        now apply Qle_bool_iff.
    + apply IH.
      * now apply list_lookup_middle.
      * assert (Hlt : (bv <= x)%Q).
        { destruct (Qlt_le_dec bv x) as [Hlt | Hle]; [now apply Qlt_le_weak |].
          apply Qle_bool_iff in Hle. congruence. }
        apply Forall_app. split; [| constructor; [apply Qle_refl | constructor]].
        eapply Forall_impl; [exact Hall |]. intros v Hv. simpl in *.
        eapply Qle_trans; eassumption.
Qed.

Lemma argmax_dim1_first (s : Matrix) (a : list nat) (idx : nat) :
  argmax_dim1 s = Ok a → a !! 0%nat = Some idx →
  ∃ v, entry s 0 idx = Some v ∧ ∀ j v', entry s 0 j = Some v' → (v' <= v)%Q.
Proof.
  unfold argmax_dim1. intros Ha Hidx.
  destruct s as [|row s]; [injection Ha as <-; discriminate |].
  cbn [for_each] in Ha. apply bind_Ok in Ha as (i & Hi & Ha).
  apply bind_Ok in Ha as (rest & _ & Ha). injection Ha as <-.
  simpl in Hidx. injection Hidx as ->.
  destruct row as [|x row]; [discriminate |]. injection Hi as <-.
  destruct (argmax_from_spec [x] row 0 x) as (v & Hv & Hall);
    [reflexivity | constructor; [apply Qle_refl | constructor] |].
  exists v. split; [exact Hv |].
  intros j v' Hj. unfold entry in Hj. simpl in Hj. rewrite Forall_forall in Hall.
  apply Hall. eapply list_elem_of_lookup_2; eassumption.
Qed.

Lemma existsb_mask_false (i : nat) (assignment : list Z) :
  existsb id (map (Z.eqb (Z.of_nat i)) assignment) = false →
  Forall (λ c, c ≠ Z.of_nat i) assignment.
Proof.
  induction assignment as [|c assignment IH]; simpl; [constructor |].
  intros H. apply orb_false_iff in H as [Hc H]. constructor; [| now apply IH].
  unfold id in Hc. apply Z.eqb_neq in Hc. congruence.
Qed.

Section representatives.

Variable self : ZeroShotClusterKNN.t.
Variables claim_repr premise_repr : list Representation.
Variable assignment : list Z.
Variable centroids : list Representation.

Lemma representative_step_chosen (ids ids' : list Z) (i : nat) :
  ZeroShotClusterKNN.representative_step self claim_repr premise_repr assignment centroids ids i
    = Ok ids' →
  ids !! i = Some (-1) →
  length ids' = length ids
  ∧ (∀ j, j ≠ i → ids' !! j = ids !! j)
  ∧ ∃ r, ids' !! i = Some r
         ∧ is_representative self claim_repr premise_repr assignment centroids i r.
Proof.
  unfold ZeroShotClusterKNN.representative_step. intros Hstep Hi.
  apply bind_Ok in Hstep as (anchor & Hanchor & Hstep).
  destruct (negb _) eqn:Hany.
  - injection Hstep as <-. split; [reflexivity |]. split; [reflexivity |].
    exists (-1). split; [assumption |]. left. split; [reflexivity |].
    apply existsb_mask_false. now apply negb_true_iff in Hany.
  - apply bind_Ok in Hstep as (pic & Hpic & Hstep).
    apply bind_Ok in Hstep as (s & Hs & Hstep).
    apply bind_Ok in Hstep as (a & Ha & Hstep).
    apply bind_Ok in Hstep as (idx & Hidx & Hstep).
    apply bind_Ok in Hstep as (members & Hmem & Hstep).
    apply bind_Ok in Hstep as (r & Hr & Hstep).
    injection Hstep as <-. apply index_Ok in Hr, Hidx.
    assert (Hlt : (i < length ids)%nat) by (eapply lookup_lt_Some; eassumption).
    split; [apply length_insert |].
    split; [intros j Hj; now apply list_lookup_insert_ne |].
    exists (Z.of_nat r). split; [now apply list_lookup_insert_eq |].
    right. split; [lia |]. rewrite Nat2Z.id. split.
    + eapply cluster_members; [eassumption |].
      eapply list_elem_of_lookup_2; eassumption.
    + destruct (argmax_dim1_first _ _ _ Ha Hidx) as (v & Hv & Hmax).
      exists anchor, members, pic, s, idx, v. repeat split; assumption.
Qed.

Lemma representatives_loop (m i : nat) (ids ids' : list Z) :
  for_loop (ZeroShotClusterKNN.representative_step self claim_repr premise_repr assignment
              centroids) (seq i m) ids = Ok ids' →
  (∀ j, (i ≤ j < i + m)%nat → ids !! j = Some (-1)) →
  length ids' = length ids
  ∧ (∀ j, (j < i ∨ i + m ≤ j)%nat → ids' !! j = ids !! j)
  ∧ (∀ j, (i ≤ j < i + m)%nat →
       ∃ r, ids' !! j = Some r
            ∧ is_representative self claim_repr premise_repr assignment centroids j r).
Proof.
  revert i ids. induction m as [|m IH]; intros i ids Hloop Hinit.
  - injection Hloop as <-. split; [reflexivity |]. split; [reflexivity |]. intros j Hj. lia.
  - cbn [seq for_loop] in Hloop. apply bind_Ok in Hloop as (ids1 & Hstep & Hloop).
    destruct (representative_step_chosen _ _ _ Hstep) as (Hlen1 & Hsame1 & r & Hr & Hchosen);
      [apply Hinit; lia |].
    destruct (IH _ _ Hloop) as (Hlen & Hsame & Hrest).
    { intros j Hj. rewrite Hsame1 by lia. apply Hinit. lia. }
    split; [congruence |]. split.
    + intros j Hj. rewrite Hsame by lia. apply Hsame1. lia.
    + intros j Hj. destruct (decide (j = i)) as [-> | Hne].
      * exists r. split; [| exact Hchosen]. rewrite Hsame by lia. exact Hr.
      * apply Hrest. lia.
Qed.

End representatives.

(** X14: [_get_cluster_representatives] returns one entry per centroid:
    [-1] for a cluster without premises, and for every other cluster the
    position of one of its premises, one that is the most similar to the
    anchor of the cluster (its centroid or the claim). *)
Theorem get_cluster_representatives_chooses_most_similar (self : ZeroShotClusterKNN.t)
    (claim_repr premise_repr : list Representation) (assignment : list Z)
    (centroids : list Representation) (ids : list Z) :
  ZeroShotClusterKNN._get_cluster_representatives self claim_repr premise_repr
    assignment centroids = Ok ids →
  length ids = length centroids
  ∧ ∀ j, (j < length centroids)%nat →
      ∃ r, ids !! j = Some r
           ∧ is_representative self claim_repr premise_repr assignment centroids j r.
Proof.
  unfold ZeroShotClusterKNN._get_cluster_representatives. intros Hloop.
  destruct (representatives_loop _ _ _ _ _ _ _ _ _ Hloop) as (Hlen & _ & Hall).
  - intros j Hj. apply lookup_replicate. split; [reflexivity | lia].
  - rewrite length_replicate in Hlen. split; [assumption |].
    intros j Hj. apply Hall. lia.
Qed.

Lemma get_cluster_representatives_chooses_most_similar_witness :
  length [1; -1; 0] = length [[0; 1 # 2]; [9; 9]; [1; 0]]%Q
  ∧ ∀ j, (j < length [[0; 1 # 2]; [9; 9]; [1; 0]]%Q)%nat →
      ∃ r, [1; -1; 0] !! j = Some r
           ∧ is_representative (example_ZeroShotClusterKNN "closest-to-center")
               [[0; 0]%Q] [[1; 0]; [0; 1 # 2]; [3; 3]; [3; 4]]%Q [2; 0; 0; 2]
               [[0; 1 # 2]; [9; 9]; [1; 0]]%Q j r.
Proof.
  apply (get_cluster_representatives_chooses_most_similar
           (example_ZeroShotClusterKNN "closest-to-center")
           [[0; 0]%Q] [[1; 0]; [0; 1 # 2]; [3; 3]; [3; 4]]%Q [2; 0; 0; 2]
           [[0; 1 # 2]; [9; 9]; [1; 0]]%Q).
  vm_compute. reflexivity.
Defined.

(** ** C5: no cluster with a representative *)





(** ** The ranking after the clustering *)

(** X15: after the clustering, [ZeroShotClusterKNN.rank] returns
    representatives of clusters: premises at positions that
    [_get_cluster_representatives] has returned for a cluster, each a most
    similar one of its cluster.  They are the ones at the top-k positions
    of the row of similarities of the claim to the representatives of the
    non-empty clusters, by decreasing similarity. *)
Lemma ZeroShotClusterKNN_rank_clustered_sorted (self : ZeroShotClusterKNN.t)
    (claim_repr premise_repr : list Representation) (premise_ids : list string) (k : Z)
    (assignment : list Z) (centers : list Representation) (result : list string) :
  ZeroShotClusterKNN.rank_clustered self claim_repr premise_repr premise_ids k
    assignment centers = Ok result →
  ∃ ids reps selected s top scores,
    ZeroShotClusterKNN._get_cluster_representatives self claim_repr premise_repr
      assignment centers = Ok ids ∧
    mask_select (map (Z.leb 0) ids) ids = Ok reps ∧
    index_select premise_repr reps = Ok selected ∧
    sim (ZeroShotClusterKNN.similarity self) claim_repr selected = Ok s ∧
    Forall2 (λ t p, ∃ r j, reps !! t = Some r ∧ premise_ids !! Z.to_nat r = Some p
                           ∧ ids !! j = Some r ∧ 0 ≤ r
                           ∧ is_representative self claim_repr premise_repr
                               assignment centers j r) top result ∧
    Forall2 (λ t v, entry s 0 t = Some v) top scores ∧
    StronglySorted (λ a b, (b <= a)%Q) scores.
Proof.
  unfold ZeroShotClusterKNN.rank_clustered. intros Hrank.
  apply bind_Ok in Hrank as (ids & Hids & Hrank).
  apply bind_Ok in Hrank as (reps & Hreps & Hrank).
  apply bind_Ok in Hrank as (selected & Hsel & Hrank).
  apply bind_Ok in Hrank as (s & Hs & Hrank).
  apply bind_Ok in Hrank as (t & Ht & Hrank).
  apply bind_Ok in Hrank as (top & Htop & Hrank).
  apply bind_Ok in Hrank as (top_ids & Htop_ids & Hrank).
  apply for_each_Forall2 in Htop_ids, Hrank.
  destruct (top_indices_sorted _ _ _ _ Ht Htop) as (scores & Hscores & Hsorted).
  exists ids, reps, selected, s, top, scores. repeat split; try assumption.
  assert (Hall : length ids = length centers
                 ∧ ∀ j, (j < length centers)%nat →
                     ∃ r, ids !! j = Some r
                          ∧ is_representative self claim_repr premise_repr assignment
                              centers j r).
  { unfold ZeroShotClusterKNN._get_cluster_representatives in Hids.
    destruct (representatives_loop _ _ _ _ _ _ _ _ _ Hids) as (Hlen & _ & Hall).
    - intros j Hj. apply lookup_replicate. split; [reflexivity | lia].
    - rewrite length_replicate in Hlen. split; [exact Hlen |].
      intros j Hj. apply Hall. lia. }
  destruct Hall as [Hlen Hall].
  clear Hscores Htop Ht. revert result Hrank.
  induction Htop_ids as [|i r top top_ids Hi _ IH]; intros result Hrank;
    inversion Hrank as [|? p ? result' Hp Hrest]; subst; constructor.
  - apply index_Ok in Hi, Hp.
    destruct (mask_select_elem _ _ _ _ Hreps (list_elem_of_lookup_2 _ _ _ Hi))
      as (j & Hmask & Hj).
    rewrite lookup_map, Hj in Hmask. injection Hmask as Hpos. apply Z.leb_le in Hpos.
    destruct (Hall j) as (r' & Hr' & Hrep).
    { apply lookup_lt_Some in Hj. lia. }
    assert (r' = r) by congruence. subst r'.
    exists r, j. repeat split; assumption.
  - now apply IH.
Qed.

Lemma ZeroShotClusterKNN_rank_clustered_sorted_witness :
  ∃ ids reps selected s top scores,
    ZeroShotClusterKNN._get_cluster_representatives
      (example_ZeroShotClusterKNN "closest-to-center")
      [[0; 0]%Q] [[1; 0]; [0; 1 # 2]; [3; 3]; [3; 4]]%Q
      [0; 1; 0; 1] [[1; 0]; [0; 1 # 2]]%Q = Ok ids ∧
    mask_select (map (Z.leb 0) ids) ids = Ok reps ∧
    index_select [[1; 0]; [0; 1 # 2]; [3; 3]; [3; 4]]%Q reps = Ok selected ∧
    sim (LpSimilarity 1) [[0; 0]%Q] selected = Ok s ∧
    Forall2 (λ t p, ∃ r j, reps !! t = Some r ∧ ["a"; "b"; "c"; "d"] !! Z.to_nat r = Some p
                           ∧ ids !! j = Some r ∧ 0 ≤ r
                           ∧ is_representative (example_ZeroShotClusterKNN "closest-to-center")
                               [[0; 0]%Q] [[1; 0]; [0; 1 # 2]; [3; 3]; [3; 4]]%Q
                               [0; 1; 0; 1] [[1; 0]; [0; 1 # 2]]%Q j r)
            top ["b"; "a"] ∧
    Forall2 (λ t v, entry s 0 t = Some v) top scores ∧
    StronglySorted (λ a b, (b <= a)%Q) scores.
Proof.
  apply (ZeroShotClusterKNN_rank_clustered_sorted
           (example_ZeroShotClusterKNN "closest-to-center")
           [[0; 0]%Q] [[1; 0]; [0; 1 # 2]; [3; 3]; [3; 4]]%Q ["a"; "b"; "c"; "d"] 2
           [0; 1; 0; 1] [[1; 0]; [0; 1 # 2]]%Q ["b"; "a"]).
  vm_compute. reflexivity.
Defined.

(** ** The best [k] of [LearnedSimilarityKNN.rank] *)

(** X18: [LearnedSimilarityKNN.rank] returns the best of the candidates:
    what it leaves out is, with multiplicities, the rest of [premise_ids],
    no premise left out has a larger precomputed similarity than a
    returned one, and the number of returned premises is [min(k, n)] for
    [k ≥ 0] and [max(n + k, 0)] for a negative [k], which the slice counts
    from the end. *)
Theorem LearnedSimilarityKNN_rank_best (self : LearnedSimilarityKNN.t) (claim_id : Z)
    (premise_ids : list string) (k : Z) (result : list string) :
  LearnedSimilarityKNN.rank self claim_id premise_ids k = Ok result →
  ∃ rest,
    result ++ rest ≡ₚ premise_ids
    ∧ length result = (if k <? 0 then (length premise_ids - Z.to_nat (- k))%nat
                       else Nat.min (Z.to_nat k) (length premise_ids))
    ∧ ∀ p q vp vq,
        p ∈ result → q ∈ rest →
        LearnedSimilarityKNN.precomputed_similarities self !! p = Some vp →
        LearnedSimilarityKNN.precomputed_similarities self !! q = Some vq →
        (vq <= vp)%Q.
Proof.
  unfold LearnedSimilarityKNN.rank. intros Hrank.
  apply bind_Ok in Hrank as (keys & Hkeys & Hrank). injection Hrank as <-.
  set (sorted := sorted_desc snd (zip premise_ids keys)).
  pose proof (for_each_length _ _ _ Hkeys) as Hlen.
  assert (Hperm : map fst sorted ≡ₚ premise_ids).
  { unfold sorted. change (map fst ?l) with (fst <$> l). rewrite sorted_desc_perm.
    rewrite fst_zip by lia. reflexivity. }
  assert (Hall : Forall (λ x, LearnedSimilarityKNN.precomputed_similarities self !! fst x
                              = Some (snd x)) sorted).
  { unfold sorted. rewrite sorted_desc_perm.
    apply (Forall_zip (λ p v, LearnedSimilarityKNN.precomputed_similarities self !! p = Some v)).
    apply for_each_Forall2 in Hkeys. eapply Forall2_impl; [exact Hkeys |].
    intros p v Hv. unfold LearnedSimilarityKNN.lookup_similarity, getitem in Hv.
    destruct (_ !! p); [congruence | discriminate]. }
  assert (Hsorted : StronglySorted (λ a b : string * Q, (snd b <= snd a)%Q) sorted)
    by apply sorted_desc_sorted.
  assert (Hslice : ∃ n, slice_to k (map fst sorted) = take n (map fst sorted)
                        ∧ n = (if k <? 0 then (length premise_ids - Z.to_nat (- k))%nat
                               else Z.to_nat k)).
  { unfold slice_to. rewrite (Permutation_length Hperm). destruct (k <? 0); eauto. }
  destruct Hslice as (n & -> & Hn).
  exists (drop n (map fst sorted)). split; [| split].
  - now rewrite take_drop.
  - rewrite length_take, (Permutation_length Hperm), Hn.
    destruct (k <? 0); lia.
  - intros p q vp vq Hp Hq Hvp Hvq.
    change (map fst sorted) with (fst <$> sorted) in Hp, Hq.
    rewrite <- fmap_take in Hp. rewrite <- fmap_drop in Hq.
    apply list_elem_of_fmap in Hp as ([p' v1] & -> & Hp).
    apply list_elem_of_fmap in Hq as ([q' v2] & -> & Hq). simpl in *.
    rewrite Forall_forall in Hall.
    pose proof (Hall _ (sublist_subseteq _ _ (sublist_take _ _) _ Hp)) as H1.
    pose proof (Hall _ (sublist_subseteq _ _ (sublist_drop _ _) _ Hq)) as H2.
    simpl in H1, H2.
    assert (vp = v1) by congruence. assert (vq = v2) by congruence. subst vp vq.
    rewrite <- (take_drop n sorted) in Hsorted.
    apply (StronglySorted_app_1_elem_of _ _ _ _ _ Hsorted Hp Hq).
Qed.

Lemma LearnedSimilarityKNN_rank_best_witness :
  ∃ rest,
    ["b"; "c"] ++ rest ≡ₚ ["a"; "b"; "c"; "d"]
    ∧ length ["b"; "c"] = (if -2 <? 0 then (length ["a"; "b"; "c"; "d"] - Z.to_nat (- -2))%nat
                           else Nat.min (Z.to_nat (-2)) (length ["a"; "b"; "c"; "d"]))
    ∧ ∀ p q vp vq,
        p ∈ ["b"; "c"] → q ∈ rest →
        example_similarities !! p = Some vp →
        example_similarities !! q = Some vq →
        (vq <= vp)%Q.
Proof.
  apply (LearnedSimilarityKNN_rank_best example_LearnedSimilarityKNN 1
           ["a"; "b"; "c"; "d"] (-2)).
  vm_compute. reflexivity.
Defined.

(** ** [ZeroShotClusterKNN.rank] returns [k] premises or raises *)

(** X16: where [ZeroShotClusterKNN.rank] returns, [k] is not negative and
    exactly [k] premises are returned: with fewer than [k] non-empty
    clusters the top-k over the representatives raises. *)
Theorem ZeroShotClusterKNN_rank_returns_k `{Clusterer} (self : ZeroShotClusterKNN.t)
    (g : rng) (claim_id : Z) (premise_ids : list string) (k : Z) (result : list string) :
  well_shaped (ZeroShotClusterKNN.similarity self) →
  ZeroShotClusterKNN.rank self g claim_id premise_ids k = Ok result →
  0 ≤ k ∧ length result = Z.to_nat k.
Proof.
  intros Hshape Hrank. unfold ZeroShotClusterKNN.rank in Hrank.
  apply bind_Ok in Hrank as (claim_repr & Hc & Hrank).
  apply bind_Ok in Hrank as (premise_repr & _ & Hrank).
  apply bind_Ok in Hrank as ([assignment centers] & _ & Hrank).
  unfold ZeroShotClusterKNN.rank_clustered in Hrank.
  apply bind_Ok in Hrank as (ids & _ & Hrank).
  apply bind_Ok in Hrank as (reps & _ & Hrank).
  apply bind_Ok in Hrank as (selected & _ & Hrank).
  apply bind_Ok in Hrank as (s & Hs & Hrank).
  apply bind_Ok in Hrank as (t & Ht & Hrank).
  apply bind_Ok in Hrank as (top & Htop & Hrank).
  apply bind_Ok in Hrank as (top_ids & Htop_ids & Hrank).
  apply for_each_length in Htop_ids, Hrank.
  apply Hshape in Hs. rewrite (claim_representation_length _ _ _ Hc) in Hs.
  destruct Hs as [Hrows _].
  destruct s as [|row [|row' s']]; try discriminate.
  unfold topk_indices in Ht. cbn [for_each] in Ht.
  apply bind_Ok in Ht as (idx & Hidx & Ht). injection Ht as <-.
  apply bind_Ok in Hidx as (tk & Htk & Hidx). injection Hidx as <-.
  simpl in Htop. injection Htop as <-.
  destruct (topk_row_contract _ _ _ Htk) as (Hk & Hlen & _).
  rewrite length_map in Htop_ids. split; [lia | congruence].
Qed.

Lemma ZeroShotClusterKNN_rank_returns_k_witness :
  0 ≤ 2 ∧ length ["b"; "a"] = Z.to_nat 2.
Proof.
  apply (ZeroShotClusterKNN_rank_returns_k (H := dealing_clusterer)
           (example_ZeroShotClusterKNN "closest-to-center") 1 1 ["a"; "b"; "c"; "d"] 2
           ["b"; "a"]).
  - apply manhattan_well_shaped.
  - vm_compute. reflexivity.
Defined.

(** ** The greedy selection of [LearnedSimilarityClusterKNN.rank] *)

Lemma Forall2_elem_of_l {A B : Type} (P : A → B → Prop) (l : list A) (k : list B) (x : A) :
  Forall2 P l k → x ∈ l → ∃ y, y ∈ k ∧ P x y.
Proof.
  intros H Hx. apply list_elem_of_lookup in Hx as [i Hi].
  destruct (Forall2_lookup_l _ _ _ _ _ H Hi) as (y & Hy & Hxy).
  exists y. split; [eapply list_elem_of_lookup_2; eassumption | assumption].
Qed.

(** The loop picks, for every cluster not seen before, the first position
    of the order that carries its label, and nothing else. *)
Lemma select_loop_first (premise_ids : list string) (assignment : list Z)
    (order : list nat) (seen seen' : gset Z) (res res' : list string) :
  for_loop (LearnedSimilarityClusterKNN.select_step premise_ids assignment) order (seen, res)
    = Ok (seen', res') →
  ∃ sel picked labels,
    res' = res ++ picked
    ∧ Forall2 (λ i p, premise_ids !! i = Some p) sel picked
    ∧ Forall2 (λ i c, assignment !! i = Some c) sel labels
    ∧ NoDup labels
    ∧ (∀ c, c ∈ labels ↔ ((c ∉ seen) ∧ ∃ j, j ∈ order ∧ assignment !! j = Some c))
    ∧ (∀ i c, i ∈ sel → assignment !! i = Some c →
         ∃ pre post, order = pre ++ i :: post
                     ∧ Forall (λ j, assignment !! j ≠ Some c) pre).
Proof.
  revert seen res. induction order as [|i0 order IH]; intros seen res Hloop.
  - injection Hloop as <- <-. exists [], [], []. rewrite app_nil_r.
    split; [reflexivity |]. split; [constructor |]. split; [constructor |].
    split; [constructor |]. split.
    + intros c. split; [intros Hc; inversion Hc | intros (_ & j & Hj & _); inversion Hj].
    + intros i c Hi. inversion Hi.
  - simpl in Hloop. apply bind_Ok in Hloop as ([seen1 res1] & Hstep & Hloop).
    unfold LearnedSimilarityClusterKNN.select_step in Hstep.
    apply bind_Ok in Hstep as (c0 & Hc0 & Hstep). apply index_Ok in Hc0.
    apply bind_Ok in Hstep as (res1' & Hsel & Hstep).
    injection Hstep as <- <-.
    destruct (IH _ _ Hloop) as (sel & picked & labels & -> & Hpick & Hlab & Hnd & Hiff & Hfirst).
    assert (Hlabel : ∀ i c, i ∈ sel → assignment !! i = Some c → c ≠ c0).
    { intros i c Hi Hc ->.
      destruct (Forall2_elem_of_l _ _ _ _ Hlab Hi) as (c' & Hc' & Hic').
      assert (c' = c0) by congruence. subst c'.
      apply Hiff in Hc' as [Hns _]. apply Hns, elem_of_union_r, elem_of_singleton.
      reflexivity. }
    assert (Hlater : ∀ i c, i ∈ sel → assignment !! i = Some c →
              ∃ pre post, i0 :: order = pre ++ i :: post
                          ∧ Forall (λ j, assignment !! j ≠ Some c) pre).
    { intros i c Hi Hc. destruct (Hfirst i c Hi Hc) as (pre & post & -> & Hpre).
      exists (i0 :: pre), post. split; [reflexivity |].
      constructor; [| assumption]. rewrite Hc0. intros [= ->].
      now apply (Hlabel i c). }
    destruct (decide (c0 ∉ seen)) as [Hnew | Hold].
    + apply bind_Ok in Hsel as (p0 & Hp0 & Hsel). apply index_Ok in Hp0.
      injection Hsel as <-.
      exists (i0 :: sel), (p0 :: picked), (c0 :: labels).
      split; [now rewrite <- app_assoc |].
      split; [now constructor |]. split; [now constructor |].
      split; [| split].
      * apply NoDup_cons. split; [| assumption].
        intros Hin. apply Hiff in Hin as [Hns _].
        apply Hns, elem_of_union_r, elem_of_singleton. reflexivity.
      * intros c. rewrite elem_of_cons, Hiff. split.
        -- intros [-> | (Hns & j & Hj & Hc)].
           ++ split; [assumption |]. exists i0. split; [apply list_elem_of_here | assumption].
           ++ split; [intros Hin; apply Hns, elem_of_union_l, Hin |].
              exists j. split; [now apply list_elem_of_further | assumption].
        -- intros (Hns & j & Hj & Hc).
           destruct (decide (c = c0)) as [-> | Hne]; [now left | right].
           split; [now apply not_elem_of_union, conj, not_elem_of_singleton |].
           exists j. split; [| assumption].
           apply elem_of_cons in Hj as [-> | Hj]; [congruence | assumption].
      * intros i c Hi Hc. apply elem_of_cons in Hi as [-> | Hi].
        -- exists [], order. split; [reflexivity | constructor].
        -- now apply Hlater.
    + injection Hsel as <-. apply dec_stable in Hold.
      exists sel, picked, labels. repeat split; try assumption.
      * apply Hiff in H as [Hns _]. intros Hin. apply Hns, elem_of_union_l, Hin.
      * apply Hiff in H as (_ & j & Hj & Hc).
        exists j. split; [now apply list_elem_of_further | assumption].
      * intros (Hns & j & Hj & Hc). apply Hiff.
        assert (c ≠ c0) by (intros ->; contradiction).
        split; [now apply not_elem_of_union, conj, not_elem_of_singleton |].
        exists j. split; [| assumption].
        apply elem_of_cons in Hj as [-> | Hj]; [congruence | assumption].
Qed.

(** X22: every premise that [LearnedSimilarityClusterKNN.rank] returns is
    a most similar one of its cluster: no candidate with the same cluster
    label has a larger precomputed similarity. *)
Theorem LearnedSimilarityClusterKNN_rank_best_of_cluster `{Clusterer}
    (self : LearnedSimilarityClusterKNN.t) (g : rng) (claim_id : Z)
    (premise_ids : list string) (k : Z) (result : list string) :
  LearnedSimilarityClusterKNN.rank self g claim_id premise_ids k = Ok result →
  ∃ assignment positions,
    cluster_assignment (LearnedSimilarityClusterKNN self) g premise_ids k = Ok assignment
    ∧ Forall2 (λ i p, premise_ids !! i = Some p) positions result
    ∧ ∀ i j c p q vp vq,
        i ∈ positions → assignment !! i = Some c → assignment !! j = Some c →
        premise_ids !! i = Some p → premise_ids !! j = Some q →
        LearnedSimilarityClusterKNN.precomputed_similarities self !! p = Some vp →
        LearnedSimilarityClusterKNN.precomputed_similarities self !! q = Some vq →
        (vq <= vp)%Q.
Proof.
  unfold LearnedSimilarityClusterKNN.rank. intros Hrank.
  apply bind_Ok in Hrank as (premise_repr & Hp & Hrank).
  apply bind_Ok in Hrank as ([assignment centers] & Hk & Hrank).
  apply bind_Ok in Hrank as (keys & Hkeys & Hrank).
  apply bind_Ok in Hrank as ([seen res] & Hloop & Hrank).
  injection Hrank as <-.
  set (stores := LearnedSimilarityClusterKNN.precomputed_similarities self) in *.
  set (pairs := sorted_desc snd (zip (seq 0 (length premise_ids)) keys)) in *.
  assert (Hpairs : Forall (λ x, ∃ p, premise_ids !! fst x = Some p ∧ stores !! p = Some (snd x))
                          pairs).
  { unfold pairs. rewrite sorted_desc_perm.
    apply (Forall_zip (λ i v, ∃ p, premise_ids !! i = Some p ∧ stores !! p = Some v)).
    apply for_each_Forall2 in Hkeys. eapply Forall2_impl; [exact Hkeys |].
    intros i v Hv. apply bind_Ok in Hv as (p & Hp' & Hv). apply index_Ok in Hp'.
    exists p. split; [assumption |]. unfold getitem in Hv.
    destruct (stores !! p); [congruence | discriminate]. }
  assert (Hperm : fst <$> pairs ≡ₚ seq 0 (length premise_ids)).
  { unfold pairs. rewrite sorted_desc_perm. apply for_each_length in Hkeys.
    rewrite fst_zip; [reflexivity |]. rewrite Hkeys. reflexivity. }
  assert (Hsorted : StronglySorted (λ a b : nat * Q, (snd b <= snd a)%Q) pairs)
    by apply sorted_desc_sorted.
  destruct (select_loop_first _ _ _ _ _ _ _ Hloop)
    as (sel & picked & labels & Hres & Hpick & _ & _ & _ & Hfirst).
  simpl in Hres. subst res.
  destruct (slice_to_take k picked) as [m ->].
  exists assignment, (take m sel). split; [| split].
  - simpl. rewrite Hp; simpl. rewrite Hk. reflexivity.
  - now apply Forall2_take.
  - intros i j c p q vp vq Hi Hci Hcj Hpi Hqj Hvp Hvq.
    apply (sublist_subseteq _ _ (sublist_take _ _)) in Hi.
    destruct (Hfirst i c Hi Hci) as (pre & post & Horder & Hpre).
    change (map fst pairs) with (fst <$> pairs) in Horder.
    apply fmap_app_inv in Horder as (P1 & P2' & -> & Hcons & Hsplit).
    symmetry in Hcons. apply fmap_cons_inv in Hcons as (x & P2 & Hx & -> & ->).
    rewrite Hsplit in Hperm, Hpairs, Hsorted.
    assert (Hj : j ∈ fst <$> (P1 ++ x :: P2)).
    { rewrite Hperm. apply elem_of_seq. apply lookup_lt_Some in Hqj. lia. }
    rewrite Forall_app, Forall_cons in Hpairs. destruct Hpairs as (_ & Hx' & HP2).
    destruct Hx' as (p' & Hp' & Hvx). subst i.
    assert (p' = p) by congruence. subst p'.
    assert (vp = snd x) by congruence. subst vp.
    rewrite fmap_app, fmap_cons in Hj.
    apply elem_of_app in Hj as [Hj | Hj].
    + rewrite Forall_forall in Hpre. now destruct (Hpre j Hj).
    + apply elem_of_cons in Hj as [-> | Hj].
      * assert (q = p) by congruence. subst q.
        assert (vq = snd x) by congruence. subst vq. apply Qle_refl.
      * apply list_elem_of_fmap in Hj as (y & -> & Hy).
        rewrite Forall_forall in HP2. destruct (HP2 y Hy) as (q' & Hq' & Hvy).
        assert (q' = q) by congruence. subst q'.
        assert (vq = snd y) by congruence. subst vq.
        apply StronglySorted_app_1_r in Hsorted.
        apply StronglySorted_inv in Hsorted as [_ Hall].
        rewrite Forall_forall in Hall. now apply Hall.
Qed.

Lemma LearnedSimilarityClusterKNN_rank_best_of_cluster_witness :
  ∃ assignment positions,
    cluster_assignment (H := dealing_clusterer)
      (LearnedSimilarityClusterKNN example_LearnedSimilarityClusterKNN) 1
      ["a"; "b"; "c"; "d"] 2 = Ok assignment
    ∧ Forall2 (λ i p, ["a"; "b"; "c"; "d"] !! i = Some p) positions ["b"; "c"]
    ∧ ∀ i j c p q vp vq,
        i ∈ positions → assignment !! i = Some c → assignment !! j = Some c →
        ["a"; "b"; "c"; "d"] !! i = Some p → ["a"; "b"; "c"; "d"] !! j = Some q →
        example_similarities !! p = Some vp →
        example_similarities !! q = Some vq →
        (vq <= vp)%Q.
Proof.
  apply (LearnedSimilarityClusterKNN_rank_best_of_cluster (H := dealing_clusterer)
           example_LearnedSimilarityClusterKNN 1 1 ["a"; "b"; "c"; "d"] 2 ["b"; "c"]).
  vm_compute. reflexivity.
Defined.

Lemma select_loop_total (premise_ids : list string) (assignment : list Z)
    (order : list nat) (st : gset Z * list string) :
  Forall (λ i, (i < length assignment)%nat ∧ (i < length premise_ids)%nat) order →
  ∃ st', for_loop (LearnedSimilarityClusterKNN.select_step premise_ids assignment) order st
         = Ok st'.
Proof.
  intros Hall. revert st. induction Hall as [|i order [Ha Hp] _ IH]; intros [seen res].
  - eexists. reflexivity.
  - apply lookup_lt_is_Some in Ha as [c Hc]. apply lookup_lt_is_Some in Hp as [p Hp].
    assert (Hstep : ∃ st',
      LearnedSimilarityClusterKNN.select_step premise_ids assignment (seen, res) i = Ok st').
    { unfold LearnedSimilarityClusterKNN.select_step, index. rewrite Hc, Hp. simpl.
      destruct (decide (c ∉ seen)); eexists; reflexivity. }
    destruct Hstep as [st' Hstep]. cbn [for_loop]. rewrite Hstep. simpl. apply IH.
Qed.

(** X23: with every candidate in both stores, a label for every candidate
    and [k ≥ 0], [LearnedSimilarityClusterKNN.rank] returns one premise
    for each cluster that k-means used, up to [k] of them:
    [min(k, number of distinct labels)] premises. *)
Theorem LearnedSimilarityClusterKNN_rank_covers_clusters `{Clusterer}
    (self : LearnedSimilarityClusterKNN.t) (g : rng) (claim_id : Z)
    (premise_ids : list string) (k : Z)
    (premise_repr : list Representation) (assignment : list Z)
    (centers : list Representation) :
  premise_representations (LearnedSimilarityClusterKNN.premises self) premise_ids
    = Ok premise_repr →
  KMeans g (_num_clusters (LearnedSimilarityClusterKNN.ratio self)
              (Z.of_nat (length premise_ids)) k) premise_repr
    = Ok (assignment, centers) →
  length assignment = length premise_ids →
  Forall (λ p, is_Some (LearnedSimilarityClusterKNN.precomputed_similarities self !! p))
         premise_ids →
  0 ≤ k →
  ∃ result,
    LearnedSimilarityClusterKNN.rank self g claim_id premise_ids k = Ok result
    ∧ length result = Nat.min (Z.to_nat k) (size (list_to_set (C := gset Z) assignment)).
Proof.
  intros Hp Hk Hlen Hsims Hk0. unfold LearnedSimilarityClusterKNN.rank.
  rewrite Hp; simpl. rewrite Hk; simpl.
  set (stores := LearnedSimilarityClusterKNN.precomputed_similarities self) in *.
  set (n := length premise_ids) in *.
  assert (Hkeys : ∃ keys,
    for_each (λ i, premise_id ← index premise_ids i; getitem PremiseKey stores premise_id)
             (seq 0 n) = Ok keys).
  { assert (Hgen : ∀ l, Forall (λ i, (i < n)%nat) l → ∃ keys,
      for_each (λ i, premise_id ← index premise_ids i; getitem PremiseKey stores premise_id) l
      = Ok keys).
    { induction 1 as [|i l Hi _ [keys IH]]; [exists []; reflexivity |].
      apply lookup_lt_is_Some in Hi as [p Hi].
      rewrite Forall_forall in Hsims.
      destruct (Hsims p) as [v Hv]; [eapply list_elem_of_lookup_2; eassumption |].
      exists (v :: keys). cbn [for_each]. rewrite IH. unfold index, getitem.
      rewrite Hi. simpl. rewrite Hv. reflexivity. }
    apply Hgen, Forall_forall. intros i Hi. apply elem_of_seq in Hi. lia. }
  destruct Hkeys as [keys Hkeys]. rewrite Hkeys; simpl.
  set (pairs := sorted_desc snd (zip (seq 0 n) keys)).
  assert (Hperm : fst <$> pairs ≡ₚ seq 0 n).
  { unfold pairs. rewrite sorted_desc_perm. apply for_each_length in Hkeys.
    rewrite fst_zip; [reflexivity |]. rewrite Hkeys. reflexivity. }
  destruct (select_loop_total premise_ids assignment (map fst pairs) (∅, []))
    as [[seen res] Hloop].
  { apply Forall_forall. intros i Hi. change (map fst pairs) with (fst <$> pairs) in Hi.
    rewrite Hperm in Hi. apply elem_of_seq in Hi. lia. }
  rewrite Hloop; simpl. eexists; split; [reflexivity |].
  destruct (select_loop_first _ _ _ _ _ _ _ Hloop)
    as (sel & picked & labels & Hres & Hpick & Hlab & Hnd & Hiff & _).
  simpl in Hres. subst res.
  unfold slice_to. destruct (Z.ltb_spec k 0); [lia |].
  rewrite length_take. f_equal.
  rewrite <- (Forall2_length _ _ _ Hpick), (Forall2_length _ _ _ Hlab).
  rewrite <- (size_list_to_set (C := gset Z) labels) by assumption.
  f_equal. apply set_eq. intros c. rewrite !elem_of_list_to_set, Hiff. split.
  - intros (_ & j & _ & Hc). eapply list_elem_of_lookup_2; eassumption.
  - intros Hc. apply list_elem_of_lookup in Hc as [j Hj].
    split; [apply not_elem_of_empty |]. exists j. split; [| assumption].
    change (map fst pairs) with (fst <$> pairs). rewrite Hperm.
    apply elem_of_seq. apply lookup_lt_Some in Hj. lia.
Qed.

Lemma LearnedSimilarityClusterKNN_rank_covers_clusters_witness :
  ∃ result,
    LearnedSimilarityClusterKNN.rank (H := dealing_clusterer)
      example_LearnedSimilarityClusterKNN 1 1 ["a"; "b"; "c"; "d"] 3 = Ok result
    ∧ length result = Nat.min (Z.to_nat 3) (size (list_to_set (C := gset Z) [0; 1; 2; 0])).
Proof.
  apply (LearnedSimilarityClusterKNN_rank_covers_clusters (H := dealing_clusterer)
           example_LearnedSimilarityClusterKNN 1 1 ["a"; "b"; "c"; "d"] 3
           [[1; 0]; [0; 1 # 2]; [3; 3]; [3; 4]]%Q [0; 1; 2; 0] [[1; 0]; [0; 1 # 2]; [3; 3]]%Q).
  - vm_compute. reflexivity.
  - vm_compute. reflexivity.
  - reflexivity.
  - repeat constructor; eexists; vm_compute; reflexivity.
  - lia.
Defined.

(** ** Early stopping in [TrainTestHandler.train] *)

Lemma foldl_max_spec (l : list Q) (x : Q) :
  let m := foldl (λ m y, if Qle_bool y m then m else y) x l in
  m ∈ x :: l ∧ (x <= m)%Q ∧ Forall (λ y, (y <= m)%Q) l.
Proof.
  revert x. induction l as [|y l IH]; intros x; simpl.
  - repeat split; [apply list_elem_of_here | apply Qle_refl | constructor].
  - destruct (Qle_bool y x) eqn:Hyx.
    + destruct (IH x) as (Hin & Hx & Hall). apply Qle_bool_iff in Hyx.
      repeat split; [| assumption |].
      * apply elem_of_cons in Hin as [-> | Hin]; [apply list_elem_of_here |].
        now do 2 apply list_elem_of_further.
      * constructor; [| assumption]. eapply Qle_trans; eassumption.
    + destruct (IH y) as (Hin & Hy & Hall).
      assert (Hxy : (x <= y)%Q).
      { destruct (Qlt_le_dec x y) as [Hlt | Hle]; [now apply Qlt_le_weak |].
        apply Qle_bool_iff in Hle. congruence. }
      repeat split; [now apply list_elem_of_further | | now constructor].
      eapply Qle_trans; eassumption.
Qed.

Lemma py_max_spec (l : list Q) (m : Q) :
  py_max l = Some m → m ∈ l ∧ Forall (λ y, (y <= m)%Q) l.
Proof.
  destruct l as [|x l]; [discriminate |]. simpl. intros Hm. injection Hm as <-.
  destruct (foldl_max_spec l x) as (Hin & Hx & Hall). split; [assumption | now constructor].
Qed.

Lemma py_max_is_Some (l : list Q) : l ≠ [] → is_Some (py_max l).
Proof. destruct l; [congruence | eexists; reflexivity]. Qed.

Section train.

Variable self : TrainTestHandler.t.
Variable evaluate : nat → Q.

(** [stops m]: the outcome of the early-stopping test at the end of epoch
    [m], after the validation losses of the epochs 0 to [m]. *)
Local Notation "'stops' m" :=
  (TrainTestHandler.early_stopping self (map evaluate (seq 0 (S m))) (evaluate m))
  (at level 10, m at level 9, only parsing).

Lemma losses_S (n : nat) : map evaluate (seq 0 n) ++ [evaluate n] = map evaluate (seq 0 (S n)).
Proof. rewrite seq_S, map_app. reflexivity. Qed.

Lemma train_epochs_stops (remaining epoch n : nat) :
  (∀ m, (epoch ≤ m < n)%nat → stops m = Some false) →
  stops n = Some true → (epoch ≤ n < epoch + remaining)%nat →
  TrainTestHandler.train_epochs self evaluate remaining epoch (map evaluate (seq 0 epoch))
  = Some (map evaluate (seq 0 (S n))).
Proof.
  revert epoch. induction remaining as [|r IH]; intros epoch Hcont Hstop Hn; [lia |].
  cbn [TrainTestHandler.train_epochs]. rewrite losses_S.
  destruct (decide (epoch = n)) as [-> | Hne].
  - rewrite Hstop. reflexivity.
  - rewrite Hcont by lia. simpl. apply IH; [| assumption | lia].
    intros m Hm. apply Hcont. lia.
Qed.

Lemma train_epochs_runs (remaining epoch : nat) :
  (∀ m, (epoch ≤ m < epoch + remaining)%nat → stops m = Some false) →
  TrainTestHandler.train_epochs self evaluate remaining epoch (map evaluate (seq 0 epoch))
  = Some (map evaluate (seq 0 (epoch + remaining))).
Proof.
  revert epoch. induction remaining as [|r IH]; intros epoch Hcont.
  - rewrite Nat.add_0_r. reflexivity.
  - cbn [TrainTestHandler.train_epochs]. rewrite losses_S.
    rewrite Hcont by lia. simpl. rewrite IH; [do 3 f_equal; lia |].
    intros m Hm. apply Hcont. lia.
Qed.

Lemma train_epochs_inv (remaining epoch : nat) (history : list Q) :
  TrainTestHandler.train_epochs self evaluate remaining epoch (map evaluate (seq 0 epoch)) = Some history →
  ∃ n, (epoch ≤ n ≤ epoch + remaining)%nat ∧ history = map evaluate (seq 0 n)
       ∧ (∀ m, (epoch ≤ m)%nat → (S m < n)%nat → stops m = Some false)
       ∧ ((n < epoch + remaining)%nat → ∃ m, n = S m ∧ (epoch ≤ m)%nat ∧ stops m = Some true).
Proof.
  revert epoch. induction remaining as [|r IH]; intros epoch Hrun.
  - injection Hrun as <-. exists epoch. repeat split; intros; lia.
  - cbn [TrainTestHandler.train_epochs] in Hrun. rewrite losses_S in Hrun.
    destruct (stops epoch) as [[|]|] eqn:Htest; simpl in Hrun; [| | discriminate].
    + injection Hrun as <-. exists (S epoch). repeat split; intros; try lia.
      exists epoch. repeat split; [lia | assumption].
    + destruct (IH _ Hrun) as (n & Hn & -> & Hcont & Hstop).
      exists n. repeat split; try lia.
      * intros m Hm Hlt. destruct (decide (m = epoch)) as [-> | Hne]; [assumption |].
        apply Hcont; lia.
      * intros Hlt. destruct Hstop as (m & -> & Hm & Hstop); [lia |].
        exists m. repeat split; [lia | assumption].
Qed.

Lemma test_before_patience (m : nat) :
  Z.of_nat (S m) ≤ TrainTestHandler.patience self → stops m = Some false.
Proof.
  intros Hm. unfold TrainTestHandler.early_stopping.
  rewrite length_map, length_seq.
  destruct (Z.gtb_spec (Z.of_nat (S m)) (TrainTestHandler.patience self)); [lia | reflexivity].
Qed.

Lemma slice_from_last {A : Type} (p : Z) (l : list A) :
  0 ≤ p < Z.of_nat (length l) →
  ∃ n, slice_from (- p) l = drop n l ∧ (n < length l)%nat
       ∧ (0 < p → (length l - n)%nat = Z.to_nat p).
Proof.
  intros Hp. unfold slice_from. destruct (Z.ltb_spec (- p) 0).
  - exists (length l - Z.to_nat (- - p))%nat. rewrite Z.opp_involutive. repeat split; lia.
  - exists (Z.to_nat (- p)). replace (- p) with 0 by lia. repeat split; simpl; lia.
Qed.

Lemma early_stopping_true (history : list Q) (val_loss : Q) :
  0 ≤ TrainTestHandler.patience self < Z.of_nat (length history) →
  (∀ x, x ∈ slice_from (- TrainTestHandler.patience self) history →
        ((1 - TrainTestHandler.min_delta self) * x <= val_loss)%Q) →
  TrainTestHandler.early_stopping self history val_loss = Some true.
Proof.
  intros Hp Hall. unfold TrainTestHandler.early_stopping.
  destruct (Z.gtb_spec (Z.of_nat (length history)) (TrainTestHandler.patience self)); [| lia].
  destruct (slice_from_last _ history Hp) as (n & Hn & Hlt & _).
  destruct (py_max_is_Some (slice_from (- TrainTestHandler.patience self) history)) as [m Hm].
  - rewrite Hn. intros Hnil. apply (f_equal length) in Hnil.
    rewrite length_drop in Hnil. simpl in Hnil. lia.
  - rewrite Hm. simpl. f_equal. apply Qle_bool_iff, Hall.
    now apply py_max_spec in Hm as [Hin _].
Qed.

Lemma early_stopping_false (history : list Q) (val_loss x : Q) :
  0 ≤ TrainTestHandler.patience self < Z.of_nat (length history) →
  (0 <= 1 - TrainTestHandler.min_delta self)%Q →
  x ∈ slice_from (- TrainTestHandler.patience self) history →
  (val_loss < (1 - TrainTestHandler.min_delta self) * x)%Q →
  TrainTestHandler.early_stopping self history val_loss = Some false.
Proof.
  intros Hp Hd Hin Hlt. unfold TrainTestHandler.early_stopping.
  destruct (Z.gtb_spec (Z.of_nat (length history)) (TrainTestHandler.patience self)); [| lia].
  destruct (py_max (slice_from _ history)) as [m|] eqn:Hm.
  - simpl. f_equal. apply not_true_iff_false. rewrite Qle_bool_iff.
    apply py_max_spec in Hm as [_ Hall]. rewrite Forall_forall in Hall.
    specialize (Hall _ Hin). simpl in Hall.
    assert (((1 - TrainTestHandler.min_delta self) * x
             <= (1 - TrainTestHandler.min_delta self) * m)%Q).
    { rewrite !(Qmult_comm (1 - _)). now apply Qmult_le_compat_r. }
    lra.
  - destruct (slice_from _ history); [inversion Hin | discriminate].
Qed.

End train.

(** X24: [train] leaves in [self.history] the validation losses of
    the epochs it ran, in order, at most [epochs] of them, and it does not
    stop early before the end of epoch [patience + 1]. *)
Theorem train_history (self : TrainTestHandler.t) (evaluate : nat → Q) (history : list Q) :
  TrainTestHandler.train self evaluate = Some history →
  history = map evaluate (seq 0 (length history))
  ∧ (length history ≤ Z.to_nat (TrainTestHandler.epochs self))%nat
  ∧ (0 ≤ TrainTestHandler.patience self →
     (Nat.min (Z.to_nat (TrainTestHandler.epochs self))
              (Z.to_nat (TrainTestHandler.patience self) + 1) ≤ length history)%nat).
Proof.
  unfold TrainTestHandler.train. intros Hrun.
  apply (train_epochs_inv self evaluate _ 0) in Hrun as (n & Hn & -> & Hcont & Hstop).
  rewrite length_map, length_seq. repeat split; [lia |].
  intros Hp. destruct (decide (n < Z.to_nat (TrainTestHandler.epochs self))%nat) as [Hlt | ?];
    [| lia].
  destruct Hstop as (m & -> & _ & Hstop); [lia |].
  destruct (decide (Z.of_nat (S m) ≤ TrainTestHandler.patience self)) as [Hle | ?]; [| lia].
  rewrite test_before_patience in Hstop by assumption. discriminate.
Qed.

Lemma train_history_witness :
  [1; 1 # 2; 1 # 2]%Q
  = map (λ n, if (n <? 1)%nat then 1 else 1 # 2)%Q (seq 0 (length [1; 1 # 2; 1 # 2]%Q))
  ∧ (length [1; 1 # 2; 1 # 2]%Q ≤ Z.to_nat 10)%nat
  ∧ (0 ≤ 2 → (Nat.min (Z.to_nat 10) (Z.to_nat 2 + 1) ≤ length [1; 1 # 2; 1 # 2]%Q)%nat).
Proof.
  apply (train_history
           {| TrainTestHandler.epochs := 10; TrainTestHandler.patience := 2;
              TrainTestHandler.min_delta := 1 # 100 |}
           (λ n, if (n <? 1)%nat then 1 else 1 # 2)%Q).
  reflexivity.
Defined.

(** X25: where the validation loss never decreases, [train] stops at the
    end of epoch [patience + 1]. *)
Theorem train_stops_without_improvement (self : TrainTestHandler.t) (evaluate : nat → Q) :
  0 ≤ TrainTestHandler.patience self < TrainTestHandler.epochs self →
  (0 <= TrainTestHandler.min_delta self)%Q →
  (∀ n, (n ≤ Z.to_nat (TrainTestHandler.patience self))%nat → (0 <= evaluate n)%Q) →
  (∀ n, (n < Z.to_nat (TrainTestHandler.patience self))%nat → (evaluate n <= evaluate (S n))%Q) →
  TrainTestHandler.train self evaluate
  = Some (map evaluate (seq 0 (Z.to_nat (TrainTestHandler.patience self) + 1))).
Proof.
  intros Hp Hd Hpos Hmono. unfold TrainTestHandler.train.
  set (p := Z.to_nat (TrainTestHandler.patience self)) in *.
  rewrite Nat.add_1_r.
  apply (train_epochs_stops self evaluate _ 0 p); [| | lia].
  - intros m Hm. apply test_before_patience. lia.
  - assert (Hle : ∀ i, (i ≤ p)%nat → (evaluate i <= evaluate p)%Q).
    { intros i Hi. clear Hp Hpos. induction p as [|q IH].
      - replace i with 0%nat by lia. apply Qle_refl.
      - destruct (decide (i = S q)) as [-> | Hne]; [apply Qle_refl |].
        apply Qle_trans with (evaluate q); [| apply Hmono; lia].
        apply IH; [| lia]. intros; apply Hmono; lia. }
    apply early_stopping_true; [rewrite length_map, length_seq; lia |].
    intros x Hx.
    destruct (slice_from_last (TrainTestHandler.patience self) (map evaluate (seq 0 (S p))))
      as (n & Hn & _); [rewrite length_map, length_seq; lia |].
    rewrite Hn in Hx. apply (sublist_subseteq _ _ (sublist_drop _ _)) in Hx.
    apply list_elem_of_In, in_map_iff in Hx as (i & <- & Hi). apply in_seq in Hi.
    assert (0 <= TrainTestHandler.min_delta self * evaluate i)%Q
      by (apply Qmult_le_0_compat; [assumption | apply Hpos; lia]).
    specialize (Hle i ltac:(lia)). lra.
Qed.

Lemma train_stops_without_improvement_witness :
  TrainTestHandler.train
    {| TrainTestHandler.epochs := 2000; TrainTestHandler.patience := 3;
       TrainTestHandler.min_delta := 1 # 100000 |}
    (λ n, inject_Z (Z.of_nat n) + (7 # 10))%Q
  = Some (map (λ n, inject_Z (Z.of_nat n) + (7 # 10))%Q (seq 0 (Z.to_nat 3 + 1))).
Proof.
  apply (train_stops_without_improvement
           {| TrainTestHandler.epochs := 2000; TrainTestHandler.patience := 3;
              TrainTestHandler.min_delta := 1 # 100000 |}
           (λ n, inject_Z (Z.of_nat n) + (7 # 10))%Q).
  - simpl. lia.
  - simpl. discriminate.
  - simpl. intros n _. unfold Qle, inject_Z, Qplus. simpl. lia.
  - simpl. intros n _. unfold Qle, inject_Z, Qplus. simpl. lia.
Defined.

(** X26: with a patience of zero or one, [train] stops at the end of epoch
    [patience + 1] whatever the non-negative validation losses are: the
    loss of the last epoch is itself among the losses it is compared to. *)
Theorem train_stops_with_patience_at_most_one (self : TrainTestHandler.t)
    (evaluate : nat → Q) :
  0 ≤ TrainTestHandler.patience self ≤ 1 →
  TrainTestHandler.patience self < TrainTestHandler.epochs self →
  (0 <= TrainTestHandler.min_delta self)%Q →
  (0 <= evaluate (Z.to_nat (TrainTestHandler.patience self)))%Q →
  TrainTestHandler.train self evaluate
  = Some (map evaluate (seq 0 (Z.to_nat (TrainTestHandler.patience self) + 1))).
Proof.
  intros Hp He Hd Hpos. unfold TrainTestHandler.train.
  set (p := Z.to_nat (TrainTestHandler.patience self)) in *.
  rewrite Nat.add_1_r.
  apply (train_epochs_stops self evaluate _ 0 p); [| | lia].
  - intros m Hm. apply test_before_patience. lia.
  - apply early_stopping_true; [rewrite length_map, length_seq; lia |].
    intros x Hx.
    assert (Hslice : slice_from (- TrainTestHandler.patience self) (map evaluate (seq 0 (S p)))
                     = [evaluate p]).
    { assert (Hcases : TrainTestHandler.patience self = 0 ∨ TrainTestHandler.patience self = 1)
        by lia.
      unfold p. destruct Hcases as [-> | ->]; reflexivity. }
    rewrite Hslice in Hx. apply list_elem_of_singleton in Hx as ->.
    assert (0 <= TrainTestHandler.min_delta self * evaluate p)%Q
      by (now apply Qmult_le_0_compat).
    lra.
Qed.

Lemma train_stops_with_patience_at_most_one_witness :
  TrainTestHandler.train
    {| TrainTestHandler.epochs := 2000; TrainTestHandler.patience := 1;
       TrainTestHandler.min_delta := 1 # 100000 |}
    (λ n, 1 # Pos.of_nat (10 ^ n))%Q
  = Some (map (λ n, 1 # Pos.of_nat (10 ^ n))%Q (seq 0 (Z.to_nat 1 + 1))).
Proof.
  apply (train_stops_with_patience_at_most_one
           {| TrainTestHandler.epochs := 2000; TrainTestHandler.patience := 1;
              TrainTestHandler.min_delta := 1 # 100000 |}
           (λ n, 1 # Pos.of_nat (10 ^ n))%Q).
  - simpl. lia.
  - simpl. lia.
  - simpl. discriminate.
  - simpl. discriminate.
Defined.

(** X27: with a patience of two or more, [train] runs all its epochs as
    long as every epoch brings the validation loss below [1 - min_delta]
    times the loss of the epoch before. *)
Theorem train_runs_while_improving (self : TrainTestHandler.t) (evaluate : nat → Q) :
  2 ≤ TrainTestHandler.patience self →
  (0 <= 1 - TrainTestHandler.min_delta self)%Q →
  (∀ n, (S n < Z.to_nat (TrainTestHandler.epochs self))%nat →
        (evaluate (S n) < (1 - TrainTestHandler.min_delta self) * evaluate n)%Q) →
  TrainTestHandler.train self evaluate
  = Some (map evaluate (seq 0 (Z.to_nat (TrainTestHandler.epochs self)))).
Proof.
  intros Hp Hd Himp. unfold TrainTestHandler.train.
  apply (train_epochs_runs self evaluate _ 0). intros m Hm.
  destruct (decide (Z.of_nat (S m) ≤ TrainTestHandler.patience self)) as [Hle | Hgt];
    [now apply test_before_patience |].
  destruct m as [|m]; [lia |].
  apply early_stopping_false with (evaluate m);
    [rewrite length_map, length_seq; lia | assumption | | apply Himp; lia].
  destruct (slice_from_last (TrainTestHandler.patience self) (map evaluate (seq 0 (S (S m)))))
    as (n & Hn & Hlt & Hlen); [rewrite length_map, length_seq; lia |].
  rewrite Hn. rewrite length_map, length_seq in Hlt, Hlen.
  apply list_elem_of_lookup. exists (m - n)%nat.
  rewrite lookup_drop, lookup_map, lookup_seq_lt by lia.
  simpl. do 2 f_equal. lia.
Qed.

Lemma train_runs_while_improving_witness :
  TrainTestHandler.train
    {| TrainTestHandler.epochs := 3; TrainTestHandler.patience := 2;
       TrainTestHandler.min_delta := 1 # 100000 |}
    (λ n, 1 # Pos.of_nat (10 ^ n))%Q
  = Some (map (λ n, 1 # Pos.of_nat (10 ^ n))%Q (seq 0 (Z.to_nat 3))).
Proof.
  apply (train_runs_while_improving
           {| TrainTestHandler.epochs := 3; TrainTestHandler.patience := 2;
              TrainTestHandler.min_delta := 1 # 100000 |}
           (λ n, 1 # Pos.of_nat (10 ^ n))%Q).
  - simpl. lia.
  - simpl. discriminate.
  - simpl. intros [|[|n]] Hn; [reflexivity | reflexivity | lia].
Defined.

(** X28: a negative patience makes [train] fail at the end of the first
    epoch: the slice of the history it takes the maximum of is empty. *)
Theorem train_raises_with_negative_patience (self : TrainTestHandler.t)
    (evaluate : nat → Q) :
  TrainTestHandler.patience self < 0 → 0 < TrainTestHandler.epochs self →
  TrainTestHandler.train self evaluate = None.
Proof.
  intros Hp He. unfold TrainTestHandler.train.
  destruct (Z.to_nat (TrainTestHandler.epochs self)) as [|r] eqn:Hr; [lia |].
  cbn [TrainTestHandler.train_epochs]. simpl app.
  unfold TrainTestHandler.early_stopping.
  destruct (Z.gtb_spec (Z.of_nat (length [evaluate 0%nat])) (TrainTestHandler.patience self));
    [| simpl in *; lia].
  unfold slice_from. destruct (Z.ltb_spec (- TrainTestHandler.patience self) 0); [lia |].
  destruct (Z.to_nat (- TrainTestHandler.patience self)) as [|n] eqn:Hn; [lia |].
  cbn [drop]. rewrite drop_nil. reflexivity.
Qed.

Lemma train_raises_with_negative_patience_witness :
  TrainTestHandler.train
    {| TrainTestHandler.epochs := 2000; TrainTestHandler.patience := -1;
       TrainTestHandler.min_delta := 1 # 100000 |}
    (λ n, 1 # 2)%Q
  = None.
Proof.
  apply (train_raises_with_negative_patience
           {| TrainTestHandler.epochs := 2000; TrainTestHandler.patience := -1;
              TrainTestHandler.min_delta := 1 # 100000 |}
           (λ n, 1 # 2)%Q); simpl; lia.
Defined.

(** ** [validation_epoch_end] *)



(** ** The first baseline *)

(** X30: the ranking that [main] of the first baseline scores for a claim
    needs at least [k] premises of the claim, and it holds the relevances
    of [k] distinct rows of the whole table [df], read at positions below
    the number of premises of the claim: the indices that
    [get_most_similar] returns count within the rows of the claim, and
    [df.iloc] counts within the table. *)
Theorem predicted_ranking_reads_table_head `{Cdist} (df : list baseline_1.row)
    (claims_representations : gmap Z Representation)
    (premises_representations : gmap string Representation)
    (id : Z) (k : baseline_1.k_choice) (ranking : list Z) :
  well_shaped (LpSimilarity 2) →
  baseline_1.predicted_ranking df claims_representations premises_representations id k
  = Ok ranking →
  let n := length (filter (λ r, baseline_1.claim_id r = id) df) in
  baseline_1.k_value k ≤ Z.of_nat n
  ∧ ∃ positions,
      length positions = Z.to_nat (baseline_1.k_value k)
      ∧ NoDup positions
      ∧ Forall2 (λ i r, (i < n)%nat ∧ baseline_1.relevance <$> df !! i = Some r)
                positions ranking.
Proof.
  intros Hshape Hrank n. unfold baseline_1.predicted_ranking in Hrank.
  apply bind_Ok in Hrank as (rows & Hrows & Hrank).
  apply bind_Ok in Hrank as (premises_repr & Hstack & Hrank).
  apply bind_Ok in Hrank as (claim_repr & Hclaim & Hrank).
  apply bind_Ok in Hrank as ([k_premises k_indices] & Hmost & Hrank).
  apply bind_Ok in Hrank as (positions & Hpos & Hrank).
  apply stack_Ok in Hstack as [-> _].
  apply for_each_length in Hrows. rewrite length_map in Hrows. fold n in Hrows.
  apply claim_representation_length in Hclaim.
  unfold get_most_similar in Hmost.
  apply bind_Ok in Hmost as (s & Hs & Hmost).
  apply bind_Ok in Hmost as (indices & Hidx & Hmost).
  apply bind_Ok in Hmost as (selected & _ & Hmost).
  injection Hmost as _ <-.
  apply Hshape in Hs. rewrite Hclaim, Hrows in Hs. destruct Hs as [Hlen Hcols].
  destruct s as [|row [|row' s']]; try discriminate.
  inversion Hcols as [|? ? Hrow _]; subst.
  unfold topk_indices in Hidx. cbn [for_each] in Hidx.
  apply bind_Ok in Hidx as (idx & Hidx & Hrest). injection Hrest as <-.
  apply bind_Ok in Hidx as (tk & Htk & Hidx). injection Hidx as <-.
  simpl in Hpos. injection Hpos as <-.
  destruct (topk_row_contract _ _ _ Htk) as (Hk & Htklen & Hnd & Hall & _).
  assert (Hbound : Forall (λ i, (i < n)%nat) (map fst tk)).
  { apply Forall_forall. intros i Hi.
    apply list_elem_of_fmap in Hi as ([i' v] & -> & Hin).
    rewrite Forall_forall in Hall. specialize (Hall _ Hin). simpl in *.
    apply lookup_lt_Some in Hall. lia. }
  split; [lia |].
  exists (map fst tk). split; [now rewrite length_map |]. split; [exact Hnd |].
  apply for_each_Forall2 in Hrank. clear Hnd Hall Htk Htklen.
  revert Hbound. induction Hrank as [|i r pos rk Hi _ IH]; intros Hbound; constructor.
  - inversion Hbound; subst. split; [assumption |].
    apply bind_Ok in Hi as (x & Hx & Hi). injection Hi as <-.
    apply index_Ok in Hx. rewrite Hx. reflexivity.
  - apply IH. now inversion Hbound.
Qed.

Lemma predicted_ranking_reads_table_head_witness :
  let n := length (filter (λ r, baseline_1.claim_id r = 1) example_assignments) in
  5 ≤ Z.of_nat n
  ∧ ∃ positions,
      length positions = Z.to_nat 5
      ∧ NoDup positions
      ∧ Forall2 (λ i r, (i < n)%nat
                        ∧ baseline_1.relevance <$> example_assignments !! i = Some r)
                positions [2; 0; 2; 1; 0].
Proof.
  apply (predicted_ranking_reads_table_head (H := cdist_manhattan) example_assignments
           example_claims example_premises 1 baseline_1.K5).
  - apply manhattan_well_shaped.
  - reflexivity.
Defined.
